(** * OCR service: request handling, staging, serialised inference

    A shallow embedding of [app/api/routes-tesseract.py],
    [app/api/routes-deepseek.py] and [app/core/engine.py].

    The handlers are embedded as programs over a small set of effects
    (calls into Pillow, pytesseract, the transformer model, tempfile, the
    asyncio lock).  The programs get two semantics: a sequential one
    ([run], a request served in isolation) and an interleaved one
    ([pool_step], many requests in flight). *)

From Stdlib Require Import ZArith Lia Strings.Ascii Strings.String Strings.Byte.
From stdpp Require Import base tactics option list sorting strings pretty gmap.

Local Open Scope Z_scope.

(** ** Bytes *)

Abbreviation bytes := (list byte).

#[global] Instance byte_eq_decision : EqDecision byte := Byte.byte_eq_dec.

Definition byte_val (b : byte) : Z := Z.of_N (Byte.to_N b).

(** Storing into an [unsigned char] keeps the low eight bits. *)
Definition byte_of (z : Z) : byte :=
  default x00 (Byte.of_N (Z.to_N (Z.land z 255))).

(** ** Base64 (Python's [base64] / [binascii], RFC 4648 section 4)

    [base64.b64encode] and [base64.b64decode] belong to the Python standard
    library, not to the repository; they are embedded here after
    [binascii.b2a_base64] and [binascii.a2b_base64] (non strict mode). *)

Module Base64.

Definition table_b2a_base64 : string :=
  "ABCDEFGHIJKLMNOPQRSTUVWXYZabcdefghijklmnopqrstuvwxyz0123456789+/".

Definition BASE64_PAD : ascii := "="%char.

Definition b2a (i : Z) : ascii :=
  default BASE64_PAD (String.get (Z.to_nat i) table_b2a_base64).

Fixpoint index_from (c : ascii) (s : string) (n : Z) : option Z :=
  match s with
  | EmptyString => None
  | String c' s' => if Ascii.eqb c c' then Some n else index_from c s' (n + 1)
  end.

(** [table_a2b_base64]: the sextet of an alphabet character, [None] for
    every other character. *)
Definition a2b (c : ascii) : option Z := index_from c table_b2a_base64 0.

(** Encoder: three bytes give four characters; one or two trailing bytes
    are padded with [=]. *)
Fixpoint b2a_base64 (data : bytes) : string :=
  match data with
  | [] => ""
  | [x] =>
      let x := byte_val x in
      String (b2a (Z.shiftr x 2))
     (String (b2a (Z.shiftl (Z.land x 3) 4))
     (String BASE64_PAD (String BASE64_PAD "")))
  | [x; y] =>
      let x := byte_val x in
      let y := byte_val y in
      String (b2a (Z.shiftr x 2))
     (String (b2a (Z.lor (Z.shiftl (Z.land x 3) 4) (Z.shiftr y 4)))
     (String (b2a (Z.shiftl (Z.land y 15) 2))
     (String BASE64_PAD "")))
  | x :: y :: z :: rest =>
      let x := byte_val x in
      let y := byte_val y in
      let z := byte_val z in
      String (b2a (Z.shiftr x 2))
     (String (b2a (Z.lor (Z.shiftl (Z.land x 3) 4) (Z.shiftr y 4)))
     (String (b2a (Z.lor (Z.shiftl (Z.land y 15) 2) (Z.shiftr z 6)))
     (String (b2a (Z.land z 63))
     (b2a_base64 rest))))
  end.

(** State of the decoding loop of [a2b_base64]. *)
Record a2b_state := A2B {
  quad_pos : Z;
  leftchar : Z;
  pads : Z;
  bin_data : bytes;
}.

Inductive a2b_error :=
  | IncorrectPadding
  | OneMoreThanMultipleOf4 (data_chars : nat).

(** The loop over the input characters.  A pad character that completes a
    quad ends the decoding ([goto done]); characters outside the alphabet
    are skipped. *)
Fixpoint a2b_loop (s : string) (st : a2b_state) : a2b_error + bytes :=
  match s with
  | EmptyString =>
      if quad_pos st =? 0 then inr (bin_data st)
      else if quad_pos st =? 1
      then inl (OneMoreThanMultipleOf4 (length (bin_data st) / 3 * 4 + 1))
      else inl IncorrectPadding
  | String this_ch rest =>
      if Ascii.eqb this_ch BASE64_PAD then
        if (2 <=? quad_pos st) && (4 <=? quad_pos st + (pads st + 1))
        then inr (bin_data st)
        else if 2 <=? quad_pos st
        then a2b_loop rest (A2B (quad_pos st) (leftchar st) (pads st + 1) (bin_data st))
        else a2b_loop rest st
      else
        match a2b this_ch with
        | None => a2b_loop rest st
        | Some v =>
            match quad_pos st with
            | 0 => a2b_loop rest (A2B 1 v 0 (bin_data st))
            | 1 =>
                a2b_loop rest
                  (A2B 2 (Z.land v 15) 0
                     (bin_data st ++ [byte_of (Z.lor (Z.shiftl (leftchar st) 2) (Z.shiftr v 4))]))
            | 2 =>
                a2b_loop rest
                  (A2B 3 (Z.land v 3) 0
                     (bin_data st ++ [byte_of (Z.lor (Z.shiftl (leftchar st) 4) (Z.shiftr v 2))]))
            | _ =>
                a2b_loop rest
                  (A2B 0 0 0
                     (bin_data st ++ [byte_of (Z.lor (Z.shiftl (leftchar st) 6) v)]))
            end
        end
  end.

Definition a2b_base64 (s : string) : a2b_error + bytes :=
  a2b_loop s (A2B 0 0 0 []).

End Base64.

(** ** Python values: exceptions, JSON, responses *)

Local Unset Elimination Schemes.
Inductive json :=
  | JNull
  | JString (s : string)
  | JList (l : list json)
  | JDict (items : list (string * json)).
Local Set Elimination Schemes.

Inductive exc_class :=
  | UnidentifiedImageError
  | BinasciiError
  | ValueError
  | FileNotFoundError
  | FileExistsError
  | RuntimeError
  | StopIteration
  | UnicodeDecodeError
  | OtherException (name : string)   (* any other subclass of [Exception] *)
  | NonException (name : string).    (* [BaseException] outside [Exception] *)

Inductive exn :=
  | PyErr (cls : exc_class) (text : string)
  | HTTPException (status_code : Z) (detail : json).

(** [isinstance(e, Exception)], what [except Exception] tests. *)
Definition is_Exception (e : exn) : bool :=
  match e with
  | PyErr (NonException _) _ => false
  | _ => true
  end.

(** [isinstance(e, UnidentifiedImageError)]. *)
Definition is_UnidentifiedImageError (e : exn) : bool :=
  match e with
  | PyErr UnidentifiedImageError _ => true
  | _ => false
  end.

(** [isinstance(e, StopIteration)], what [Future.set_exception] tests. *)
Definition is_StopIteration (e : exn) : bool :=
  match e with
  | PyErr StopIteration _ => true
  | _ => false
  end.

Inductive result (A : Type) :=
  | Ok (a : A)
  | Err (e : exn).
Arguments Ok {A} a.
Arguments Err {A} e.

Record response := JSONResponse {
  status : Z;
  content : json;
}.

(** Lookup of a key in a JSON object. *)
Fixpoint assoc (key : string) (items : list (string * json)) : option json :=
  match items with
  | [] => None
  | (k, v) :: rest => if String.eqb k key then Some v else assoc key rest
  end.

Definition field (key : string) (j : json) : option json :=
  match j with
  | JDict items => assoc key items
  | _ => None
  end.

Definition opt_str (o : option string) : json :=
  match o with
  | Some s => JString s
  | None => JNull
  end.

(** ** Request data *)

(** A multipart upload: the declared filename and what [await file.read()]
    gives. *)
Record UploadFile := {
  filename : option string;
  read : result bytes;
}.

(** A Pillow image object: the detected format and the buffer it was opened
    on (the pixel data is decoded lazily). *)
Record image := {
  format : option string;
  fp : bytes;
}.

(** ** The missing [schemas.Language] enumeration

    [app/api/schemas.py] is not part of the sources; the enumeration is a
    parameter: the (name, value) pairs of the class body, in order.  The
    functions below are Python's [Enum] semantics (lookup by value gives the
    first definition with that value; later ones are aliases). *)

Record member := Member {
  name : string;
  value : string;
}.

Abbreviation enum := (list member).

(** [Language(v)]: [None] stands for the [ValueError]. *)
Definition enum_call (E : enum) (v : string) : option member :=
  List.find (fun m => String.eqb (value m) v) E.

(** [Language.X] *)
Definition enum_attr (E : enum) (n : string) : option member :=
  match List.find (fun m => String.eqb (name m) n) E with
  | Some d => enum_call E (value d)
  | None => None
  end.

(** [for item in Language]: the canonical members, aliases left out. *)
Fixpoint enum_iter_from (seen : list string) (E : enum) : list member :=
  match E with
  | [] => []
  | m :: rest =>
      if bool_decide (value m ∈ seen) then enum_iter_from seen rest
      else m :: enum_iter_from (value m :: seen) rest
  end.

Definition enum_iter (E : enum) : list member := enum_iter_from [] E.

(** [sorted(...)] on a set of [str]. *)
Definition sorted (s : gset string) : list string :=
  merge_sort String.le (elements s).

(** [str.lower()], on ASCII. *)
Definition lower_ascii (c : ascii) : ascii :=
  let n := nat_of_ascii c in
  if (65 <=? n)%nat && (n <=? 90)%nat then ascii_of_nat (n + 32) else c.

Fixpoint lower (s : string) : string :=
  match s with
  | EmptyString => EmptyString
  | String c s' => String (lower_ascii c) (lower s')
  end.

(** ** Effects

    Every call that leaves the handler's own code is an effect: Pillow,
    pytesseract, [base64], torch and the model, [tempfile], the asyncio
    lock and the worker thread of [asyncio.to_thread]. *)

(** The fixed keyword arguments of [self.model.infer] in [DeepSeekOCR.infer]. *)
Record infer_args := {
  prompt : string;
  image_file : string;
  output_path : string;
  base_size : Z;
  image_size : Z;
  crop_mode : bool;
  save_results : bool;
  test_compress : bool;
}.

Inductive eff : Type -> Type :=
  | UploadRead (file : UploadFile) : eff (result bytes)
  | B64decode (s : string) : eff (result bytes)
  | ImageOpen (data : bytes) : eff (result image)
  | ImageVerify (im : image) : eff (result unit)
  | ImageToString (im : image) (lang : string) : eff (result string)
  | CudaEmptyCache : eff unit
  | ModelInfer (args : infer_args) : eff (result unit)
  | NamedTemporaryFile (suffix : string) : eff (result string)
  | TmpWrite (tmp : string) (data : bytes) : eff (result unit)
  | TmpClose (tmp : string) : eff unit
  | TemporaryDirectory : eff (result string)
  | TmpCleanup (tmpdir : string) : eff unit
  | OpenRead (dir file : string) : eff (result string)
  | LockAcquire : eff unit
  | LockRelease : eff (result unit)
  | ThreadEnter : eff unit
  | ThreadExit : eff unit
  | SetException (e : exn) : eff (option exn)
  | Suspended : eff Empty_set.

(** Programs: a handler either returns, raises, or performs an effect and
    goes on with its result. *)
Inductive prog (A : Type) : Type :=
  | Ret (a : A)
  | Throw (e : exn)
  | Vis {X : Type} (o : eff X) (k : X -> prog A).
Arguments Ret {A} a.
Arguments Throw {A} e.
Arguments Vis {A X} o k.

Fixpoint bind {A B} (p : prog A) (f : A -> prog B) : prog B :=
  match p with
  | Ret a => f a
  | Throw e => Throw e
  | Vis o k => Vis o (fun x => bind (k x) f)
  end.

Notation "x <- p ;; q" := (bind p (fun x => q))
  (at level 100, p at next level, right associativity, only parsing).
Notation "p ;;; q" := (bind p (fun _ => q))
  (at level 100, right associativity, only parsing).

(** An effect whose result may be an exception, raised in the caller. *)
Definition call {X} (o : eff (result X)) : prog X :=
  Vis o (fun r => match r with Ok x => Ret x | Err e => Throw e end).

Definition do {X} (o : eff X) : prog X := Vis o Ret.

(** [try: p  except ...: h e]; [h e = None] when no clause matches [e]. *)
Fixpoint try_except {A} (p : prog A) (h : exn -> option (prog A)) : prog A :=
  match p with
  | Ret a => Ret a
  | Throw e => match h e with Some q => q | None => Throw e end
  | Vis o k => Vis o (fun x => try_except (k x) h)
  end.

(** [try: p  finally: fin], the shape of every [with] block. *)
Fixpoint try_finally {A} (p : prog A) (fin : prog unit) : prog A :=
  match p with
  | Ret a => fin ;;; Ret a
  | Throw e => fin ;;; Throw e
  | Vis o k => Vis o (fun x => try_finally (k x) fin)
  end.

(** [with tempfile.NamedTemporaryFile(delete=True, suffix=suffix) as tmp:] *)
Definition with_NamedTemporaryFile {A} (suffix : string) (body : string -> prog A) : prog A :=
  tmp <- call (NamedTemporaryFile suffix) ;;
  try_finally (body tmp) (do (TmpClose tmp)).

(** [with tempfile.TemporaryDirectory() as tmpdir:] *)
Definition with_TemporaryDirectory {A} (body : string -> prog A) : prog A :=
  tmpdir <- call TemporaryDirectory ;;
  try_finally (body tmpdir) (do (TmpCleanup tmpdir)).

(** [async with lock:] *)
Definition async_with_lock {A} (body : prog A) : prog A :=
  do LockAcquire ;;;
  try_finally body (call LockRelease).

(** What a function comes to, caught: the worker thread of an executor
    keeps the result or the exception ([BaseException]) of its function. *)
Definition attempt {A} (f : prog A) : prog (result A) :=
  try_except (a <- f ;; Ret (Ok a)) (fun e => Some (Ret (Err e))).

(** A handler that awaits a future nobody completes. *)
Definition suspended {A} : prog A :=
  Vis Suspended (fun x : Empty_set => match x with end).

(** [await asyncio.to_thread(f, ...)]: the function runs in a worker thread
    while the handler awaits a future.  [ThreadEnter] and [ThreadExit] mark
    the start and the end of the function in its thread.  Its result is set
    on the future and the handler goes on with it.  Its exception is set on
    the future with [Future.set_exception]: the handler is resumed with the
    exception the future took, or stays suspended when the future refused
    it. *)
Definition to_thread {A} (f : prog A) : prog A :=
  do ThreadEnter ;;;
  r <- attempt f ;;
  do ThreadExit ;;;
  match r with
  | Ok a => Ret a
  | Err e =>
      taken <- do (SetException e) ;;
      match taken with
      | Some e' => Throw e'
      | None => suspended
      end
  end.

(** ** The world the effects act on *)

(** An entry of the temporary directory: a file, or a directory with its
    files (relative name to content, the bytes as a string). *)
Inductive node :=
  | File (data : bytes)
  | Dir (entries : gmap string string).

Inductive event :=
  | EvUploadRead
  | EvB64decode (s : string)
  | EvImageOpen (data : bytes)
  | EvImageVerify
  | EvImageToString (lang : string)
  | EvCudaEmptyCache
  | EvModelInfer (args : infer_args)
  | EvNamedTemporaryFile (suffix : string)
  | EvTmpWrite (tmp : string)
  | EvTmpClose (tmp : string)
  | EvTemporaryDirectory
  | EvTmpCleanup (tmpdir : string)
  | EvOpenRead (dir file : string)
  | EvLockAcquire
  | EvLockRelease
  | EvThreadEnter
  | EvThreadExit
  | EvSetException (e : exn)
  | EvSuspended
  | EvRaised (e : exn).         (* the effect just logged raised [e] *)

Record world := World {
  disk : gmap string node;      (* the entries of the temporary directory *)
  draws : nat;                  (* random names drawn so far *)
  locked : bool;                (* [model_lock.locked()] *)
  running : nat;                (* [to_thread] functions in progress *)
  log : list event;             (* the effects performed, oldest first *)
}.

Definition set_disk (f : gmap string node -> gmap string node) (w : world) : world :=
  World (f (disk w)) (draws w) (locked w) (running w) (log w).
Definition set_draws (n : nat) (w : world) : world :=
  World (disk w) n (locked w) (running w) (log w).
Definition set_locked (b : bool) (w : world) : world :=
  World (disk w) (draws w) b (running w) (log w).
Definition set_running (n : nat) (w : world) : world :=
  World (disk w) (draws w) (locked w) n (log w).
Definition emit (ev : event) (w : world) : world :=
  World (disk w) (draws w) (locked w) (running w) (log w ++ [ev]).

(** What one run of the model leaves behind: the files it saved under
    [output_path] (name to content, the bytes as a string), and its return
    or exception. *)
Record model_run := {
  written : gmap string string;
  outcome : result unit;
}.

(** The libraries the handlers call, as functions. *)
Record libs := {
  Image_open : bytes -> result image;           (* [Image.open(io.BytesIO(data))] *)
  Image_verify : image -> result unit;          (* [image.verify()] *)
  Image_load : image -> result unit;            (* [image.load()], the full decode *)
  image_to_string : image -> string -> result string;  (* pytesseract *)
  model_infer : infer_args -> option bytes -> model_run;
  gettempdir : string;
  candidate_name : nat -> string;               (* the random part of a temp name *)
  http_str : Z -> json -> string;               (* [str] of an [HTTPException] *)
  utf_8_error : string -> string;               (* [str] of the [UnicodeDecodeError] of
                                                   the utf-8 codec on these bytes *)
  (* What a handler that awaits a future is resumed with when a
     [StopIteration] is set on the future.  CPython up to 3.12: nothing,
     [Future.set_exception] raises [TypeError] in the event loop and the
     future stays pending.  From 3.13: a [RuntimeError] in its place. *)
  Future_StopIteration : option exn;
}.

(** [str(e)] *)
Definition str (L : libs) (e : exn) : string :=
  match e with
  | PyErr _ text => text
  | HTTPException s d => http_str L s d
  end.

(** [base64.b64decode(s)] on a [str]: ASCII only, then [a2b_base64]. *)
Definition is_ascii (s : string) : bool :=
  forallb (fun c => (nat_of_ascii c <? 128)%nat) (list_ascii_of_string s).

Definition b64decode (s : string) : result bytes :=
  if is_ascii s then
    match Base64.a2b_base64 s with
    | inr data => Ok data
    | inl Base64.IncorrectPadding => Err (PyErr BinasciiError "Incorrect padding")
    | inl (Base64.OneMoreThanMultipleOf4 n) =>
        Err (PyErr BinasciiError
               ("Invalid base64-encoded string: number of data characters ("
                  +:+ pretty n +:+ ") cannot be 1 more than a multiple of 4"))
    end
  else Err (PyErr ValueError "string argument should contain only ASCII characters").

(** [base64.b64encode(data).decode('utf-8')] *)
Definition b64encode (data : bytes) : string := Base64.b2a_base64 data.

(** [Future.set_exception(e)], for the handler that awaits the future: the
    exception it is resumed with, [None] when it is not resumed. *)
Definition set_exception (L : libs) (e : exn) : option exn :=
  if is_StopIteration e then Future_StopIteration L else Some e.

(** [tempfile]: names are drawn until one is free, at most [TMP_MAX] times
    ([os.TMP_MAX], 238328 on Linux; 10000 where the platform has none). *)
Definition TMP_MAX : nat := 238328.

Definition temp_name (L : libs) (suffix : string) (n : nat) : string :=
  gettempdir L +:+ "/tmp" +:+ candidate_name L n +:+ suffix.

Fixpoint mkstemp_inner (L : libs) (tries : nat) (suffix : string)
    (d : gmap string node) (n : nat) : option string * nat :=
  match tries with
  | O => (None, n)
  | S tries' =>
      let name := temp_name L suffix n in
      if bool_decide (d !! name = None) then (Some name, S n)
      else mkstemp_inner L tries' suffix d (S n)
  end.

(** What [tempfile] raises when every candidate name is taken, for a
    [kind] of entry ("file" in [_mkstemp_inner], "directory" in [mkdtemp]). *)
Definition no_usable_name (kind : string) : exn :=
  PyErr FileExistsError ("[Errno 17] No usable temporary " +:+ kind +:+ " name found").

Definition create (L : libs) (kind suffix : string) (entry : node) (w : world)
    : result string * world :=
  match mkstemp_inner L TMP_MAX suffix (disk w) (draws w) with
  | (Some name, n) => (Ok name, set_draws n (set_disk (insert name entry) w))
  | (None, n) => (Err (no_usable_name kind), set_draws n w)
  end.

Definition file_data (d : gmap string node) (path : string) : option bytes :=
  match d !! path with
  | Some (File data) => Some data
  | _ => None
  end.

Definition append_data (data : bytes) (n : node) : node :=
  match n with
  | File old => File (old ++ data)
  | Dir es => Dir es
  end.

Definition save_into (files : gmap string string) (n : node) : node :=
  match n with
  | File old => File old
  | Dir es => Dir (files ∪ es)
  end.

(** The utf-8 codec, strict: the bytes are the encoding of a text when
    every sequence is well formed (no stray continuation byte, no overlong
    form, no surrogate, nothing above U+10FFFF).  [need] continuation bytes
    are still to come, the next one between [lo] and [hi]. *)
Fixpoint utf_8_loop (s : string) (need lo hi : nat) : bool :=
  match s with
  | EmptyString => (need =? 0)%nat
  | String c s' =>
      let b := nat_of_ascii c in
      match need with
      | O =>
          if (b <? 128)%nat then utf_8_loop s' 0 128 191
          else if (194 <=? b)%nat && (b <=? 223)%nat then utf_8_loop s' 1 128 191
          else if (b =? 224)%nat then utf_8_loop s' 2 160 191
          else if (b =? 237)%nat then utf_8_loop s' 2 128 159
          else if (225 <=? b)%nat && (b <=? 239)%nat then utf_8_loop s' 2 128 191
          else if (b =? 240)%nat then utf_8_loop s' 3 144 191
          else if (241 <=? b)%nat && (b <=? 243)%nat then utf_8_loop s' 3 128 191
          else if (b =? 244)%nat then utf_8_loop s' 3 128 143
          else false
      | S need' =>
          if (lo <=? b)%nat && (b <=? hi)%nat then utf_8_loop s' need' 128 191
          else false
      end
  end.

Definition utf_8_valid (s : string) : bool := utf_8_loop s 0 128 191.

(** Reading in text mode with [newline=None]: a carriage return, alone or
    before a line feed, comes back as a line feed. *)
Fixpoint universal_newlines (s : string) : string :=
  match s with
  | EmptyString => EmptyString
  | String c s' =>
      if Ascii.eqb c "013" then
        match s' with
        | String c' s'' =>
            if Ascii.eqb c' "010" then String "010" (universal_newlines s'')
            else String "010" (universal_newlines s')
        | EmptyString => String "010" EmptyString
        end
      else String c (universal_newlines s')
  end.

(** What [open] raises on a file that is not there. *)
Definition no_such_file (dir file : string) : exn :=
  PyErr FileNotFoundError
    ("[Errno 2] No such file or directory: '" +:+ dir +:+ "/" +:+ file +:+ "'").

(** [f.read()] on [open(..., mode="r", encoding="utf-8")]: the content of
    the file decoded, a text being held as its utf-8 bytes, with its line
    ends translated. *)
Definition decode_text (L : libs) (content : string) : result string :=
  if utf_8_valid content then Ok (universal_newlines content)
  else Err (PyErr UnicodeDecodeError (utf_8_error L content)).

(** [with open(f"{dir}/{file}", mode="r", encoding="utf-8") as f: f.read()] *)
Definition read_text (L : libs) (d : gmap string node) (dir file : string) : result string :=
  match d !! dir with
  | Some (Dir es) =>
      match es !! file with
      | Some content => decode_text L content
      | None => Err (no_such_file dir file)
      end
  | Some (File _) =>
      Err (PyErr (OtherException "NotADirectoryError")
             ("[Errno 20] Not a directory: '" +:+ dir +:+ "/" +:+ file +:+ "'"))
  | None => Err (no_such_file dir file)
  end.

Definition event_of {X} (o : eff X) : event :=
  match o with
  | UploadRead _ => EvUploadRead
  | B64decode s => EvB64decode s
  | ImageOpen data => EvImageOpen data
  | ImageVerify _ => EvImageVerify
  | ImageToString _ lang => EvImageToString lang
  | CudaEmptyCache => EvCudaEmptyCache
  | ModelInfer args => EvModelInfer args
  | NamedTemporaryFile suffix => EvNamedTemporaryFile suffix
  | TmpWrite tmp _ => EvTmpWrite tmp
  | TmpClose tmp => EvTmpClose tmp
  | TemporaryDirectory => EvTemporaryDirectory
  | TmpCleanup tmpdir => EvTmpCleanup tmpdir
  | OpenRead dir file => EvOpenRead dir file
  | LockAcquire => EvLockAcquire
  | LockRelease => EvLockRelease
  | ThreadEnter => EvThreadEnter
  | ThreadExit => EvThreadExit
  | SetException e => EvSetException e
  | Suspended => EvSuspended
  end.

(** One effect, performed on the world.  [None]: the effect cannot be
    performed now and its caller waits: for the lock while it is taken, for
    ever when it is suspended.  The file system is taken to carry out what
    it is asked: a temporary entry is refused only for want of a free name,
    and writes, removals and the purge of the cache go through. *)
Definition perform (L : libs) {X} (o : eff X) (w : world) : option (X * world) :=
  match o in eff X return option (X * world) with
  | UploadRead file => Some (read file, w)
  | B64decode s => Some (b64decode s, w)
  | ImageOpen data => Some (Image_open L data, w)
  | ImageVerify im => Some (Image_verify L im, w)
  | ImageToString im lang => Some (image_to_string L im lang, w)
  | CudaEmptyCache => Some (tt, w)
  | ModelInfer args =>
      let r := model_infer L args (file_data (disk w) (image_file args)) in
      Some (outcome r, set_disk (alter (save_into (written r)) (output_path args)) w)
  | NamedTemporaryFile suffix => Some (create L "file" suffix (File []) w)
  | TmpWrite tmp data => Some (Ok tt, set_disk (alter (append_data data) tmp) w)
  | TmpClose tmp => Some (tt, set_disk (delete tmp) w)
  | TemporaryDirectory => Some (create L "directory" "" (Dir ∅) w)
  | TmpCleanup tmpdir => Some (tt, set_disk (delete tmpdir) w)
  | OpenRead dir file => Some (read_text L (disk w) dir file, w)
  | LockAcquire => if locked w then None else Some (tt, set_locked true w)
  | LockRelease =>
      if locked w then Some (Ok tt, set_locked false w)
      else Some (Err (PyErr RuntimeError "Lock is not acquired."), w)
  | ThreadEnter => Some (tt, set_running (S (running w)) w)
  | ThreadExit => Some (tt, set_running (pred (running w)) w)
  | SetException e => Some (set_exception L e, w)
  | Suspended => None
  end.

Definition err_of {A} (r : result A) : option exn :=
  match r with
  | Ok _ => None
  | Err e => Some e
  end.

(** The exception an effect came back with, if any. *)
Definition raised {X} (o : eff X) : X -> option exn :=
  match o in eff X return X -> option exn with
  | UploadRead _ => err_of
  | B64decode _ => err_of
  | ImageOpen _ => err_of
  | ImageVerify _ => err_of
  | ImageToString _ _ => err_of
  | CudaEmptyCache => fun _ => None
  | ModelInfer _ => err_of
  | NamedTemporaryFile _ => err_of
  | TmpWrite _ _ => err_of
  | TmpClose _ => fun _ => None
  | TemporaryDirectory => err_of
  | TmpCleanup _ => fun _ => None
  | OpenRead _ _ => err_of
  | LockAcquire => fun _ => None
  | LockRelease => err_of
  | ThreadEnter => fun _ => None
  | ThreadExit => fun _ => None
  | SetException _ => fun taken => taken
  | Suspended => fun _ => None
  end.

Definition note_raised (e : option exn) (w : world) : world :=
  match e with
  | Some e => emit (EvRaised e) w
  | None => w
  end.

(** An effect is logged, performed, and its exception (if any) logged. *)
Definition exec_op (L : libs) {X} (o : eff X) (w : world) : option (X * world) :=
  match perform L o (emit (event_of o) w) with
  | Some (x, w') => Some (x, note_raised (raised o x) w')
  | None => None
  end.

(** *** Sequential semantics: one request served on its own

    A run ends when the handler returns or raises; it is [Blocked] where
    the handler waits, for the lock or for ever. *)

Inductive exit (A : Type) :=
  | Returned (a : A)
  | Raised (e : exn)
  | Blocked.
Arguments Returned {A} a.
Arguments Raised {A} e.
Arguments Blocked {A}.

Fixpoint run (L : libs) {A} (p : prog A) (w : world) : exit A * world :=
  match p with
  | Ret a => (Returned a, w)
  | Throw e => (Raised e, w)
  | Vis o k =>
      match exec_op L o w with
      | Some (x, w') => run L (k x) w'
      | None => (Blocked, w)
      end
  end.

(** *** Interleaved semantics: many requests in flight

    A pool is the world and the handlers in progress.  A step performs the
    next effect of one of them; a new request may arrive at any time. *)

Definition pool := (world * list (prog response))%type.

Inductive pool_step (L : libs) (arrivals : prog response -> Prop) : pool -> pool -> Prop :=
  | step_arrive w ts p :
      arrivals p ->
      pool_step L arrivals (w, ts) (w, ts ++ [p])
  | step_effect w ts i X (o : eff X) k x w' :
      ts !! i = Some (Vis o k) ->
      exec_op L o w = Some (x, w') ->
      pool_step L arrivals (w, ts) (w', <[i := k x]> ts).

(** FastAPI's default exception handling: an [HTTPException] becomes a
    response with its status and [{"detail": ...}]; any other [Exception]
    becomes a bare 500; the rest, and a handler that waits, gives no
    response. *)
Definition http_reply (x : exit response) : option response :=
  match x with
  | Returned r => Some r
  | Raised (HTTPException s d) => Some (JSONResponse s (JDict [("detail", d)]))
  | Raised e =>
      if is_Exception e then Some (JSONResponse 500 (JString "Internal Server Error"))
      else None
  | Blocked => None
  end.

(** ** [app/core/engine.py] *)

Module Engine.

(** [self.prompt] *)
Definition self_prompt : string :=
  "<image>" +:+ String "010" "<|grounding|>Convert the document to markdown.".

(** [DeepSeekOCR.infer] *)
Definition infer (image_pth : string) : prog string :=
  do CudaEmptyCache ;;;
  with_TemporaryDirectory (fun tmpdir =>
    call (ModelInfer {|
      prompt := self_prompt;
      image_file := image_pth;
      output_path := tmpdir;
      base_size := 1024;
      image_size := 640;
      crop_mode := true;
      save_results := true;
      test_compress := true;
    |}) ;;;
    do CudaEmptyCache ;;;
    content <- call (OpenRead tmpdir "result.mmd") ;;
    Ret content).

End Engine.

(** ** [app/api/routes-tesseract.py] *)

Module Tesseract.

Record OCRJsonRequest := {
  base64_string : string;
  language : string;
}.

Section Routes.
Context (L : libs) (Language : enum).

Definition root : prog response :=
  Ret (JSONResponse 200
         (JDict [("message", JString "Tesseract OCR Service is running!")])).

Definition file_to_base64 (file : UploadFile) : prog response :=
  base64_string <-
    try_except
      (file_data <- call (UploadRead file) ;;
       Ret (b64encode file_data))
      (fun e =>
         if is_Exception e
         then Some (Throw (HTTPException 400
                             (JString "Could not process the uploaded file.")))
         else None) ;;
  Ret (JSONResponse 200
         (JDict [("filename", opt_str (filename file));
                 ("base64_string", JString base64_string)])).

(** [language: Language = Form(Language.Farsi)]: the member bound to the
    form field, [Language.Farsi] when the field is absent.  (A class body
    without [Farsi] fails when the module is imported; here the handler
    raises.) *)
Definition Form_language (field : option member) : prog member :=
  match field with
  | Some m => Ret m
  | None =>
      match enum_attr Language "Farsi" with
      | Some m => Ret m
      | None => Throw (PyErr (OtherException "AttributeError") "Farsi")
      end
  end.

Definition perform_ocr (file : UploadFile) (language : option member) : prog response :=
  language <- Form_language language ;;
  image <-
    try_except
      (image_data <- call (UploadRead file) ;;
       image <- call (ImageOpen image_data) ;;
       Ret image)
      (fun e =>
         if is_Exception e
         then Some (Throw (HTTPException 400
                             (JDict [("message", JString "Could not process the uploaded file.");
                                     ("error", JString (str L e))])))
         else None) ;;
  extracted_text <-
    try_except
      (call (ImageToString image (value language)))
      (fun e =>
         if is_Exception e
         then Some (Throw (HTTPException 500
                             (JDict [("message", JString "Error during OCR");
                                     ("error", JString (str L e))])))
         else None) ;;
  Ret (JSONResponse 200
         (JDict [("language", JString (name language));
                 ("extracted_text", JString extracted_text)])).

Definition perform_ocr_base46 (base64_string : string) (language : option member)
    : prog response :=
  language <- Form_language language ;;
  image <-
    try_except
      (image_data <- call (B64decode base64_string) ;;
       image <- call (ImageOpen image_data) ;;
       Ret image)
      (fun e =>
         if is_Exception e
         then Some (Throw (HTTPException 400
                             (JDict [("message", JString "Could not process the base64 string.");
                                     ("error", JString (str L e))])))
         else None) ;;
  extracted_text <-
    try_except
      (call (ImageToString image (value language)))
      (fun e =>
         if is_Exception e
         then Some (Throw (HTTPException 500
                             (JDict [("message", JString "Error during OCR");
                                     ("error", JString (str L e))])))
         else None) ;;
  Ret (JSONResponse 200
         (JDict [("language", JString (name language));
                 ("extracted_text", JString extracted_text)])).

Definition perform_ocr_base64_json (request : OCRJsonRequest) : prog response :=
  let base64_string := base64_string request in
  let ocr_language := language request in
  let allowed_langs : gset string := list_to_set (value <$> enum_iter Language) in
  match enum_call Language ocr_language with
  | None =>
      Throw (HTTPException 422
               (JDict [("invalid language entry", JString ocr_language);
                       ("allowed languages", JList (JString <$> sorted allowed_langs))]))
  | Some _ =>
      image <-
        try_except
          (image_data <- call (B64decode base64_string) ;;
           image <- call (ImageOpen image_data) ;;
           Ret image)
          (fun e =>
             if is_Exception e
             then Some (Throw (HTTPException 400
                                 (JDict [("message", JString "Could not process the base64 string.");
                                         ("error", JString (str L e))])))
             else None) ;;
      extracted_text <-
        try_except
          (call (ImageToString image ocr_language))
          (fun e =>
             if is_Exception e
             then Some (Throw (HTTPException 500
                                 (JDict [("message", JString "Error during OCR");
                                         ("error", JString (str L e))])))
             else None) ;;
      match enum_call Language ocr_language with
      | Some m =>
          Ret (JSONResponse 200
                 (JDict [("language", JString (name m));
                         ("extracted_text", JString extracted_text)]))
      | None =>
          Throw (PyErr ValueError ("'" +:+ ocr_language +:+ "' is not a valid Language"))
      end
  end.

Definition get_supported_languages : prog response :=
  Ret (JSONResponse 200
         (JDict [("supported_languages",
                  JDict ((fun lang => (name lang, JString (value lang)))
                           <$> enum_iter Language))])).

(** The routes of the application. *)
Inductive request :=
  | GET_root
  | POST_file_to_base64 (file : UploadFile)
  | POST_ocr (file : UploadFile) (language : option member)
  | POST_ocr_base64 (base64_string : string) (language : option member)
  | POST_ocr_base64_json (body : OCRJsonRequest)
  | GET_get_supported_languages.

Definition app (r : request) : prog response :=
  match r with
  | GET_root => root
  | POST_file_to_base64 file => file_to_base64 file
  | POST_ocr file language => perform_ocr file language
  | POST_ocr_base64 s language => perform_ocr_base46 s language
  | POST_ocr_base64_json body => perform_ocr_base64_json body
  | GET_get_supported_languages => get_supported_languages
  end.

End Routes.
End Tesseract.

(** ** [app/api/routes-deepseek.py] *)

Module DeepSeek.

Record OCRJsonRequestD := {
  base64_string : string;
}.

(** [f".{image.format.lower()}" if image.format else ""] *)
Definition suffix_of (image : image) : string :=
  match format image with
  | Some (String c f) => "." +:+ lower (String c f)
  | Some EmptyString => ""
  | None => ""
  end.

Section Routes.
Context (L : libs).

Definition root : prog response :=
  Ret (JSONResponse 200
         (JDict [("message", JString "DeepSeek OCR Service is running!")])).

Definition file_to_base64 (file : UploadFile) : prog response :=
  base64_string <-
    try_except
      (file_data <- call (UploadRead file) ;;
       Ret (b64encode file_data))
      (fun e =>
         if is_Exception e
         then Some (Throw (HTTPException 400
                             (JString "Could not process the uploaded file.")))
         else None) ;;
  Ret (JSONResponse 200
         (JDict [("filename", opt_str (filename file));
                 ("base64_string", JString base64_string)])).

(** The two [except] clauses of the image checks, the same in the three
    OCR handlers. *)
Definition except_image (e : exn) : option (prog (bytes * string)) :=
  if is_UnidentifiedImageError e
  then Some (Throw (HTTPException 400 (JString "Invalid image file")))
  else if is_Exception e
  then Some (Throw (HTTPException 400
                      (JDict [("message", JString "Could not process the uploaded file.");
                              ("error", JString (str L e))])))
  else None.

(** The [with tempfile.NamedTemporaryFile(...)] block and the response after
    it, the same in the three OCR handlers. *)
Definition stage_and_infer (image_data : bytes) (suffix : string) : prog response :=
  res <-
    with_NamedTemporaryFile suffix (fun tmp =>
      call (TmpWrite tmp image_data) ;;;
      try_except
        (async_with_lock
           (res <- to_thread (Engine.infer tmp) ;;
            Ret res))
        (fun e =>
           if is_Exception e
           then Some (Throw (HTTPException 500
                               (JDict [("message", JString "Error during OCR");
                                       ("error", JString (str L e))])))
           else None)) ;;
  Ret (JSONResponse 200 (JDict [("extracted_text", JString res)])).

Definition perform_ocr (file : UploadFile) : prog response :=
  checked <-
    try_except
      (image_data <- call (UploadRead file) ;;
       image <- call (ImageOpen image_data) ;;
       call (ImageVerify image) ;;;
       Ret (image_data, suffix_of image))
      except_image ;;
  stage_and_infer checked.1 checked.2.

Definition perform_ocr_base46 (base64_string : string) : prog response :=
  checked <-
    try_except
      (image_data <- call (B64decode base64_string) ;;
       image <- call (ImageOpen image_data) ;;
       call (ImageVerify image) ;;;
       Ret (image_data, suffix_of image))
      except_image ;;
  stage_and_infer checked.1 checked.2.

Definition perform_ocr_base64_json (request : OCRJsonRequestD) : prog response :=
  let base64_string := base64_string request in
  checked <-
    try_except
      (image_data <- call (B64decode base64_string) ;;
       image <- call (ImageOpen image_data) ;;
       call (ImageVerify image) ;;;
       Ret (image_data, suffix_of image))
      except_image ;;
  stage_and_infer checked.1 checked.2.

(** The routes of the application. *)
Inductive request :=
  | GET_root
  | POST_file_to_base64 (file : UploadFile)
  | POST_ocr (file : UploadFile)
  | POST_ocr_base64 (base64_string : string)
  | POST_ocr_base64_json (body : OCRJsonRequestD).

Definition app (r : request) : prog response :=
  match r with
  | GET_root => root
  | POST_file_to_base64 file => file_to_base64 file
  | POST_ocr file => perform_ocr file
  | POST_ocr_base64 s => perform_ocr_base46 s
  | POST_ocr_base64_json body => perform_ocr_base64_json body
  end.

End Routes.
End DeepSeek.

(** ** Properties of programs used in the proofs *)

(** [keeps k w w']: outside the entries [k] the temporary directory is the
    same in [w'] as in [w], and the lock is in the same state. *)
Definition keeps (k : list string) (w w' : world) : Prop :=
  (forall p, p ∉ k -> disk w' !! p = disk w !! p) /\ locked w' = locked w.

(** [hung L w]: a handler stays suspended with the lock in its hands: the
    last thing that happened is that the future it awaits was handed the
    [StopIteration] of its inference, and refused it. *)
Definition hung (L : libs) (w : world) : Prop :=
  locked w = true /\
  exists e, last (log w) = Some (EvSetException e) /\
            is_StopIteration e = true /\ Future_StopIteration L = None.

(** For a program that does not wait at all. *)
Definition nowhere (w : world) : Prop := False.

(** [tidy L stuck b k p]: a run of [p] that comes to an end keeps everything
    outside [k]; a run that does not, started with the lock in state [b],
    stops in a world that is [stuck]. *)
Definition tidy (L : libs) (stuck : world -> Prop) (b : bool) (k : list string)
    {A} (p : prog A) : Prop :=
  forall w,
    match (run L p w).1 with
    | Blocked => locked w = b -> stuck (run L p w).2
    | _ => keeps k w (run L p w).2
    end.

(** An effect that leaves the directory and the lock alone. *)
Definition inert (L : libs) {X} (o : eff X) : Prop :=
  forall w, exists x w',
    perform L o w = Some (x, w') /\ disk w' = disk w /\ locked w' = locked w.

(** *** Protocols

    A protocol says, from the state a handler is in, which effects it may
    perform and the state each result leads to. *)
Definition protocol (S : Type) : Type := forall X, eff X -> S -> option (X -> S).

(** [obeys P p s final]: from state [s], every run of [p] keeps to the
    protocol [P] and ends, returning or raising, in state [final]. *)
Fixpoint obeys {S} (P : protocol S) {A} (p : prog A) (s final : S) : Prop :=
  match p with
  | Ret _ => s = final
  | Throw _ => s = final
  | Vis o k =>
      match P _ o s with
      | Some next => forall x, obeys P (k x) (next x) final
      | None => False
      end
  end.

(** An effect the protocol does not care about. *)
Definition plain {S} (P : protocol S) {X} (o : eff X) : Prop :=
  forall s, P X o s = Some (fun _ => s).

(** *** The locking protocol of a handler

    Where a handler stands with respect to [model_lock] and the worker
    thread of [asyncio.to_thread]. *)
Inductive phase :=
  | Idle        (* not holding the lock *)
  | Holding     (* holding the lock, no inference in progress *)
  | Inferring.  (* holding the lock, its inference in progress *)

(** The phase after an effect; [None] when the effect is not allowed in
    this phase (taking the lock twice, inferring without the lock, ...). *)
Definition next_phase {X} (o : eff X) (ph : phase) : option phase :=
  match o, ph with
  | LockAcquire, Idle => Some Holding
  | LockAcquire, _ => None
  | LockRelease, Holding => Some Idle
  | LockRelease, _ => None
  | ThreadEnter, Holding => Some Inferring
  | ThreadEnter, _ => None
  | ThreadExit, Inferring => Some Holding
  | ThreadExit, _ => None
  | Suspended, Holding => Some Holding
  | Suspended, _ => None
  | _, _ => Some ph
  end.

Definition lock_protocol : protocol phase :=
  fun X o ph => (fun ph' (_ : X) => ph') <$> next_phase o ph.

(** *** The scratch protocol of a handler

    The state is the stack of temporary entries the handler has created and
    not yet removed: only those may be written, and they are removed in
    the reverse order of their creation. *)
Definition push_created (own : list string) (r : result string) : list string :=
  match r with
  | Ok t => t :: own
  | Err _ => own
  end.

Definition pop_entry {X} (t : string) (own : list string) : option (X -> list string) :=
  match own with
  | t' :: own' => if decide (t = t') then Some (fun _ => own') else None
  | [] => None
  end.

Definition touch_entry {X} (t : string) (own : list string) : option (X -> list string) :=
  if decide (t ∈ own) then Some (fun _ => own) else None.

Definition scratch_protocol : protocol (list string) :=
  fun X o =>
    match o in eff X return list string -> option (X -> list string) with
    | NamedTemporaryFile _ => fun own => Some (push_created own)
    | TemporaryDirectory => fun own => Some (push_created own)
    | TmpClose t => pop_entry t
    | TmpCleanup t => pop_entry t
    | TmpWrite t _ => touch_entry t
    | ModelInfer args => touch_entry (output_path args)
    | _ => fun own => Some (fun _ => own)
    end.

Definition holding (ph : phase) : nat :=
  match ph with Idle => 0 | _ => 1 end.

Definition inferring (ph : phase) : nat :=
  match ph with Inferring => 1 | _ => 0 end.

Definition lock_count (w : world) : nat := if locked w then 1%nat else 0%nat.

(** The invariant of a pool: every handler follows the protocol from some
    phase; the lock is taken exactly when one handler holds it; [running]
    counts the handlers whose inference is in progress. *)
Definition pool_inv (s : pool) : Prop :=
  exists phs : list phase,
    Forall2 (fun p ph => obeys lock_protocol p ph Idle) s.2 phs /\
    sum_list_with holding phs = lock_count s.1 /\
    sum_list_with inferring phs = running s.1.

(** The effect a handler is about to perform. *)
Definition next_event {A} (p : prog A) : option event :=
  match p with
  | Vis o _ => Some (event_of o)
  | _ => None
  end.

Definition finished {A} (p : prog A) : Prop :=
  match p with
  | Vis _ _ => False
  | _ => True
  end.

(** The requests that reach the transformer service. *)
Definition deepseek_requests (L : libs) (p : prog response) : Prop :=
  exists r, p = DeepSeek.app L r.

(** The requests that reach either service (they may share a temporary
    directory). *)
Definition all_requests (L : libs) (Language : enum) (p : prog response) : Prop :=
  (exists r, p = Tesseract.app L Language r) \/ (exists r, p = DeepSeek.app L r).

(** The invariant of a pool over the temporary directory it started with:
    the entries the handlers have created and not yet removed are theirs
    alone, exist, and are new; everything else is as it was. *)
Definition scratch_inv (d0 : gmap string node) (s : pool) : Prop :=
  exists owns : list (list string),
    Forall2 (fun p own => obeys scratch_protocol p own []) s.2 owns /\
    (forall i own, owns !! i = Some own -> NoDup own) /\
    (forall i j own_i own_j key,
       owns !! i = Some own_i -> owns !! j = Some own_j ->
       key ∈ own_i -> key ∈ own_j -> i = j) /\
    (forall i own key,
       owns !! i = Some own -> key ∈ own ->
       d0 !! key = None /\ is_Some (disk s.1 !! key)) /\
    (forall key,
       (forall i own, owns !! i = Some own -> key ∉ own) ->
       disk s.1 !! key = d0 !! key).

(** *** Reading the log *)

Definition is_purge (ev : event) : bool :=
  match ev with
  | EvCudaEmptyCache => true
  | _ => false
  end.

Definition is_model_call (ev : event) : bool :=
  match ev with
  | EvModelInfer _ => true
  | _ => false
  end.

(** A purge is logged before / after position [i]. *)
Definition purged_before (evs : list event) (i : nat) : bool :=
  existsb is_purge (take i evs).

Definition purged_after (evs : list event) (i : nat) : bool :=
  existsb is_purge (drop (S i) evs).

(** The effect logged at position [i] came back without an exception. *)
Definition came_back (evs : list event) (i : nat) : bool :=
  match evs !! S i with
  | Some (EvRaised _) => false
  | _ => true
  end.

(** The exception of the last effect that raised. *)
Definition last_raised (evs : list event) : option exn :=
  last (omap (fun ev => match ev with EvRaised e => Some e | _ => None end) evs).

(** *** The three input shapes of the OCR routes *)

Inductive shape :=
  | Upload (file : UploadFile)            (* [POST /ocr] *)
  | FormField (base64_string : string)    (* [POST /ocr_base64] *)
  | JsonBody (base64_string : string).    (* [POST /ocr_base64_json] *)

(** The byte buffer a request submits. *)
Definition buffer (s : shape) : result bytes :=
  match s with
  | Upload file => read file
  | FormField b => b64decode b
  | JsonBody b => b64decode b
  end.

(** The effect that fetches it. *)
Definition fetch_event (s : shape) : event :=
  match s with
  | Upload _ => EvUploadRead
  | FormField b => EvB64decode b
  | JsonBody b => EvB64decode b
  end.

(** The OCR routes of the two services, on a shape (and a language). *)
Definition tesseract_ocr (L : libs) (Language : enum) (s : shape) (lang : member)
    : prog response :=
  match s with
  | Upload file => Tesseract.perform_ocr L Language file (Some lang)
  | FormField b => Tesseract.perform_ocr_base46 L Language b (Some lang)
  | JsonBody b =>
      Tesseract.perform_ocr_base64_json L Language
        {| Tesseract.base64_string := b; Tesseract.language := value lang |}
  end.

Definition deepseek_ocr (L : libs) (s : shape) : prog response :=
  match s with
  | Upload file => DeepSeek.perform_ocr L file
  | FormField b => DeepSeek.perform_ocr_base46 L b
  | JsonBody b => DeepSeek.perform_ocr_base64_json L {| DeepSeek.base64_string := b |}
  end.

Definition is_engine_call (ev : event) : bool :=
  match ev with
  | EvImageToString _ => true
  | EvModelInfer _ => true
  | _ => false
  end.

(** [Image.open] then [Image.load] succeed on the buffer. *)
Definition decodable (L : libs) (data : bytes) : bool :=
  match Image_open L data with
  | Ok im => match Image_load L im with Ok _ => true | Err _ => false end
  | Err _ => false
  end.

(** *** Stand-ins for the libraries, for concrete runs

    A toy image format: three magic bytes make a header that [Image.open]
    accepts; the pixel data after it is read only by [Image.load], which the
    engines trigger. *)
Module Fake.

Definition magic : bytes := [xff; xd8; xff]%byte.

Definition truncated : exn := PyErr (OtherException "OSError") "image file is truncated".

Definition load (im : image) : result unit :=
  if bool_decide (length (fp im) <= 3)%nat then Err truncated else Ok tt.

Definition lib : libs := {|
  Image_open data :=
    if bool_decide (take 3 data = magic)
    then Ok {| format := Some "JPEG"; fp := data |}
    else Err (PyErr UnidentifiedImageError "cannot identify image file");
  Image_verify im := Ok tt;
  Image_load := load;
  image_to_string im lang :=
    match load im with
    | Ok _ => Ok ("text in " +:+ lang)
    | Err e => Err e
    end;
  model_infer args data :=
    match data with
    | Some d =>
        if bool_decide (length d <= 3)%nat
        then {| written := ∅; outcome := Err truncated |}
        else {| written := {["result.mmd" := "# text"]}; outcome := Ok tt |}
    | None =>
        {| written := ∅; outcome := Err (PyErr FileNotFoundError "no such file") |}
    end;
  gettempdir := "/tmp";
  candidate_name n := pretty n;
  http_str s d := pretty s;
  utf_8_error s := "'utf-8' codec can't decode these bytes";
  Future_StopIteration := None;
|}.

Definition Language : enum := [Member "English" "eng"; Member "Farsi" "fas"].

(** A fresh process: empty temporary directory, lock free. *)
Definition boot : world := World ∅ 0 false 0 [].

Definition picture : bytes := magic ++ [x00; x01; x02; x03]%byte.

Definition upload (data : bytes) : UploadFile :=
  {| filename := Some "scan.jpg"; read := Ok data |}.

Definition unreadable : UploadFile :=
  {| filename := Some "scan.jpg";
     read := Err (PyErr (OtherException "OSError") "connection lost") |}.

End Fake.

(** A model that lets a [StopIteration] escape, as an exhausted iterator
    does; everything else as in [Fake]. *)
Module FakeStop.

Definition exhausted : exn := PyErr StopIteration "".

Definition lib : libs := {|
  Image_open := Image_open Fake.lib;
  Image_verify := Image_verify Fake.lib;
  Image_load := Image_load Fake.lib;
  image_to_string := image_to_string Fake.lib;
  model_infer args data := {| written := ∅; outcome := Err exhausted |};
  gettempdir := gettempdir Fake.lib;
  candidate_name := candidate_name Fake.lib;
  http_str := http_str Fake.lib;
  utf_8_error := utf_8_error Fake.lib;
  Future_StopIteration := None;
|}.

End FakeStop.

(** *** Handlers without state *)

(** The effects whose result is a function of their arguments alone. *)
Definition pure_effect {X} (o : eff X) : bool :=
  match o with
  | UploadRead _ | B64decode _ | ImageOpen _ | ImageVerify _ | ImageToString _ _ => true
  | _ => false
  end.

(** A program that performs such effects only. *)
Fixpoint stateless {A} (p : prog A) : Prop :=
  match p with
  | Ret _ => True
  | Throw _ => True
  | Vis o k => pure_effect o = true /\ forall x, stateless (k x)
  end.

(** *** Failure payloads *)

(** [{"message": msg, "error": str(e)}] *)
Definition wrapped (L : libs) (msg : string) (e : exn) : json :=
  JDict [("message", JString msg); ("error", JString (str L e))].

(** The handler answers 400 and no engine was called on the way. *)
Definition rejected_before_engine (L : libs) (p : prog response) (w : world) : Prop :=
  exists d evs,
    (run L p w).1 = Raised (HTTPException 400 d) /\
    (status <$> http_reply (run L p w).1) = Some 400 /\
    log (run L p w).2 = log w ++ evs /\
    forallb (fun ev => negb (is_engine_call ev)) evs = true.

(** ** Further definitions used in statements *)

(** The keyword arguments [DeepSeekOCR.infer] hands to [self.model.infer],
    for the image at [image_pth] and the output directory [tmpdir]. *)
Definition infer_call (image_pth tmpdir : string) : infer_args := {|
  prompt := Engine.self_prompt;
  image_file := image_pth;
  output_path := tmpdir;
  base_size := 1024;
  image_size := 640;
  crop_mode := true;
  save_results := true;
  test_compress := true;
|}.

(** What [DeepSeekOCR.infer] reads back when the model has left [files]
    in its output directory [tmpdir]. *)
Definition read_saved (L : libs) (files : gmap string string) (tmpdir : string)
    : result string :=
  match files !! "result.mmd" with
  | Some content => decode_text L content
  | None => Err (no_such_file tmpdir "result.mmd")
  end.

(** The 500 of the OCR routes: [{"message": "Error during OCR", "error": str(e)}]. *)
Definition ocr_error (L : libs) (e : exn) : exn :=
  HTTPException 500 (wrapped L "Error during OCR" e).

(** The image checks of a transformer handler end the request: the buffer
    cannot be fetched, or [Image.open] or [verify] raises. *)
Definition checks_fail (L : libs) (s : shape) : Prop :=
  match buffer s with
  | Err e => True
  | Ok data =>
      match Image_open L data with
      | Err e => True
      | Ok im => match Image_verify L im with Ok _ => False | Err e => True end
      end
  end.

(** The effects of [DeepSeekOCR.infer]: the purges, the model call and the
    handling of the output directory. *)
Definition engine_effect {X} (o : eff X) : bool :=
  match o with
  | CudaEmptyCache | ModelInfer _ | TemporaryDirectory | OpenRead _ _ | TmpCleanup _ => true
  | _ => false
  end.

(** The effects of a handler before and after its inference: fetching the
    buffer, the image checks, the staging of the temporary file. *)
Definition staging_effect {X} (o : eff X) : bool :=
  match o with
  | UploadRead _ | B64decode _ | ImageOpen _ | ImageVerify _ | ImageToString _ _
  | NamedTemporaryFile _ | TmpWrite _ _ | TmpClose _ => true
  | _ => false
  end.

(** Which effects a handler may perform in which phase. *)
Definition in_phase {X} (o : eff X) (ph : phase) : bool :=
  match ph with
  | Idle => negb (engine_effect o)
  | Holding => negb (engine_effect o) && negb (staging_effect o)
  | Inferring => negb (staging_effect o)
  end.

(** The locking protocol, with every effect held to its phase. *)
Definition engine_protocol : protocol phase :=
  fun X o ph => if in_phase o ph then lock_protocol X o ph else None.

(** The invariant of a pool under that protocol. *)
Definition engine_inv (s : pool) : Prop :=
  exists phs : list phase,
    Forall2 (fun p ph => obeys engine_protocol p ph Idle) s.2 phs /\
    sum_list_with holding phs = lock_count s.1 /\
    sum_list_with inferring phs = running s.1.

(** The steps of a transformer handler that no [try] covers: the creation,
    the writing and the closing of the staged file. *)
Definition outside_try (ev : event) : bool :=
  match ev with
  | EvNamedTemporaryFile _ | EvTmpWrite _ | EvTmpClose _ => true
  | _ => false
  end.

(** *** The future a handler awaits

    The state is the exception the future has refused, if any: a handler is
    suspended only after a refusal. *)
Definition await_protocol : protocol (option exn) :=
  fun X o =>
    match o in eff X return option exn -> option (X -> option exn) with
    | SetException e =>
        fun _ => Some (fun taken => match taken with Some _ => None | None => Some e end)
    | Suspended => fun st => match st with Some _ => Some (fun _ => st) | None => None end
    | _ => fun st => Some (fun _ => st)
    end.

(** The invariant of a pool under that protocol: what a handler holds as
    refused is an exception the future does refuse. *)
Definition await_inv (L : libs) (s : pool) : Prop :=
  exists sts : list (option exn),
    Forall2 (fun p st => obeys await_protocol p st None) s.2 sts /\
    forall i e, sts !! i = Some (Some e) -> set_exception L e = None.

(** Two worlds that differ in their logs only. *)
Definition same_state (w w' : world) : Prop :=
  disk w = disk w' /\ draws w = draws w' /\ locked w = locked w' /\ running w = running w'.

(** A character [base64.b64decode] skips: ASCII, outside the alphabet, not
    the pad. *)
Definition noise (c : ascii) : bool :=
  (nat_of_ascii c <? 128)%nat && negb (Ascii.eqb c Base64.BASE64_PAD) &&
  bool_decide (Base64.a2b c = None).

Fixpoint strip_noise (s : string) : string :=
  match s with
  | EmptyString => EmptyString
  | String c s' => if noise c then strip_noise s' else String c (strip_noise s')
  end.

(** The dictionary [{lang.name: lang.value for lang in Language}]. *)
Definition listing_of (E : enum) : list (string * json) :=
  (fun lang => (name lang, JString (value lang))) <$> enum_iter E.

(** *** More concrete runs *)
Module FakeRun.

(** What [Image.open] makes of [Fake.picture] and of a header without data. *)
Definition jpeg : image := {| format := Some "JPEG"; fp := Fake.picture |}.

Definition header_only : image := {| format := Some "JPEG"; fp := Fake.magic |}.

(** A process in which an inference is in progress elsewhere. *)
Definition busy : world := set_locked true Fake.boot.

(** The base64 text of [Fake.picture], wrapped over two lines, with a blank. *)
Definition wrapped_picture : string :=
  "/9j/" +:+ String "010" "AAEC Aw==".

End FakeRun.

(** A model whose output has the line ends of another platform, and one
    whose output is not utf-8; everything else as in [Fake]. *)
Module FakeText.

Definition two_lines : string :=
  "one" +:+ String "013" (String "010" ("two" +:+ String "013" "")).

Definition latin_1 : string := "caf" +:+ String (ascii_of_nat 233) "".

Definition lib (saved : string) : libs := {|
  Image_open := Image_open Fake.lib;
  Image_verify := Image_verify Fake.lib;
  Image_load := Image_load Fake.lib;
  image_to_string := image_to_string Fake.lib;
  model_infer args data := {| written := {["result.mmd" := saved]}; outcome := Ok tt |};
  gettempdir := gettempdir Fake.lib;
  candidate_name := candidate_name Fake.lib;
  http_str := http_str Fake.lib;
  utf_8_error := utf_8_error Fake.lib;
  Future_StopIteration := Future_StopIteration Fake.lib;
|}.

End FakeText.

Module FakeStuck.

(** A name generator that has run dry: every draw gives the same name. *)
Definition lib : libs := {|
  Image_open := Image_open Fake.lib;
  Image_verify := Image_verify Fake.lib;
  Image_load := Image_load Fake.lib;
  image_to_string := image_to_string Fake.lib;
  model_infer := model_infer Fake.lib;
  gettempdir := "/tmp";
  candidate_name n := "x";
  http_str := http_str Fake.lib;
  utf_8_error := utf_8_error Fake.lib;
  Future_StopIteration := Future_StopIteration Fake.lib;
|}.

(** A temporary directory in which that name is taken. *)
Definition full : world := World {["/tmp/tmpx.jpeg" := File []]} 0 false 0 [].

End FakeStuck.

Module FakeDisk.

(** A temporary directory that holds an image already. *)
Definition scanned : world :=
  World {["/tmp/scan.jpeg" := File Fake.picture]} 0 false 0 [].

End FakeDisk.

(** * Theorems *)

(** ** Bytes and base64 *)

Lemma byte_val_range b : 0 <= byte_val b < 256.
Proof. unfold byte_val. pose proof (Byte.to_N_bounded b). lia. Qed.

Lemma byte_of_eq z b : Z.land z 255 = byte_val b -> byte_of z = b.
Proof.
  intros E. unfold byte_of. rewrite E. unfold byte_val.
  by rewrite N2Z.id, Byte.of_to_N.
Qed.

Lemma lor_shiftl_add a b n :
  0 <= n -> 0 <= b < 2 ^ n -> Z.lor (Z.shiftl a n) b = a * 2 ^ n + b.
Proof.
  intros Hn Hb. rewrite <- Z.shiftl_mul_pow2 by lia.
  assert (Hd : Z.land (Z.shiftl a n) b = 0).
  { apply Z.bits_inj'. intros k Hk. rewrite Z.land_spec, Z.bits_0.
    destruct (Z.lt_ge_cases k n) as [Hlt|Hge].
    - rewrite Z.shiftl_spec_low by lia. reflexivity.
    - rewrite <- (Z.mod_small b (2 ^ n)) by lia.
      rewrite Z.mod_pow2_bits_high by lia. apply andb_false_r. }
  rewrite <- Z.lxor_lor by exact Hd. symmetry. apply Z.add_nocarry_lxor. exact Hd.
Qed.

Lemma land_low a n : 0 <= n -> Z.land a (Z.ones n) = a mod 2 ^ n.
Proof. intros. by apply Z.land_ones. Qed.

Ltac pow2 :=
  change (2 ^ 2) with 4 in *; change (2 ^ 4) with 16 in *;
  change (2 ^ 6) with 64 in *; change (2 ^ 8) with 256 in *.

(** Shifts and masks of small numbers, turned into [/], [mod], [*], [+]. *)
Ltac to_arith :=
  repeat first
    [ rewrite lor_shiftl_add;
      [ | lia | solve [to_arith; Z.div_mod_to_equations; lia] ]
    | progress change (Z.land ?a 3) with (Z.land a (Z.ones 2))
    | progress change (Z.land ?a 15) with (Z.land a (Z.ones 4))
    | progress change (Z.land ?a 63) with (Z.land a (Z.ones 6))
    | progress change (Z.land ?a 255) with (Z.land a (Z.ones 8))
    | rewrite land_low by lia
    | rewrite Z.shiftr_div_pow2 by lia
    | rewrite Z.shiftl_mul_pow2 by lia ];
  pow2.

Ltac sextets := intros; to_arith; Z.div_mod_to_equations; lia.

Module Base64Facts.
Import Base64.

Lemma table_index (P : nat -> Prop) :
  (forall n, (n < 64)%nat -> P n) -> forall i, 0 <= i < 64 -> P (Z.to_nat i).
Proof. intros H i Hi. apply H. lia. Qed.

Lemma a2b_b2a i : 0 <= i < 64 -> a2b (b2a i) = Some i.
Proof.
  intros Hi. rewrite <- (Z2Nat.id i) at 2 by lia. unfold b2a.
  revert i Hi. apply (table_index (fun n =>
    a2b (default BASE64_PAD (String.get n table_b2a_base64)) = Some (Z.of_nat n))).
  intros n Hn. do 64 (destruct n as [|n]; [reflexivity|]). lia.
Qed.

Lemma b2a_not_pad i : 0 <= i < 64 -> Ascii.eqb (b2a i) BASE64_PAD = false.
Proof.
  unfold b2a. revert i. apply (table_index (fun n =>
    Ascii.eqb (default BASE64_PAD (String.get n table_b2a_base64)) BASE64_PAD = false)).
  intros n Hn. do 64 (destruct n as [|n]; [reflexivity|]). lia.
Qed.

Lemma b2a_ascii i : (nat_of_ascii (b2a i) <? 128)%nat = true.
Proof.
  unfold b2a. generalize (Z.to_nat i). intros n.
  do 64 (destruct n as [|n]; [reflexivity|]). reflexivity.
Qed.

Lemma s1_range x : 0 <= x < 256 -> 0 <= Z.shiftr x 2 < 64.
Proof. sextets. Qed.
Lemma s2_range x y : 0 <= x < 256 -> 0 <= y < 256 ->
  0 <= Z.lor (Z.shiftl (Z.land x 3) 4) (Z.shiftr y 4) < 64.
Proof. sextets. Qed.
Lemma s3_range y z : 0 <= y < 256 -> 0 <= z < 256 ->
  0 <= Z.lor (Z.shiftl (Z.land y 15) 2) (Z.shiftr z 6) < 64.
Proof. sextets. Qed.
Lemma s4_range z : 0 <= z < 256 -> 0 <= Z.land z 63 < 64.
Proof. sextets. Qed.
Lemma pad2_range x : 0 <= x < 256 -> 0 <= Z.shiftl (Z.land x 3) 4 < 64.
Proof. sextets. Qed.
Lemma pad3_range y : 0 <= y < 256 -> 0 <= Z.shiftl (Z.land y 15) 2 < 64.
Proof. sextets. Qed.

Lemma out1 x y : 0 <= x < 256 -> 0 <= y < 256 ->
  Z.land (Z.lor (Z.shiftl (Z.shiftr x 2) 2)
            (Z.shiftr (Z.lor (Z.shiftl (Z.land x 3) 4) (Z.shiftr y 4)) 4)) 255 = x.
Proof. sextets. Qed.
Lemma out2 x y z : 0 <= x < 256 -> 0 <= y < 256 -> 0 <= z < 256 ->
  Z.land (Z.lor (Z.shiftl (Z.land (Z.lor (Z.shiftl (Z.land x 3) 4) (Z.shiftr y 4)) 15) 4)
            (Z.shiftr (Z.lor (Z.shiftl (Z.land y 15) 2) (Z.shiftr z 6)) 2)) 255 = y.
Proof. sextets. Qed.
Lemma out3 y z : 0 <= y < 256 -> 0 <= z < 256 ->
  Z.land (Z.lor (Z.shiftl (Z.land (Z.lor (Z.shiftl (Z.land y 15) 2) (Z.shiftr z 6)) 3) 6)
            (Z.land z 63)) 255 = z.
Proof. sextets. Qed.
Lemma out1_pad x : 0 <= x < 256 ->
  Z.land (Z.lor (Z.shiftl (Z.shiftr x 2) 2) (Z.shiftr (Z.shiftl (Z.land x 3) 4) 4)) 255 = x.
Proof. sextets. Qed.
Lemma out2_pad x y : 0 <= x < 256 -> 0 <= y < 256 ->
  Z.land (Z.lor (Z.shiftl (Z.land (Z.lor (Z.shiftl (Z.land x 3) 4) (Z.shiftr y 4)) 15) 4)
            (Z.shiftr (Z.shiftl (Z.land y 15) 2) 2)) 255 = y.
Proof. sextets. Qed.

(** Induction on a list, three elements at a time. *)
Lemma list_ind3 {A} (P : list A -> Prop) :
  P [] -> (forall x, P [x]) -> (forall x y, P [x; y]) ->
  (forall x y z l, P l -> P (x :: y :: z :: l)) -> forall l, P l.
Proof.
  intros H0 H1 H2 H3.
  refine (fix go l := match l with
                      | [] => H0
                      | [x] => H1 x
                      | [x; y] => H2 x y
                      | x :: y :: z :: l' => H3 x y z l' (go l')
                      end).
Qed.

(** The decoding loop on an alphabet character. *)
Lemma a2b_loop_sextet v rest st :
  0 <= v < 64 ->
  a2b_loop (String (b2a v) rest) st =
    match quad_pos st with
    | 0 => a2b_loop rest (A2B 1 v 0 (bin_data st))
    | 1 => a2b_loop rest
             (A2B 2 (Z.land v 15) 0
                (bin_data st ++ [byte_of (Z.lor (Z.shiftl (leftchar st) 2) (Z.shiftr v 4))]))
    | 2 => a2b_loop rest
             (A2B 3 (Z.land v 3) 0
                (bin_data st ++ [byte_of (Z.lor (Z.shiftl (leftchar st) 4) (Z.shiftr v 2))]))
    | _ => a2b_loop rest
             (A2B 0 0 0 (bin_data st ++ [byte_of (Z.lor (Z.shiftl (leftchar st) 6) v)]))
    end.
Proof.
  intros Hv. cbn [a2b_loop]. by rewrite b2a_not_pad, a2b_b2a.
Qed.

Ltac sextet_step :=
  rewrite a2b_loop_sextet
    by eauto using s1_range, s2_range, s3_range, s4_range, pad2_range, pad3_range;
  cbn [quad_pos bin_data leftchar].

Lemma a2b_loop_b2a data : forall out,
  a2b_loop (b2a_base64 data) (A2B 0 0 0 out) = inr (out ++ data).
Proof.
  induction data as [|x|x y|x y z data IH] using list_ind3; intros out.
  - by rewrite app_nil_r.
  - pose proof (byte_val_range x) as Hx.
    cbn [b2a_base64]. do 2 sextet_step.
    rewrite (byte_of_eq _ x) by (by apply out1_pad). reflexivity.
  - pose proof (byte_val_range x) as Hx. pose proof (byte_val_range y) as Hy.
    cbn [b2a_base64]. do 3 sextet_step.
    rewrite (byte_of_eq _ x) by (by apply out1).
    rewrite (byte_of_eq _ y) by (by apply out2_pad).
    cbn. by rewrite <- app_assoc.
  - pose proof (byte_val_range x) as Hx. pose proof (byte_val_range y) as Hy.
    pose proof (byte_val_range z) as Hz.
    cbn [b2a_base64]. do 4 sextet_step.
    rewrite (byte_of_eq _ x) by (by apply out1).
    rewrite (byte_of_eq _ y) by (by apply out2).
    rewrite (byte_of_eq _ z) by (by apply out3).
    rewrite IH. by rewrite <- !app_assoc.
Qed.

Lemma b2a_base64_ascii data : is_ascii (b2a_base64 data) = true.
Proof.
  unfold is_ascii.
  induction data as [|x|x y|x y z data IH] using list_ind3;
    cbn [b2a_base64 list_ascii_of_string forallb]; rewrite ?b2a_ascii; try done.
Qed.

Lemma b64decode_b64encode data : b64decode (b64encode data) = Ok data.
Proof.
  unfold b64decode, b64encode, a2b_base64.
  by rewrite b2a_base64_ascii, a2b_loop_b2a.
Qed.

(** The test vectors of RFC 4648, section 10. *)
Example rfc4648_vectors :
  b64encode [] = "" /\
  b64encode ["f"]%byte = "Zg==" /\
  b64encode ["f"; "o"]%byte = "Zm8=" /\
  b64encode ["f"; "o"; "o"]%byte = "Zm9v" /\
  b64encode ["f"; "o"; "o"; "b"]%byte = "Zm9vYg==" /\
  b64encode ["f"; "o"; "o"; "b"; "a"]%byte = "Zm9vYmE=" /\
  b64encode ["f"; "o"; "o"; "b"; "a"; "r"]%byte = "Zm9vYmFy" /\
  b64decode "Zm9vYmFy" = Ok ["f"; "o"; "o"; "b"; "a"; "r"]%byte /\
  b64decode "Zm9v YmE=" = Ok ["f"; "o"; "o"; "b"; "a"]%byte /\
  b64decode "Zm9vYmE" = Err (PyErr BinasciiError "Incorrect padding").
Proof. vm_compute. by repeat split. Qed.

End Base64Facts.

(** ** The sequential semantics, equationally *)

Section Run.
Context (L : libs).

Lemma exec_op_unfold {X} (o : eff X) w :
  exec_op L o w =
    match perform L o (emit (event_of o) w) with
    | Some (x, w') => Some (x, note_raised (raised o x) w')
    | None => None
    end.
Proof. reflexivity. Qed.

Lemma run_Vis {A X} (o : eff X) (k : X -> prog A) w :
  run L (Vis o k) w =
    match exec_op L o w with
    | Some (x, w') => run L (k x) w'
    | None => (Blocked, w)
    end.
Proof. reflexivity. Qed.

Lemma run_bind {A B} (p : prog A) (f : A -> prog B) w :
  run L (bind p f) w =
    match run L p w with
    | (Returned a, w') => run L (f a) w'
    | (Raised e, w') => (Raised e, w')
    | (Blocked, w') => (Blocked, w')
    end.
Proof.
  revert w. induction p as [a|e|X o k IH]; intros w; simpl; try done.
  destruct (exec_op L o w) as [[x w']|]; auto.
Qed.

Lemma run_try_except {A} (p : prog A) h w :
  run L (try_except p h) w =
    match run L p w with
    | (Raised e, w') =>
        match h e with
        | Some q => run L q w'
        | None => (Raised e, w')
        end
    | r => r
    end.
Proof.
  revert w. induction p as [a|e|X o k IH]; intros w; simpl; try done.
  - by destruct (h e).
  - destruct (exec_op L o w) as [[x w']|]; auto.
Qed.

Lemma run_try_finally {A} (p : prog A) fin w :
  run L (try_finally p fin) w =
    match run L p w with
    | (Returned a, w') =>
        match run L fin w' with
        | (Returned _, w'') => (Returned a, w'')
        | (Raised e, w'') => (Raised e, w'')
        | (Blocked, w'') => (Blocked, w'')
        end
    | (Raised e, w') =>
        match run L fin w' with
        | (Returned _, w'') => (Raised e, w'')
        | (Raised e', w'') => (Raised e', w'')
        | (Blocked, w'') => (Blocked, w'')
        end
    | (Blocked, w') => (Blocked, w')
    end.
Proof.
  revert w. induction p as [a|e|X o k IH]; intros w; simpl.
  - rewrite run_bind. by destruct (run L fin w) as [[]].
  - rewrite run_bind. by destruct (run L fin w) as [[]].
  - destruct (exec_op L o w) as [[x w']|]; auto.
Qed.

Lemma run_call {X} (o : eff (result X)) w :
  run L (call o) w =
    match exec_op L o w with
    | Some (Ok x, w') => (Returned x, w')
    | Some (Err e, w') => (Raised e, w')
    | None => (Blocked, w)
    end.
Proof. simpl. by destruct (exec_op L o w) as [[[] ?]|]. Qed.

Lemma run_do {X} (o : eff X) w :
  run L (do o) w =
    match exec_op L o w with
    | Some (x, w') => (Returned x, w')
    | None => (Blocked, w)
    end.
Proof. simpl. by destruct (exec_op L o w) as [[]|]. Qed.

(** *** Temporary names *)

Lemma mkstemp_inner_free tries suffix d n name n' :
  mkstemp_inner L tries suffix d n = (Some name, n') -> d !! name = None.
Proof.
  revert n. induction tries as [|tries IH]; intros n; simpl; [done|].
  case_bool_decide; [|by apply IH]. by intros [= <- _].
Qed.

Lemma create_spec kind suffix entry w :
  match create L kind suffix entry w with
  | (Ok name, w') =>
      disk w !! name = None /\ disk w' = <[name := entry]> (disk w)
  | (Err e, w') => disk w' = disk w
  end /\
  locked (create L kind suffix entry w).2 = locked w /\
  running (create L kind suffix entry w).2 = running w /\
  log (create L kind suffix entry w).2 = log w.
Proof.
  unfold create.
  destruct (mkstemp_inner L TMP_MAX suffix (disk w) (draws w)) as [[name|] n] eqn:E; simpl.
  - by apply mkstemp_inner_free in E.
  - done.
Qed.

(** What the worker thread keeps of its function. *)
Lemma run_attempt {A} (f : prog A) w :
  run L (attempt f) w =
    match run L f w with
    | (Returned a, w') => (Returned (Ok a), w')
    | (Raised e, w') => (Returned (Err e), w')
    | (Blocked, w') => (Blocked, w')
    end.
Proof.
  unfold attempt. rewrite run_try_except, run_bind.
  by destruct (run L f w) as [[a|e|] w'].
Qed.

End Run.

#[global] Arguments create : simpl never.
#[global] Arguments mkstemp_inner : simpl never.

(** ** Every handler tidies up *)

Section Tidy.
Context (L : libs) (stuck : world -> Prop).

Lemma keeps_refl k w : keeps k w w.
Proof. done. Qed.

Lemma keeps_trans k w1 w2 w3 : keeps k w1 w2 -> keeps k w2 w3 -> keeps k w1 w3.
Proof.
  intros [H1 H1'] [H2 H2']. split; [|congruence].
  intros p Hp. by rewrite H2, H1.
Qed.

Lemma keeps_mono k k' w w' : k ⊆ k' -> keeps k w w' -> keeps k' w w'.
Proof. intros Hk [Hd Hl]. split; [|done]. intros q Hq. apply Hd. set_solver. Qed.

Lemma keeps_nil_disk w w' : keeps [] w w' -> disk w' = disk w.
Proof. intros [H _]. apply map_eq. intros p. apply H. set_solver. Qed.

(** A program that waits nowhere runs to its end. *)
Lemma tidy_ends b k {A} (p : prog A) w :
  tidy L nowhere b k p -> locked w = b ->
  (run L p w).1 <> Blocked /\ keeps k w (run L p w).2.
Proof.
  intros Hp Hw. specialize (Hp w).
  destruct (run L p w) as [[a|e|] w']; simpl in *; [done..|]. destruct (Hp Hw).
Qed.

Lemma tidy_Ret b k {A} (a : A) : tidy L stuck b k (Ret a).
Proof. by intros w. Qed.

Lemma tidy_Throw b k {A} e : tidy L stuck b k (Throw e : prog A).
Proof. by intros w. Qed.

Lemma tidy_mono b k k' {A} (p : prog A) :
  k ⊆ k' -> tidy L stuck b k p -> tidy L stuck b k' p.
Proof.
  intros Hk Hp w. specialize (Hp w).
  destruct (run L p w) as [[a|e|] w']; simpl in *; [by eapply keeps_mono..|done].
Qed.

Lemma tidy_bind b k {A B} (p : prog A) (f : A -> prog B) :
  tidy L stuck b k p -> (forall a, tidy L stuck b k (f a)) -> tidy L stuck b k (bind p f).
Proof.
  intros Hp Hf w. rewrite run_bind. specialize (Hp w).
  destruct (run L p w) as [[a|e|] w']; simpl in *; [|done..].
  specialize (Hf a w').
  destruct (run L (f a) w') as [[c|e|] w'']; simpl in *; [by eapply keeps_trans..|].
  intros Hw. apply Hf. destruct Hp. congruence.
Qed.

Lemma tidy_try_except b k {A} (p : prog A) h :
  tidy L stuck b k p -> (forall e q, h e = Some q -> tidy L stuck b k q) ->
  tidy L stuck b k (try_except p h).
Proof.
  intros Hp Hh w. rewrite run_try_except. specialize (Hp w).
  destruct (run L p w) as [[a|e|] w']; simpl in *; [done| |done].
  destruct (h e) as [q|] eqn:E; [|done].
  specialize (Hh e q E w').
  destruct (run L q w') as [[c|e'|] w'']; simpl in *; [by eapply keeps_trans..|].
  intros Hw. apply Hh. destruct Hp. congruence.
Qed.

Lemma tidy_try_finally b k {A} (p : prog A) fin :
  tidy L stuck b k p -> tidy L stuck b k fin -> tidy L stuck b k (try_finally p fin).
Proof.
  intros Hp Hf w. rewrite run_try_finally. specialize (Hp w).
  destruct (run L p w) as [[a|e|] w']; simpl in *; [| |done].
  all: specialize (Hf w').
  all: destruct (run L fin w') as [[?|?|] w'']; simpl in *; [by eapply keeps_trans..|].
  all: intros Hw; apply Hf; destruct Hp; congruence.
Qed.

Lemma tidy_attempt b k {A} (f : prog A) :
  tidy L stuck b k f -> tidy L stuck b k (attempt f).
Proof.
  intros Hf w. rewrite run_attempt. specialize (Hf w).
  by destruct (run L f w) as [[a|e|] w'].
Qed.

End Tidy.

Section TidyEffects.
Context (L : libs).

Lemma disk_note_raised e w : disk (note_raised e w) = disk w.
Proof. by destruct e. Qed.

Lemma locked_note_raised e w : locked (note_raised e w) = locked w.
Proof. by destruct e. Qed.

Lemma running_note_raised e w : running (note_raised e w) = running w.
Proof. by destruct e. Qed.

End TidyEffects.

Section TidyEffectsIn.
Context (L : libs) (stuck : world -> Prop).

Lemma tidy_inert b k {X} (o : eff X) {A} (f : X -> prog A) :
  inert L o -> (forall x, tidy L stuck b k (f x)) -> tidy L stuck b k (Vis o f).
Proof.
  intros Ho Hf w. simpl. unfold exec_op.
  destruct (Ho (emit (event_of o) w)) as (x & w' & -> & Hd & Hl).
  specialize (Hf x (note_raised (raised o x) w')).
  assert (Hl' : locked (note_raised (raised o x) w') = locked w)
    by (by rewrite locked_note_raised, Hl).
  destruct (run L (f x) _) as [[a|e|] w'']; simpl in *; [| |by rewrite <- Hl'].
  all: destruct Hf as [Hk Hk']; split; [|by rewrite Hk'].
  all: intros p Hp; rewrite Hk by done; by rewrite disk_note_raised, Hd.
Qed.

Lemma tidy_call b k {X} (o : eff (result X)) : inert L o -> tidy L stuck b k (call o).
Proof.
  intros Ho. apply tidy_inert; [done|]. intros [x|e]; [apply tidy_Ret|apply tidy_Throw].
Qed.

Lemma tidy_do b k {X} (o : eff X) : inert L o -> tidy L stuck b k (do o).
Proof. intros Ho. apply tidy_inert; [done|]. intros x. apply tidy_Ret. Qed.

Lemma inert_UploadRead file : inert L (UploadRead file).
Proof. intros w. by eexists _, _. Qed.
Lemma inert_B64decode s : inert L (B64decode s).
Proof. intros w. by eexists _, _. Qed.
Lemma inert_ImageOpen data : inert L (ImageOpen data).
Proof. intros w. by eexists _, _. Qed.
Lemma inert_ImageVerify im : inert L (ImageVerify im).
Proof. intros w. by eexists _, _. Qed.
Lemma inert_ImageToString im lang : inert L (ImageToString im lang).
Proof. intros w. by eexists _, _. Qed.
Lemma inert_CudaEmptyCache : inert L CudaEmptyCache.
Proof. intros w. by eexists _, _. Qed.
Lemma inert_OpenRead dir file : inert L (OpenRead dir file).
Proof. intros w. by eexists _, _. Qed.
Lemma inert_ThreadEnter : inert L ThreadEnter.
Proof. intros w. by eexists _, _. Qed.
Lemma inert_ThreadExit : inert L ThreadExit.
Proof. intros w. by eexists _, _. Qed.
Lemma inert_SetException e : inert L (SetException e).
Proof. intros w. by eexists _, _. Qed.

(** An effect that touches one entry of the directory. *)
Lemma tidy_TmpWrite b k tmp data : tmp ∈ k -> tidy L stuck b k (call (TmpWrite tmp data)).
Proof.
  intros Hin w. rewrite run_call. simpl. split; [|done].
  intros p Hp. simpl. apply lookup_alter_ne. set_solver.
Qed.

Lemma tidy_ModelInfer b k args :
  output_path args ∈ k -> tidy L stuck b k (call (ModelInfer args)).
Proof.
  intros Hin w. rewrite run_call. unfold exec_op. simpl.
  destruct (outcome _) as [[]|e]; simpl.
  all: split; [|done].
  all: intros p Hp; simpl; apply lookup_alter_ne; set_solver.
Qed.

(** A [with] block over a fresh entry gives the entry back. *)
Lemma tidy_scoped b k {A} (o : eff (result string)) (close : string -> eff unit)
    kind suffix entry (body : string -> prog A) :
  (forall w, perform L o w = Some (create L kind suffix entry w)) ->
  (forall t w, perform L (close t) w = Some (tt, set_disk (delete t) w)) ->
  (forall t, tidy L stuck b (t :: k) (body t)) ->
  tidy L stuck b k (t <- call o ;; try_finally (body t) (do (close t))).
Proof.
  intros Ho Hc Hb w. rewrite run_bind, run_call. unfold exec_op. rewrite Ho.
  pose proof (create_spec L kind suffix entry (emit (event_of o) w)) as (Hcr & Hl & _).
  destruct (create L kind suffix entry (emit (event_of o) w)) as [[t|e] w1]; simpl in *.
  - destruct Hcr as [Hfree Hd1].
    rewrite run_try_finally.
    specialize (Hb t (note_raised (raised o (Ok t)) w1)).
    assert (Hl' : locked (note_raised (raised o (Ok t)) w1) = locked w)
      by (by rewrite locked_note_raised, Hl).
    destruct (run L (body t) _) as [[a|e|] w2]; cbn [fst snd] in *;
      [| |by rewrite <- Hl'].
    all: destruct Hb as [Hk Hk']; rewrite Hl' in Hk'.
    all: rewrite run_do; unfold exec_op; rewrite Hc; cbn [fst snd].
    all: split; [|by rewrite locked_note_raised].
    all: intros p Hp; rewrite disk_note_raised; simpl.
    all: destruct (decide (p = t)) as [->|Hne];
      [by rewrite lookup_delete_eq, Hfree|].
    all: rewrite lookup_delete_ne by done; rewrite Hk by set_solver.
    all: rewrite disk_note_raised, Hd1; by rewrite lookup_insert_ne.
  - split; [|by rewrite locked_note_raised].
    intros p Hp. by rewrite disk_note_raised, Hcr.
Qed.

Lemma tidy_with_NamedTemporaryFile b k {A} suffix (body : string -> prog A) :
  (forall tmp, tidy L stuck b (tmp :: k) (body tmp)) ->
  tidy L stuck b k (with_NamedTemporaryFile suffix body).
Proof. intros Hb. by apply (tidy_scoped b k _ TmpClose "file" suffix (File [])). Qed.

Lemma tidy_with_TemporaryDirectory b k {A} (body : string -> prog A) :
  (forall tmpdir, tidy L stuck b (tmpdir :: k) (body tmpdir)) ->
  tidy L stuck b k (with_TemporaryDirectory body).
Proof. intros Hb. by apply (tidy_scoped b k _ TmpCleanup "directory" "" (Dir ∅)). Qed.

(** The lock is taken when free and given back at the end of the block,
    whether the block returns or raises; a block that does not end keeps
    it. *)
Lemma tidy_async_with_lock k {A} (body : prog A) :
  tidy L stuck true k body -> tidy L stuck false k (async_with_lock body).
Proof.
  intros Hb w. unfold async_with_lock. rewrite run_bind, run_do.
  unfold exec_op. simpl. destruct (locked w) eqn:Hw; simpl; [done|].
  rewrite run_try_finally.
  specialize (Hb (set_locked true (emit EvLockAcquire w))). simpl in Hb.
  destruct (run L body _) as [[a|e|] w2]; cbn [fst snd] in *; [| |by intros _; apply Hb].
  all: destruct Hb as [Hk Hk'].
  all: rewrite run_call; unfold exec_op; simpl; rewrite Hk'; simpl.
  all: split; [|by rewrite Hw].
  all: intros p Hp; simpl; by rewrite Hk.
Qed.

(** [DeepSeekOCR.infer] removes its scratch directory on every path. *)
Lemma tidy_infer b k image_pth : tidy L stuck b k (Engine.infer image_pth).
Proof.
  unfold Engine.infer. apply tidy_bind; [apply tidy_do, inert_CudaEmptyCache|].
  intros _. apply tidy_with_TemporaryDirectory. intros tmpdir.
  apply tidy_bind; [apply tidy_ModelInfer; set_solver|]. intros _.
  apply tidy_bind; [apply tidy_do, inert_CudaEmptyCache|]. intros _.
  apply tidy_bind; [apply tidy_call, inert_OpenRead|]. intros content.
  apply tidy_Ret.
Qed.

End TidyEffectsIn.

Section TidyThread.
Context (L : libs).

(** A handler that awaits its inference under the lock goes on when the
    inference is over, unless the future refuses the exception: then it
    stays where it is, with the lock. *)
Lemma tidy_to_thread k {A} (f : prog A) :
  tidy L (hung L) true k f -> tidy L (hung L) true k (to_thread f).
Proof.
  intros Hf. unfold to_thread. apply tidy_bind; [apply tidy_do, inert_ThreadEnter|].
  intros _. apply tidy_bind; [by apply tidy_attempt|]. intros [a|e].
  - apply tidy_bind; [apply tidy_do, inert_ThreadExit|]. intros _. apply tidy_Ret.
  - apply tidy_bind; [apply tidy_do, inert_ThreadExit|]. intros _.
    intros w. rewrite run_bind, run_do. rewrite exec_op_unfold.
    cbn [perform event_of raised fst snd].
    unfold set_exception.
    destruct (is_StopIteration e) eqn:He; [destruct (Future_StopIteration L) eqn:Hf'|].
    + cbn. by destruct w.
    + unfold suspended. rewrite run_Vis, exec_op_unfold. cbn. intros Hw. split; [done|].
      exists e. simpl. by rewrite last_snoc.
    + cbn. by destruct w.
Qed.

End TidyThread.

Section TidyHandlers.
Context (L : libs).

Create HintDb tidy.
Hint Resolve tidy_Ret tidy_Throw inert_UploadRead inert_B64decode inert_ImageOpen
  inert_ImageVerify inert_ImageToString : tidy.

Ltac tidy_step :=
  first
    [ apply tidy_Ret | apply tidy_Throw
    | apply tidy_call; solve [auto with tidy]
    | apply tidy_bind; [|intros ?]
    | apply tidy_try_except; [|intros ? ? ?; repeat case_match; simplify_eq] ].

Lemma tidy_stage_and_infer image_data suffix :
  tidy L (hung L) false [] (DeepSeek.stage_and_infer L image_data suffix).
Proof.
  unfold DeepSeek.stage_and_infer.
  apply tidy_bind; [|intros ?; apply tidy_Ret].
  apply tidy_with_NamedTemporaryFile. intros tmp.
  apply tidy_bind; [apply tidy_TmpWrite; set_solver|]. intros _.
  apply tidy_try_except.
  - apply tidy_async_with_lock.
    apply tidy_bind; [|intros ?; apply tidy_Ret].
    apply tidy_to_thread, tidy_infer.
  - intros e q Hq. case_match; simplify_eq. apply tidy_Throw.
Qed.

(** A handler of the transformer service that comes to an end has given
    back the lock and removed what it created; one that found the lock
    free and does not come to an end is hung. *)
Lemma tidy_DeepSeek_app r : tidy L (hung L) false [] (DeepSeek.app L r).
Proof.
  destruct r as [|file|file|s|[s]]; simpl;
    unfold DeepSeek.root, DeepSeek.file_to_base64, DeepSeek.perform_ocr,
      DeepSeek.perform_ocr_base46, DeepSeek.perform_ocr_base64_json, DeepSeek.except_image.
  - apply tidy_Ret.
  - repeat tidy_step.
  - apply tidy_bind; [repeat tidy_step|]. intros ?. apply tidy_stage_and_infer.
  - apply tidy_bind; [repeat tidy_step|]. intros ?. apply tidy_stage_and_infer.
  - apply tidy_bind; [repeat tidy_step|]. intros ?. apply tidy_stage_and_infer.
Qed.

(** The handlers of the classical service wait nowhere. *)
Lemma tidy_Tesseract_app b (Language : enum) r :
  tidy L nowhere b [] (Tesseract.app L Language r).
Proof.
  destruct r as [|file|file lang|s lang|[s lang]|]; simpl;
    unfold Tesseract.root, Tesseract.file_to_base64, Tesseract.perform_ocr,
      Tesseract.perform_ocr_base46, Tesseract.perform_ocr_base64_json,
      Tesseract.get_supported_languages, Tesseract.Form_language.
  - apply tidy_Ret.
  - repeat tidy_step.
  - repeat (repeat tidy_step; repeat case_match).
  - repeat (repeat tidy_step; repeat case_match).
  - repeat (repeat tidy_step; repeat case_match).
  - apply tidy_Ret.
Qed.

End TidyHandlers.

(** ** Mutual exclusion of inferences *)

Section Protocols.
Context {S : Type} (P : protocol S).

Lemma obeys_bind {A B} (p : prog A) (f : A -> prog B) a b :
  obeys P p a b -> (forall x, obeys P (f x) b b) -> obeys P (bind p f) a b.
Proof.
  revert a. induction p as [x|e|X o k IH]; intros a Hp Hf; simpl in *.
  - by subst.
  - done.
  - destruct (P X o a) as [next|]; [|done]. intros x. by apply IH.
Qed.

Lemma obeys_try_except {A} (p : prog A) h a b :
  obeys P p a b -> (forall e q, h e = Some q -> obeys P q b b) ->
  obeys P (try_except p h) a b.
Proof.
  revert a. induction p as [x|e|X o k IH]; intros a Hp Hh; simpl in *.
  - done.
  - subst. destruct (h e) as [q|] eqn:E; [by eapply Hh|done].
  - destruct (P X o a) as [next|]; [|done]. intros x. by apply IH.
Qed.

Lemma obeys_try_finally {A} (p : prog A) fin a b c :
  obeys P p a b -> obeys P fin b c -> obeys P (try_finally p fin) a c.
Proof.
  revert a. induction p as [x|e|X o k IH]; intros a Hp Hf; simpl in *.
  - subst. by apply obeys_bind.
  - subst. by apply obeys_bind.
  - destruct (P X o a) as [next|]; [|done]. intros x. by apply IH.
Qed.

Lemma obeys_call {X} (o : eff (result X)) a : plain P o -> obeys P (call o) a a.
Proof. intros Ho. simpl. rewrite Ho. by intros []. Qed.

Lemma obeys_do {X} (o : eff X) a : plain P o -> obeys P (do o) a a.
Proof. intros Ho. simpl. by rewrite Ho. Qed.

(** What the worker thread keeps of its function never raises. *)
Lemma obeys_attempt_bind {A B} (f : prog A) (k : result A -> prog B) a b c :
  obeys P f a b -> (forall r, obeys P (k r) b c) ->
  obeys P (r <- attempt f ;; k r) a c.
Proof.
  revert a. induction f as [x|e|X o g IH]; intros a Hf Hk; simpl in *.
  - subst. apply Hk.
  - subst. apply Hk.
  - destruct (P X o a) as [next|]; [|done]. intros x. by apply IH.
Qed.

Lemma obeys_to_thread {A} (f : prog A) a b :
  P _ ThreadEnter a = Some (fun _ => b) ->
  P _ ThreadExit b = Some (fun _ => a) ->
  (forall e, P _ (SetException e) a = Some (fun _ => a)) ->
  is_Some (P _ Suspended a) ->
  obeys P f b b -> obeys P (to_thread f) a a.
Proof.
  intros Henter Hexit Hset [next Hsusp] Hf. unfold to_thread.
  cbn [bind do]. cbn [obeys]. rewrite Henter. intros _.
  apply obeys_attempt_bind with b; [done|]. intros r.
  cbn [bind do]. cbn [obeys]. rewrite Hexit. intros _.
  destruct r as [x|e]; [done|].
  cbn [bind do]. cbn [obeys]. rewrite Hset. intros [e'|]; [done|].
  unfold suspended. cbn [obeys]. rewrite Hsusp. by intros [].
Qed.

End Protocols.

Ltac obeys_step :=
  first
    [ progress (simpl obeys; intros); done
    | apply obeys_call; done
    | apply obeys_do; done
    | apply obeys_bind; [|intros ?]
    | apply obeys_try_except; [|intros ? ? ?; repeat case_match; simplify_eq] ].

Section LockProtocol.
Context (L : libs).

Lemma locking_async_with_lock {A} (body : prog A) :
  obeys lock_protocol body Holding Holding ->
  obeys lock_protocol (async_with_lock body) Idle Idle.
Proof.
  intros Hb. simpl. intros _. apply obeys_try_finally with Holding; [done|].
  simpl. by intros [].
Qed.

(** The function handed to [to_thread] starts only under the lock. *)
Lemma locking_to_thread {A} (f : prog A) :
  obeys lock_protocol f Inferring Inferring ->
  obeys lock_protocol (to_thread f) Holding Holding.
Proof. intros Hf. by apply obeys_to_thread with Inferring. Qed.

Lemma locking_with_NamedTemporaryFile {A} suffix (body : string -> prog A) a :
  (forall tmp, obeys lock_protocol (body tmp) a a) ->
  obeys lock_protocol (with_NamedTemporaryFile suffix body) a a.
Proof.
  intros Hb. apply obeys_bind; [by apply obeys_call|].
  intros tmp. apply obeys_try_finally with a; [done|]. by apply obeys_do.
Qed.

Lemma locking_with_TemporaryDirectory {A} (body : string -> prog A) a :
  (forall tmpdir, obeys lock_protocol (body tmpdir) a a) ->
  obeys lock_protocol (with_TemporaryDirectory body) a a.
Proof.
  intros Hb. apply obeys_bind; [by apply obeys_call|].
  intros tmp. apply obeys_try_finally with a; [done|]. by apply obeys_do.
Qed.

Lemma locking_infer image_pth a : obeys lock_protocol (Engine.infer image_pth) a a.
Proof.
  unfold Engine.infer. apply obeys_bind; [by apply obeys_do|]. intros _.
  apply locking_with_TemporaryDirectory. intros tmpdir.
  repeat obeys_step.
Qed.

Lemma locking_stage_and_infer image_data suffix :
  obeys lock_protocol (DeepSeek.stage_and_infer L image_data suffix) Idle Idle.
Proof.
  unfold DeepSeek.stage_and_infer.
  apply obeys_bind; [|by intros ?].
  apply locking_with_NamedTemporaryFile. intros tmp.
  apply obeys_bind; [by apply obeys_call|]. intros _.
  apply obeys_try_except.
  - apply locking_async_with_lock.
    apply obeys_bind; [|by intros ?].
    apply locking_to_thread, locking_infer.
  - intros e q Hq. by case_match; simplify_eq.
Qed.

Lemma locking_DeepSeek_app r : obeys lock_protocol (DeepSeek.app L r) Idle Idle.
Proof.
  destruct r as [|file|file|s|[s]]; simpl DeepSeek.app;
    unfold DeepSeek.root, DeepSeek.file_to_base64, DeepSeek.perform_ocr,
      DeepSeek.perform_ocr_base46, DeepSeek.perform_ocr_base64_json, DeepSeek.except_image.
  - done.
  - repeat obeys_step.
  - apply obeys_bind; [repeat obeys_step|]. intros ?. apply locking_stage_and_infer.
  - apply obeys_bind; [repeat obeys_step|]. intros ?. apply locking_stage_and_infer.
  - apply obeys_bind; [repeat obeys_step|]. intros ?. apply locking_stage_and_infer.
Qed.

End LockProtocol.

(** ** Handlers own their temporary entries *)

Section ScratchProtocol.
Context (L : libs).

Lemma scratch_scoped {A} (o : eff (result string)) (close : string -> eff unit)
    (body : string -> prog A) own :
  scratch_protocol _ o = (fun own => Some (push_created own)) ->
  (forall t, scratch_protocol _ (close t) = pop_entry t) ->
  (forall t, obeys scratch_protocol (body t) (t :: own) (t :: own)) ->
  obeys scratch_protocol (t <- call o ;; try_finally (body t) (do (close t))) own own.
Proof.
  intros Ho Hc Hb. simpl. rewrite Ho. intros [t|e]; simpl; [|done].
  apply obeys_try_finally with (t :: own); [apply Hb|].
  simpl. rewrite Hc. simpl. by rewrite decide_True.
Qed.

Lemma scratch_with_NamedTemporaryFile {A} suffix (body : string -> prog A) own :
  (forall tmp, obeys scratch_protocol (body tmp) (tmp :: own) (tmp :: own)) ->
  obeys scratch_protocol (with_NamedTemporaryFile suffix body) own own.
Proof. intros Hb. by apply (scratch_scoped _ TmpClose). Qed.

Lemma scratch_with_TemporaryDirectory {A} (body : string -> prog A) own :
  (forall tmpdir, obeys scratch_protocol (body tmpdir) (tmpdir :: own) (tmpdir :: own)) ->
  obeys scratch_protocol (with_TemporaryDirectory body) own own.
Proof. intros Hb. by apply (scratch_scoped _ TmpCleanup). Qed.

Lemma scratch_TmpWrite tmp data own :
  tmp ∈ own -> obeys scratch_protocol (call (TmpWrite tmp data)) own own.
Proof. intros Hin. simpl. unfold touch_entry. rewrite decide_True by done. by intros []. Qed.

Lemma scratch_ModelInfer args own :
  output_path args ∈ own -> obeys scratch_protocol (call (ModelInfer args)) own own.
Proof. intros Hin. simpl. unfold touch_entry. rewrite decide_True by done. by intros []. Qed.

Lemma scratch_async_with_lock {A} (body : prog A) own :
  obeys scratch_protocol body own own -> obeys scratch_protocol (async_with_lock body) own own.
Proof.
  intros Hb. simpl. intros _. apply obeys_try_finally with own; [done|]. by apply obeys_call.
Qed.

Lemma scratch_to_thread {A} (f : prog A) own :
  obeys scratch_protocol f own own -> obeys scratch_protocol (to_thread f) own own.
Proof. intros Hf. by apply obeys_to_thread with own. Qed.

Lemma scratch_infer image_pth own : obeys scratch_protocol (Engine.infer image_pth) own own.
Proof.
  unfold Engine.infer. apply obeys_bind; [by apply obeys_do|]. intros _.
  apply scratch_with_TemporaryDirectory. intros tmpdir.
  apply obeys_bind; [apply scratch_ModelInfer; set_solver|]. intros _.
  repeat obeys_step.
Qed.

Lemma scratch_stage_and_infer image_data suffix own :
  obeys scratch_protocol (DeepSeek.stage_and_infer L image_data suffix) own own.
Proof.
  unfold DeepSeek.stage_and_infer.
  apply obeys_bind; [|by intros ?].
  apply scratch_with_NamedTemporaryFile. intros tmp.
  apply obeys_bind; [apply scratch_TmpWrite; set_solver|]. intros _.
  apply obeys_try_except.
  - apply scratch_async_with_lock.
    apply obeys_bind; [|by intros ?].
    apply scratch_to_thread, scratch_infer.
  - intros e q Hq. by case_match; simplify_eq.
Qed.

Lemma scratch_DeepSeek_app r : obeys scratch_protocol (DeepSeek.app L r) [] [].
Proof.
  destruct r as [|file|file|s|[s]]; simpl DeepSeek.app;
    unfold DeepSeek.root, DeepSeek.file_to_base64, DeepSeek.perform_ocr,
      DeepSeek.perform_ocr_base46, DeepSeek.perform_ocr_base64_json, DeepSeek.except_image.
  - done.
  - repeat obeys_step.
  - apply obeys_bind; [repeat obeys_step|]. intros ?. apply scratch_stage_and_infer.
  - apply obeys_bind; [repeat obeys_step|]. intros ?. apply scratch_stage_and_infer.
  - apply obeys_bind; [repeat obeys_step|]. intros ?. apply scratch_stage_and_infer.
Qed.

Lemma scratch_Tesseract_app (Language : enum) r :
  obeys scratch_protocol (Tesseract.app L Language r) [] [].
Proof.
  destruct r as [|file|file lang|s lang|[s lang]|]; simpl Tesseract.app;
    unfold Tesseract.root, Tesseract.file_to_base64, Tesseract.perform_ocr,
      Tesseract.perform_ocr_base46, Tesseract.perform_ocr_base64_json,
      Tesseract.get_supported_languages, Tesseract.Form_language.
  all: repeat (repeat obeys_step; repeat case_match).
Qed.

End ScratchProtocol.

Section Pool.
Context (L : libs).

Lemma sum_list_with_insert {A} (f : A -> nat) l i x y :
  l !! i = Some x ->
  (sum_list_with f (<[i := y]> l) + f x = sum_list_with f l + f y)%nat.
Proof.
  revert i. induction l as [|z l IH]; intros [|i] Hi; simplify_eq/=; [lia|].
  specialize (IH i Hi). lia.
Qed.

Lemma sum_list_with_lookup_le {A} (f : A -> nat) l i x :
  l !! i = Some x -> (f x <= sum_list_with f l)%nat.
Proof.
  revert i. induction l as [|z l IH]; intros [|i] Hi; simplify_eq/=; [lia|].
  specialize (IH i Hi). lia.
Qed.

(** What one effect does to the lock and to the count of running
    inferences, against the phase of the handler that performs it. *)
Lemma exec_op_phase {X} (o : eff X) w x w' ph ph' :
  exec_op L o w = Some (x, w') ->
  next_phase o ph = Some ph' ->
  (holding ph <= lock_count w)%nat ->
  (inferring ph <= running w)%nat ->
  (lock_count w' + holding ph = lock_count w + holding ph')%nat /\
  (running w' + inferring ph = running w + inferring ph')%nat.
Proof.
  unfold exec_op, lock_count. intros Hx Hph Hh Hr.
  destruct o; cbn [perform event_of raised] in Hx.
  all: try match type of Hx with
    | context [create L ?kd ?s ?e ?w0] =>
        pose proof (create_spec L kd s e w0) as (_ & Hl & Hrun & _);
        destruct (create L kd s e w0) as [r w1]; simpl in Hl, Hrun
    end.
  all: cbn [locked emit] in Hx.
  all: destruct (locked w) eqn:Elock; try discriminate Hx.
  all: injection Hx as <- <-.
  all: rewrite ?locked_note_raised, ?running_note_raised.
  all: destruct ph; try discriminate Hph; injection Hph as <-.
  all: simpl in *; rewrite ?Hl, ?Hrun, ?Elock; simpl; try lia.
Qed.

Lemma pool_inv_step s s' :
  pool_inv s -> pool_step L (deepseek_requests L) s s' -> pool_inv s'.
Proof.
  intros (phs & Hall & Hh & Hr) Hstep. unfold pool_inv, lock_count in *.
  destruct Hstep as [w ts p [r ->]|w ts i X o k x w' Hi Hx]; simpl in *.
  - exists (phs ++ [Idle]). split; [|split].
    + apply Forall2_app; [done|]. constructor; [|done]. apply locking_DeepSeek_app.
    + rewrite sum_list_with_app. simpl. lia.
    + rewrite sum_list_with_app. simpl. lia.
  - destruct (Forall2_lookup_l _ _ _ _ _ Hall Hi) as (ph & Hph & Hf).
    simpl in Hf. unfold lock_protocol in Hf.
    destruct (next_phase o ph) as [ph'|] eqn:E; [|done]. simpl in Hf.
    pose proof (sum_list_with_lookup_le holding _ _ _ Hph) as Hle1.
    pose proof (sum_list_with_lookup_le inferring _ _ _ Hph) as Hle2.
    unfold lock_count in *.
    destruct (exec_op_phase o w x w' ph ph' Hx E) as [H1 H2];
      [unfold lock_count; by rewrite <- Hh|by rewrite <- Hr|].
    exists (<[i := ph']> phs). split; [|split].
    + by apply Forall2_insert.
    + pose proof (sum_list_with_insert holding _ _ _ ph' Hph).
      unfold lock_count in *. simpl. lia.
    + pose proof (sum_list_with_insert inferring _ _ _ ph' Hph). simpl. lia.
Qed.

Lemma pool_inv_reachable w0 s :
  locked w0 = false -> running w0 = 0%nat ->
  rtc (pool_step L (deepseek_requests L)) (w0, []) s -> pool_inv s.
Proof.
  intros Hl Hr Hs.
  assert (H0 : pool_inv (w0, [])).
  { exists []. unfold lock_count. simpl. by rewrite Hl, Hr. }
  revert H0. induction Hs as [|s1 s2 s3 Hstep _ IH]; [done|].
  intros H1. apply IH. by eapply pool_inv_step.
Qed.

Lemma inferring_le_holding phs :
  (sum_list_with inferring phs <= sum_list_with holding phs)%nat.
Proof. induction phs as [|[] phs IH]; simpl; lia. Qed.

Lemma finished_idle (ts : list (prog response)) phs :
  Forall2 (fun p ph => obeys lock_protocol p ph Idle) ts phs ->
  Forall finished ts ->
  sum_list_with holding phs = 0%nat.
Proof.
  induction 1 as [|p ph ts phs Hp _ IH]; [done|].
  intros [Hf Hfs]%Forall_cons. simpl. rewrite IH by done.
  destruct p; simpl in *; by subst.
Qed.

(** A suspended handler is never resumed. *)
Lemma exec_op_Suspended {X} (o : eff X) w :
  event_of o = EvSuspended -> exec_op L o w = None.
Proof. by destruct o. Qed.

(** A suspended handler holds the lock. *)
Lemma suspended_holds (ts : list (prog response)) phs i p :
  Forall2 (fun p ph => obeys lock_protocol p ph Idle) ts phs ->
  ts !! i = Some p -> next_event p = Some EvSuspended ->
  phs !! i = Some Holding.
Proof.
  intros Hall Hi Hp.
  destruct (Forall2_lookup_l _ _ _ _ _ Hall Hi) as (ph & Hph & Hob).
  destruct p as [a|e|X o k]; try discriminate Hp.
  destruct o; try discriminate Hp.
  by destruct ph.
Qed.

(** A suspended handler stays where it is, whatever the others do. *)
Lemma suspended_stays arrivals s s' i p :
  rtc (pool_step L arrivals) s s' ->
  s.2 !! i = Some p -> next_event p = Some EvSuspended -> s'.2 !! i = Some p.
Proof.
  induction 1 as [|s1 s2 s3 Hstep _ IH]; [done|]. intros Hi Hp. apply IH; [|done].
  destruct Hstep as [w ts q Hq|w ts j X o k' x w' Hj Hx]; simpl in *.
  - by apply lookup_app_l_Some.
  - destruct (decide (j = i)) as [->|Hne].
    + rewrite Hi in Hj. injection Hj as ->. injection Hp as Hp.
      by rewrite (exec_op_Suspended o w Hp) in Hx.
    + by rewrite list_lookup_insert_ne.
Qed.

Lemma pool_inv_rtc s s' :
  pool_inv s -> rtc (pool_step L (deepseek_requests L)) s s' -> pool_inv s'.
Proof.
  intros H0 Hs. induction Hs as [|s1 s2 s3 Hstep _ IH]; [done|].
  apply IH. by eapply pool_inv_step.
Qed.

(** So the lock it holds is never given back. *)
Lemma suspended_for_ever s s' i p :
  pool_inv s ->
  s.2 !! i = Some p -> next_event p = Some EvSuspended ->
  rtc (pool_step L (deepseek_requests L)) s s' ->
  s'.2 !! i = Some p /\ locked s'.1 = true.
Proof.
  intros Hinv Hi Hp Hs.
  pose proof (suspended_stays _ _ _ _ _ Hs Hi Hp) as Hi'. split; [done|].
  destruct (pool_inv_rtc _ _ Hinv Hs) as (phs & Hall & Hh & _).
  pose proof (suspended_holds _ _ _ _ Hall Hi' Hp) as Hph.
  pose proof (sum_list_with_lookup_le holding _ _ _ Hph) as Hle. simpl in Hle.
  unfold lock_count in Hh. destruct (locked s'.1); [done|lia].
Qed.

End Pool.


Section ScratchPool.
Context (L : libs) (Language : enum).

(** What one effect does to the temporary directory, against the entries
    of the handler that performs it: it leaves the entries of the others
    alone, creates a new entry, or removes its latest one. *)
Lemma exec_op_scratch {X} (o : eff X) w x w' own next :
  exec_op L o w = Some (x, w') ->
  scratch_protocol X o own = Some next ->
  (next x = own /\
   (forall key, key ∉ own -> disk w' !! key = disk w !! key) /\
   (forall key, is_Some (disk w !! key) -> is_Some (disk w' !! key))) \/
  (exists t entry, next x = t :: own /\ disk w !! t = None /\
                   disk w' = <[t := entry]> (disk w)) \/
  (exists t, own = t :: next x /\ disk w' = delete t (disk w)).
Proof.
  unfold exec_op. intros Hx Hp.
  destruct o; cbn [perform event_of raised] in Hx; cbn [scratch_protocol] in Hp.
  all: try match type of Hx with
    | context [create L ?kd ?s ?e ?w0] =>
        pose proof (create_spec L kd s e w0) as (Hc & _);
        destruct (create L kd s e w0) as [[t|e'] w1]; simpl in Hc
    end.
  all: cbn [locked emit] in Hx.
  all: destruct (locked w) eqn:Elock; try discriminate Hx.
  all: injection Hx as <- <-.
  all: rewrite ?disk_note_raised.
  all: unfold pop_entry, touch_entry in Hp; repeat case_match; simplify_eq/=.
  all: try (left; by repeat split).
  all: try (right; right; by eexists).
  all: try match goal with
    | Hc : _ /\ disk _ = <[_ := _]> _ |- _ =>
        destruct Hc as [Hfree Hd]; right; left; by eexists _, _
    | Hc : disk ?w1 = _ |- context [disk ?w1] =>
        left; rewrite Hc; by repeat split
    end.
  all: left; split; [done|]; split.
  all: try (intros key Hkey; apply lookup_alter_ne; intros Heq; subst; contradiction).
  all: intros key Hsome; by apply lookup_alter_is_Some.
Qed.

Lemma scratch_inv_arrive d0 w ts p :
  all_requests L Language p -> scratch_inv d0 (w, ts) -> scratch_inv d0 (w, ts ++ [p]).
Proof.
  intros Hp (owns & Hall & Hnd & Hdisj & Hown & Hrest). simpl in *.
  assert (Hlook : forall j own, (owns ++ [[]]) !! j = Some own ->
            owns !! j = Some own \/ own = []).
  { intros j own [Hj|[_ Hj]]%lookup_app_Some; [by left|right].
    by apply list_lookup_singleton_Some in Hj as [_ <-]. }
  exists (owns ++ [[]]). split_and!; simpl.
  - apply Forall2_app; [done|]. constructor; [|done].
    destruct Hp as [[r ->]|[r ->]];
      [apply scratch_Tesseract_app|apply scratch_DeepSeek_app].
  - intros j own [Hj| ->]%Hlook; [by eapply Hnd|constructor].
  - intros i j own_i own_j key [Hi| ->]%Hlook [Hj| ->]%Hlook Hki Hkj;
      [by eapply Hdisj|by apply elem_of_nil in Hkj|by apply elem_of_nil in Hki..].
  - intros j own key [Hj| ->]%Hlook Hk; [by eapply Hown|by apply elem_of_nil in Hk].
  - intros key Hkey. apply Hrest. intros j own Hj. apply (Hkey j).
    by apply lookup_app_l_Some.
Qed.

Lemma scratch_inv_effect d0 w ts i X (o : eff X) k x w' :
  ts !! i = Some (Vis o k) ->
  exec_op L o w = Some (x, w') ->
  scratch_inv d0 (w, ts) -> scratch_inv d0 (w', <[i := k x]> ts).
Proof.
  intros Hi Hx (owns & Hall & Hnd & Hdisj & Hown & Hrest). simpl in *.
  destruct (Forall2_lookup_l _ _ _ _ _ Hall Hi) as (own & Hoi & Hob).
  simpl in Hob. destruct (scratch_protocol X o own) as [next|] eqn:E; [|done].
  assert (Hlook : forall j own', <[i := next x]> owns !! j = Some own' ->
            (j = i /\ own' = next x) \/ (j <> i /\ owns !! j = Some own')).
  { intros j own' Hj. apply list_lookup_insert_Some in Hj. naive_solver. }
  assert (Hlook_i : <[i := next x]> owns !! i = Some (next x)).
  { apply list_lookup_insert_eq. by eapply lookup_lt_Some. }
  assert (Hlook_ne : forall j, j <> i -> <[i := next x]> owns !! j = owns !! j).
  { intros j Hj. by apply list_lookup_insert_ne. }
  exists (<[i := next x]> owns). split; [by apply Forall2_insert|]. simpl.
  destruct (exec_op_scratch o w x w' own next Hx E)
    as [(Hn & Hother & Hsome)|[(t & entry & Hn & Hfree & Hd)|(t & Hn & Hd)]].
  - (* the entries stay *)
    rewrite Hn in *. rewrite list_insert_id by done. split_and!; [done..| |].
    + intros j own' key Hj Hk. destruct (Hown j own' key Hj Hk). eauto.
    + intros key Hkey. rewrite Hother by eauto. by apply Hrest.
  - (* a new entry *)
    assert (Hnew : forall j own', owns !! j = Some own' -> t ∉ own').
    { intros j own' Hj Ht. destruct (Hown j own' t Hj Ht) as [_ [? Hs]]. congruence. }
    rewrite Hn in *. split_and!.
    + intros j own' [[-> ->]|[_ Hj]]%Hlook; [|by eapply Hnd].
      apply NoDup_cons. split; [by eapply Hnew|by eapply Hnd].
    + intros j1 j2 o1 o2 key [[-> ->]|[Hne1 Hj1]]%Hlook [[-> ->]|[Hne2 Hj2]]%Hlook Hk1 Hk2;
        [done| | |by eapply Hdisj].
      * apply elem_of_cons in Hk1 as [->|Hk1]; [by destruct (Hnew _ _ Hj2)|].
        by destruct Hne2; eapply Hdisj.
      * apply elem_of_cons in Hk2 as [->|Hk2]; [by destruct (Hnew _ _ Hj1)|].
        by destruct Hne1; eapply Hdisj.
    + intros j own' key [[-> ->]|[_ Hj]]%Hlook Hk.
      * apply elem_of_cons in Hk as [->|Hk].
        -- rewrite Hd, lookup_insert_eq. split; [|done].
           rewrite <- Hrest; [done|]. intros j own' Hj. by eapply Hnew.
        -- destruct (Hown i own key Hoi Hk) as [? ?]. split; [done|].
           rewrite Hd. apply lookup_insert_is_Some. destruct (decide (t = key)); auto.
      * destruct (Hown j own' key Hj Hk) as [? ?]. split; [done|].
        rewrite Hd. apply lookup_insert_is_Some. destruct (decide (t = key)); auto.
    + intros key Hkey.
      assert (key <> t) as Hne.
      { intros ->. apply (Hkey i _ Hlook_i). by left. }
      rewrite Hd, lookup_insert_ne by done. apply Hrest.
      intros j own' Hj Hk. destruct (decide (j = i)) as [->|Hji].
      * simplify_eq. apply (Hkey i _ Hlook_i). by right.
      * apply (Hkey j own'); [by rewrite Hlook_ne|done].
  - (* the latest entry goes *)
    subst own. pose proof (Hnd _ _ Hoi) as [Ht Hnd']%NoDup_cons.
    assert (Hgone : forall j own', <[i := next x]> owns !! j = Some own' -> t ∉ own').
    { intros j own' [[-> ->]|[Hne Hj]]%Hlook; [done|].
      intros Hk. apply Hne. symmetry. eapply (Hdisj i j); [done..|by left|done]. }
    split_and!.
    + intros j own' [[-> ->]|[_ Hj]]%Hlook; [done|by eapply Hnd].
    + intros j1 j2 o1 o2 key [[-> ->]|[Hne1 Hj1]]%Hlook [[-> ->]|[Hne2 Hj2]]%Hlook Hk1 Hk2;
        [done| | |by eapply Hdisj].
      * destruct Hne2. symmetry. eapply (Hdisj i j2); [done..|by right|done].
      * destruct Hne1. eapply (Hdisj j1 i); [done..|by right].
    + intros j own' key Hj Hk.
      assert (key <> t) as Hne by (intros ->; by eapply Hgone).
      rewrite Hd, lookup_delete_ne by done.
      apply Hlook in Hj as [[-> ->]|[_ Hj]]; [|by eapply Hown].
      eapply (Hown i); [done|by right].
    + intros key Hkey. rewrite Hd. destruct (decide (key = t)) as [->|Hne].
      * rewrite lookup_delete_eq. symmetry. eapply (Hown i); [done|by left].
      * rewrite lookup_delete_ne by done. apply Hrest.
        intros j own' Hj Hk. destruct (decide (j = i)) as [->|Hji].
        -- simplify_eq. apply elem_of_cons in Hk as [->|Hk]; [done|].
           by apply (Hkey i _ Hlook_i).
        -- apply (Hkey j own'); [by rewrite Hlook_ne|done].
Qed.

Lemma scratch_inv_reachable w0 s :
  rtc (pool_step L (all_requests L Language)) (w0, []) s -> scratch_inv (disk w0) s.
Proof.
  intros Hs.
  assert (H0 : scratch_inv (disk w0) (w0, [])).
  { exists []. split_and!; simpl; [done|by intros ? ? ?..|done]. }
  revert H0. generalize (disk w0). induction Hs as [|s1 s2 s3 Hstep _ IH]; [done|].
  intros d0 H1. apply IH.
  destruct Hstep; [by apply scratch_inv_arrive|by eapply scratch_inv_effect].
Qed.

End ScratchPool.


(** ** [/file-to-base64] *)

(** C9: when the upload is read, the handler of either service answers 200
    with the declared filename unchanged and a [base64_string] that
    [base64.b64decode] turns back into exactly the bytes of the file. *)
Theorem file_to_base64_round_trip (L : libs) (file : UploadFile) (data : bytes) (w : world) :
  read file = Ok data ->
  exists s,
    (run L (Tesseract.file_to_base64 file) w).1 =
      Returned (JSONResponse 200
                  (JDict [("filename", opt_str (filename file));
                          ("base64_string", JString s)])) /\
    (run L (DeepSeek.file_to_base64 file) w).1 =
      Returned (JSONResponse 200
                  (JDict [("filename", opt_str (filename file));
                          ("base64_string", JString s)])) /\
    b64decode s = Ok data.
Proof.
  intros Hread. exists (b64encode data). split; [|split].
  - unfold Tesseract.file_to_base64. simpl. unfold exec_op. simpl. by rewrite Hread.
  - unfold DeepSeek.file_to_base64. simpl. unfold exec_op. simpl. by rewrite Hread.
  - apply Base64Facts.b64decode_b64encode.
Qed.

(** ** The language of the classical service *)

Section Enum.
Context (E : enum).

Lemma enum_call_None v : v ∉ value <$> E -> enum_call E v = None.
Proof.
  unfold enum_call. induction E as [|m E' IH]; [done|].
  intros Hv. rewrite fmap_cons, not_elem_of_cons in Hv. simpl. destruct Hv as [Hne Hv].
  destruct (String.eqb_spec (value m) v) as [Heq|_]; [by symmetry in Heq|]. by apply IH.
Qed.

Lemma enum_call_unique m :
  NoDup (value <$> E) -> m ∈ E -> enum_call E (value m) = Some m.
Proof.
  unfold enum_call. induction E as [|m' E' IH]; intros Hnd Hin; [by apply elem_of_nil in Hin|].
  rewrite fmap_cons in Hnd. simpl. apply NoDup_cons in Hnd as [Hm' Hnd].
  apply elem_of_cons in Hin as [->|Hin]; [by rewrite String.eqb_refl|].
  destruct (String.eqb_spec (value m') (value m)) as [Heq|_]; [|by apply IH].
  exfalso. apply Hm'. rewrite Heq. by apply list_elem_of_fmap_2.
Qed.

Lemma find_name_unique m :
  NoDup (name <$> E) -> m ∈ E ->
  List.find (fun m' => String.eqb (name m') (name m)) E = Some m.
Proof.
  induction E as [|m' E' IH]; intros Hnd Hin; [by apply elem_of_nil in Hin|].
  rewrite fmap_cons in Hnd. simpl. apply NoDup_cons in Hnd as [Hm' Hnd].
  apply elem_of_cons in Hin as [->|Hin]; [by rewrite String.eqb_refl|].
  destruct (String.eqb_spec (name m') (name m)) as [Heq|_]; [|by apply IH].
  exfalso. apply Hm'. rewrite Heq. by apply list_elem_of_fmap_2.
Qed.

Lemma enum_attr_unique m :
  NoDup (name <$> E) -> NoDup (value <$> E) -> m ∈ E ->
  enum_attr E (name m) = Some m.
Proof.
  intros Hn Hv Hin. unfold enum_attr.
  rewrite find_name_unique by done. by apply enum_call_unique.
Qed.

Lemma enum_iter_from_values seen c :
  c ∈ value <$> enum_iter_from seen E <-> c ∈ value <$> E /\ c ∉ seen.
Proof.
  revert seen. induction E as [|m E' IH]; intros seen; simpl.
  - rewrite elem_of_nil. tauto.
  - case_bool_decide as Hm; rewrite ?fmap_cons, ?elem_of_cons, IH, ?not_elem_of_cons.
    + split; [tauto|]. intros [[->|?] ?]; tauto.
    + destruct (decide (c = value m)) as [->|]; tauto.
Qed.

Lemma sorted_allowed c :
  c ∈ sorted (list_to_set (value <$> enum_iter E)) <-> c ∈ value <$> E.
Proof.
  unfold sorted. rewrite merge_sort_Permutation, elem_of_elements, elem_of_list_to_set.
  unfold enum_iter. rewrite enum_iter_from_values. set_solver.
Qed.

Lemma sorted_Sorted (s : gset string) : Sorted String.le (sorted s).
Proof. apply Sorted_merge_sort. apply _. Qed.

Lemma sorted_NoDup (s : gset string) : NoDup (sorted s).
Proof. unfold sorted. rewrite merge_sort_Permutation. apply NoDup_elements. Qed.

End Enum.

(** C3: a JSON request whose language is not a value of [Language] is
    answered 422 before anything else happens (the world is untouched: no
    base64 decoding, no [Image.open]); the detail carries the offending
    value and the allowed codes, all of them, each once, in order. *)
Theorem unsupported_language_is_422 (L : libs) (Language : enum)
    (request : Tesseract.OCRJsonRequest) (w : world) :
  Tesseract.language request ∉ value <$> Language ->
  exists allowed,
    run L (Tesseract.perform_ocr_base64_json L Language request) w =
      (Raised (HTTPException 422
                 (JDict [("invalid language entry", JString (Tesseract.language request));
                         ("allowed languages", JList (JString <$> allowed))])), w) /\
    http_reply (run L (Tesseract.perform_ocr_base64_json L Language request) w).1 =
      Some (JSONResponse 422
              (JDict [("detail",
                       JDict [("invalid language entry", JString (Tesseract.language request));
                              ("allowed languages", JList (JString <$> allowed))])])) /\
    Sorted String.le allowed /\
    NoDup allowed /\
    (forall c, c ∈ allowed <-> c ∈ value <$> Language).
Proof.
  intros Hbad. eexists. unfold Tesseract.perform_ocr_base64_json.
  rewrite (enum_call_None _ _ Hbad). simpl.
  repeat split; [apply sorted_Sorted|apply sorted_NoDup|apply sorted_allowed..].
Qed.

(** C10: on the form routes of the classical service, a request without
    a [language] field is recognised with the code of [Language.Farsi], and
    a successful answer names the language "Farsi".  ([Language] is the
    missing enumeration: it defines [Farsi], and no name or value twice.) *)
Theorem default_language_is_Farsi (L : libs) (Language : enum) (code : string)
    (file : UploadFile) (base64_string : string) (data : bytes) (im : image)
    (w : world) :
  Member "Farsi" code ∈ Language ->
  NoDup (name <$> Language) ->
  NoDup (value <$> Language) ->
  read file = Ok data ->
  b64decode base64_string = Ok data ->
  Image_open L data = Ok im ->
  let r1 := run L (Tesseract.perform_ocr L Language file None) w in
  let r2 := run L (Tesseract.perform_ocr_base46 L Language base64_string None) w in
  (exists evs,
     log r1.2 = log w ++ [EvUploadRead; EvImageOpen data; EvImageToString code] ++ evs) /\
  (exists evs,
     log r2.2 = log w ++ [EvB64decode base64_string; EvImageOpen data;
                          EvImageToString code] ++ evs) /\
  (forall text, image_to_string L im code = Ok text ->
     r1.1 = Returned (JSONResponse 200
                        (JDict [("language", JString "Farsi");
                                ("extracted_text", JString text)])) /\
     r2.1 = Returned (JSONResponse 200
                        (JDict [("language", JString "Farsi");
                                ("extracted_text", JString text)]))).
Proof.
  intros Hin Hn Hv Hread Hdec Hopen.
  pose proof (enum_attr_unique Language (Member "Farsi" code) Hn Hv Hin) as Hattr.
  simpl in Hattr.
  unfold Tesseract.perform_ocr, Tesseract.perform_ocr_base46, Tesseract.Form_language.
  rewrite Hattr. simpl. unfold exec_op. simpl.
  rewrite Hread, Hdec. simpl. rewrite Hopen. simpl.
  destruct (image_to_string L im code) as [text|e] eqn:Hocr; simpl.
  - split; [|split].
    + exists []. by rewrite <- !app_assoc.
    + exists []. by rewrite <- !app_assoc.
    + by intros ? [= <-].
  - split; [|split]; [| |done].
    + exists [EvRaised e]. destruct (is_Exception e); simpl; by rewrite <- !app_assoc.
    + exists [EvRaised e]. destruct (is_Exception e); simpl; by rewrite <- !app_assoc.
Qed.

(** ** The log of a run *)

Section Log.
Context (L : libs).

Lemma log_note_raised e w :
  log (note_raised e w) = log w ++ from_option (fun e => [EvRaised e]) [] e.
Proof. destruct e; simpl; by rewrite ?app_nil_r. Qed.

Lemma exec_op_log {X} (o : eff X) w x w' :
  exec_op L o w = Some (x, w') ->
  log w' = log w ++ event_of o :: from_option (fun e => [EvRaised e]) [] (raised o x).
Proof.
  unfold exec_op. intros Hx.
  destruct o; cbn [perform event_of raised] in Hx.
  all: try match type of Hx with
    | context [create L ?kd ?s ?e ?w0] =>
        pose proof (create_spec L kd s e w0) as (_ & _ & _ & Hl);
        destruct (create L kd s e w0) as [r w1]; simpl in Hl
    end.
  all: cbn [locked emit] in Hx.
  all: destruct (locked w) eqn:Elock; try discriminate Hx.
  all: injection Hx as <- <-.
  all: rewrite ?log_note_raised; simpl; rewrite ?Hl; simpl; by rewrite <- ?app_assoc.
Qed.

(** The log only grows. *)
Lemma run_log {A} (p : prog A) w : exists evs, log (run L p w).2 = log w ++ evs.
Proof.
  revert w. induction p as [a|e|X o k IH]; intros w; simpl.
  - exists []. by rewrite app_nil_r.
  - exists []. by rewrite app_nil_r.
  - destruct (exec_op L o w) as [[x w']|] eqn:E; simpl.
    + destruct (IH x w') as [evs Hevs]. rewrite Hevs, (exec_op_log _ _ _ _ E).
      eexists. by rewrite <- app_assoc.
    + exists []. by rewrite app_nil_r.
Qed.

End Log.

Section Steps.
Context (L : libs).

(** A handler waits for the lock while it is taken, or because it is
    suspended; nothing else makes it wait. *)
Lemma exec_op_None {X} (o : eff X) w :
  exec_op L o w = None ->
  (event_of o = EvLockAcquire /\ locked w = true) \/ event_of o = EvSuspended.
Proof.
  unfold exec_op. intros Hx.
  destruct o; cbn [perform event_of raised] in Hx.
  all: try match type of Hx with
    | context [create L ?kd ?s ?e ?w0] => destruct (create L kd s e w0) as [r w1]
    end.
  all: cbn [locked emit] in Hx.
  all: try by right.
  all: destruct (locked w) eqn:Elock; try discriminate Hx.
  by left.
Qed.

(** [tempfile] and the lock raise errors of their own only. *)
Lemma exec_op_own_errors {X} (o : eff X) w x w' :
  exec_op L o w = Some (x, w') ->
  match event_of o, raised o x with
  | (EvNamedTemporaryFile _ | EvTemporaryDirectory | EvTmpWrite _ | EvLockRelease), Some e =>
      exists c t, e = PyErr c t
  | _, _ => True
  end.
Proof.
  unfold exec_op. intros Hx.
  destruct o; cbn [perform event_of raised] in *; try done.
  - unfold create in Hx. destruct (mkstemp_inner _ _ _ _ _) as [[?|] ?];
      injection Hx as <- _; simpl; eauto.
  - injection Hx as <- _. done.
  - unfold create in Hx. destruct (mkstemp_inner _ _ _ _ _) as [[?|] ?];
      injection Hx as <- _; simpl; eauto.
  - cbn [locked emit] in Hx. destruct (locked w); injection Hx as <- _; simpl; eauto.
Qed.

End Steps.

#[global] Arguments exec_op : simpl never.
#[global] Arguments is_Exception : simpl never.
#[global] Arguments is_UnidentifiedImageError : simpl never.

(** One step of symbolic execution: the next effect is performed, its
    result named, and its entry in the log recorded. *)
Ltac exec_step :=
  match goal with
  | |- context [exec_op ?L ?o ?w] =>
      let E := fresh "E" in
      destruct (exec_op L o w) as [[? ?]|] eqn:E;
      [ let E' := fresh "E" in
        pose proof (exec_op_own_errors _ _ _ _ _ E) as E';
        apply exec_op_log in E; simpl in E, E'
      | apply exec_op_None in E; destruct E as [[E _]|E]; try discriminate E ]
  end.

(** ** Purging the accelerator cache around the model *)

Ltac log_done :=
  cbn [fst snd];
  repeat match goal with H : log _ = _ |- _ => rewrite H; clear H end;
  rewrite <- ?app_assoc; simpl.

Lemma infer_log (L : libs) (image_pth : string) (w : world) :
  exists evs,
    log (run L (Engine.infer image_pth) w).2 = log w ++ evs /\
    head evs = Some EvCudaEmptyCache /\
    forall i ev, evs !! i = Some ev -> is_model_call ev = true ->
      purged_before evs i = true /\
      (came_back evs i = true -> purged_after evs i = true).
Proof.
  unfold Engine.infer, with_TemporaryDirectory. cbn.
  exec_step. exec_step.
  destruct r as [tmpdir|e]; cbn in *.
  - exec_step. destruct r as [[]|e]; cbn in *.
    + exec_step. exec_step. destruct r as [content|e]; cbn in *.
      * exec_step. eexists. split; [log_done; reflexivity|]. split; [done|].
        intros i ev Hi Hev.
        do 6 (destruct i as [|i]; simplify_eq/=; try done).
      * exec_step. eexists. split; [log_done; reflexivity|]. split; [done|].
        intros i ev Hi Hev.
        do 7 (destruct i as [|i]; simplify_eq/=; try done).
    + exec_step. eexists. split; [log_done; reflexivity|]. split; [done|].
      intros i ev Hi Hev.
      do 5 (destruct i as [|i]; simplify_eq/=; try done).
  - eexists. split; [log_done; reflexivity|]. split; [done|].
    intros i ev Hi Hev.
    do 3 (destruct i as [|i]; simplify_eq/=; try done).
Qed.

(** C6, as the code has it: every call of [DeepSeekOCR.infer] purges the
    cache first, so before any call of the model; it purges again after the
    model call when that call comes back without an exception. *)
Theorem infer_purges_cache (L : libs) (image_pth : string) (w : world) :
  exists evs,
    log (run L (Engine.infer image_pth) w).2 = log w ++ evs /\
    head evs = Some EvCudaEmptyCache /\
    forall i ev, evs !! i = Some ev -> is_model_call ev = true ->
      purged_before evs i = true /\
      (came_back evs i = true -> purged_after evs i = true).
Proof. apply infer_log. Qed.

(** C6, as stated, fails: when the model raises, no purge follows it. *)
Lemma no_purge_after_failed_inference :
  let evs := log (run Fake.lib (Engine.infer "/tmp/missing.jpg") Fake.boot).2 in
  exists ev,
    evs !! 2%nat = Some ev /\ is_model_call ev = true /\
    purged_before evs 2 = true /\ purged_after evs 2 = false.
Proof. vm_compute. by eexists. Qed.

(** ** The extension hint of the transformer service *)

Lemma stage_and_infer_log (L : libs) image_data suffix w :
  exists evs,
    log (run L (DeepSeek.stage_and_infer L image_data suffix) w).2 =
      log w ++ EvNamedTemporaryFile suffix :: evs.
Proof.
  unfold DeepSeek.stage_and_infer, with_NamedTemporaryFile. cbn.
  exec_step.
  match goal with |- context [run L ?p ?w'] => destruct (run_log L p w') as [evs Hevs] end.
  rewrite Hevs, E. eexists. by rewrite <- app_assoc.
Qed.

(** The image checks of the transformer handlers, when they pass. *)
Lemma deepseek_checks_pass (L : libs) (s : shape) data im w :
  buffer s = Ok data ->
  Image_open L data = Ok im ->
  Image_verify L im = Ok tt ->
  run L (deepseek_ocr L s) w =
    run L (DeepSeek.stage_and_infer L data (DeepSeek.suffix_of im))
      (emit EvImageVerify (emit (EvImageOpen data) (emit (fetch_event s) w))).
Proof.
  intros Hbuf Hopen Hver.
  destruct s as [file|b|b]; simpl in Hbuf; unfold deepseek_ocr,
    DeepSeek.perform_ocr, DeepSeek.perform_ocr_base46, DeepSeek.perform_ocr_base64_json;
    rewrite run_bind.
  all: match goal with |- match ?r with _ => _ end = run _ _ ?w3 =>
         assert (Hr : r = (Returned (data, DeepSeek.suffix_of im), w3))
       end.
  all: try (cbn; unfold exec_op; cbn; rewrite Hbuf; cbn; unfold exec_op; cbn;
            rewrite Hopen; cbn; unfold exec_op; cbn; by rewrite Hver).
  all: by rewrite Hr.
Qed.

(** C8, as the code has it: for an image that [Image.open] and [verify]
    accept, the suffix asked of [NamedTemporaryFile] is a dot followed by
    the lower-cased format name, and empty when there is no format. *)
Theorem extension_hint (L : libs) (s : shape) (data : bytes) (im : image) (w : world) :
  buffer s = Ok data ->
  Image_open L data = Ok im ->
  Image_verify L im = Ok tt ->
  exists hint evs,
    log (run L (deepseek_ocr L s) w).2 =
      log w ++ [fetch_event s; EvImageOpen data; EvImageVerify;
                EvNamedTemporaryFile hint] ++ evs /\
    (forall f, format im = Some f -> f <> "" -> hint = "." +:+ lower f) /\
    (format im = None \/ format im = Some "" -> hint = "").
Proof.
  intros Hbuf Hopen Hver. exists (DeepSeek.suffix_of im).
  rewrite (deepseek_checks_pass L s data im w Hbuf Hopen Hver).
  match goal with |- context [run L (DeepSeek.stage_and_infer L ?d ?x) ?w'] =>
    destruct (stage_and_infer_log L d x w') as [evs Hevs] end.
  exists evs. split; [rewrite Hevs; cbn; by rewrite <- !app_assoc|].
  unfold DeepSeek.suffix_of. split.
  - intros f -> Hf. by destruct f.
  - by intros [->| ->].
Qed.

(** C8, as stated, fails: the hint is not the bare lower-cased format. *)
Lemma hint_has_a_dot :
  let im := {| format := Some "JPEG"; fp := Fake.picture |} in
  Image_open Fake.lib Fake.picture = Ok im /\
  Image_verify Fake.lib im = Ok tt /\
  DeepSeek.suffix_of im = ".jpeg" /\
  DeepSeek.suffix_of im <> lower "JPEG" /\
  log (run Fake.lib (DeepSeek.perform_ocr Fake.lib (Fake.upload Fake.picture)) Fake.boot).2
    !! 3%nat = Some (EvNamedTemporaryFile ".jpeg").
Proof. vm_compute. by repeat split. Qed.

(** ** The classical service keeps no state *)

Section Stateless.
Context (L : libs).

Lemma pure_effect_result {X} (o : eff X) :
  pure_effect o = true ->
  exists x, forall w, exists w', exec_op L o w = Some (x, w').
Proof.
  destruct o; try discriminate; intros _; unfold exec_op; cbn [perform];
    eexists; intros w; by eexists.
Qed.

Lemma stateless_run {A} (p : prog A) w1 w2 :
  stateless p -> (run L p w1).1 = (run L p w2).1.
Proof.
  revert w1 w2. induction p as [a|e|X o k IH]; intros w1 w2 Hp; [done..|].
  destruct Hp as [Ho Hk]. destruct (pure_effect_result o Ho) as [x Hx].
  destruct (Hx w1) as [w1' H1]. destruct (Hx w2) as [w2' H2].
  cbn. rewrite H1, H2. by apply IH.
Qed.

Lemma stateless_bind {A B} (p : prog A) (f : A -> prog B) :
  stateless p -> (forall a, stateless (f a)) -> stateless (bind p f).
Proof. induction p; simpl; naive_solver. Qed.

Lemma stateless_try_except {A} (p : prog A) h :
  stateless p -> (forall e q, h e = Some q -> stateless q) ->
  stateless (try_except p h).
Proof.
  induction p as [a|e|X o k IH]; simpl; [done| |naive_solver].
  intros _ Hh. destruct (h e) eqn:E; [by eapply Hh|done].
Qed.

Lemma stateless_call {X} (o : eff (result X)) :
  pure_effect o = true -> stateless (call o).
Proof. intros Ho. split; [done|]. by intros []. Qed.

Ltac stateless_step :=
  first
    [ done
    | apply stateless_call; done
    | apply stateless_bind; [|intros ?]
    | apply stateless_try_except; [|intros ? ? ?; repeat case_match; simplify_eq] ].

Lemma stateless_Tesseract_app (Language : enum) r :
  stateless (Tesseract.app L Language r).
Proof.
  destruct r as [|file|file lang|s lang|[s lang]|]; simpl Tesseract.app;
    unfold Tesseract.root, Tesseract.file_to_base64, Tesseract.perform_ocr,
      Tesseract.perform_ocr_base46, Tesseract.perform_ocr_base64_json,
      Tesseract.get_supported_languages, Tesseract.Form_language.
  all: repeat (repeat stateless_step; repeat case_match).
Qed.

End Stateless.

(** C7: what a handler of the classical service answers is a function of
    the request and of the libraries' (deterministic) functions alone:
    whatever happened before, in whatever state the process is, the same
    request gets the same answer; in particular twice in a row. *)
Theorem tesseract_is_stateless (L : libs) (Language : enum) (r : Tesseract.request) :
  (forall w1 w2,
     (run L (Tesseract.app L Language r) w1).1 = (run L (Tesseract.app L Language r) w2).1) /\
  (forall w,
     let first := run L (Tesseract.app L Language r) w in
     let second := run L (Tesseract.app L Language r) first.2 in
     second.1 = first.1 /\ first.1 <> Blocked).
Proof.
  split.
  - intros w1 w2. apply stateless_run, stateless_Tesseract_app.
  - intros w. split.
    + apply stateless_run, stateless_Tesseract_app.
    + by destruct (tidy_ends L (locked w) [] _ w
                     (tidy_Tesseract_app L (locked w) Language r) eq_refl).
Qed.

(** The transformer service is not like that: what its handlers do depends
    on the lock. *)
Example deepseek_depends_on_the_lock :
  let r := DeepSeek.app Fake.lib (DeepSeek.POST_ocr (Fake.upload Fake.picture)) in
  (run Fake.lib r Fake.boot).1 =
    Returned (JSONResponse 200 (JDict [("extracted_text", JString "# text")])) /\
  (run Fake.lib r (set_locked true Fake.boot)).1 = Blocked.
Proof. vm_compute. by split. Qed.

(** ** Failure responses *)

Lemma last_raised_app evs1 evs2 e :
  last_raised evs2 = Some e -> last_raised (evs1 ++ evs2) = Some e.
Proof.
  unfold last_raised. rewrite omap_app. intros H.
  destruct (omap _ evs2) as [|x l] using rev_ind; [done|].
  rewrite app_assoc, last_snoc. by rewrite last_snoc in H.
Qed.

(** Case analysis on whatever the next step of a run depends on. *)
Ltac explore :=
  repeat first
    [ match goal with
      | |- context [exec_op ?L Suspended ?w] =>
          change (exec_op L Suspended w) with (@None (Empty_set * world)); cbn
      end
    | exec_step
    | match goal with
      | H : True |- _ => clear H
      | H : exists c t, _ = PyErr c t |- _ => destruct H as (? & ? & ->)
      end
    | match goal with
      | |- context [match ?r with Ok _ => _ | Err _ => _ end] =>
          is_var r; destruct r; cbn in *
      | |- context [match ?r with Some _ => _ | None => _ end] =>
          is_var r; destruct r; cbn in *
      | |- context [if is_UnidentifiedImageError ?e then _ else _] =>
          destruct (is_UnidentifiedImageError e) eqn:?; cbn in *
      | |- context [if is_Exception ?e then _ else _] =>
          destruct (is_Exception e) eqn:?; cbn in *
      end ].

Lemma stage_and_infer_wraps (L : libs) image_data suffix w st d :
  (run L (DeepSeek.stage_and_infer L image_data suffix) w).1 = Raised (HTTPException st d) ->
  exists evs e,
    log (run L (DeepSeek.stage_and_infer L image_data suffix) w).2 = log w ++ evs /\
    last_raised evs = Some e /\
    st = 500 /\ d = wrapped L "Error during OCR" e.
Proof.
  revert st d.
  unfold DeepSeek.stage_and_infer, with_NamedTemporaryFile, async_with_lock, to_thread,
    attempt, suspended, Engine.infer, with_TemporaryDirectory.
  cbn. explore.
  all: cbn [fst snd]; intros st d Hr; simplify_eq; try discriminate.
  all: eexists _, _.
  all: split; [log_done; reflexivity|].
  all: by repeat split.
Qed.

#[global] Arguments DeepSeek.stage_and_infer : simpl never.

Lemma enum_call_member (E : enum) m : m ∈ E -> is_Some (enum_call E (value m)).
Proof.
  unfold enum_call. induction E as [|m' E' IH]; intros Hin; [by apply elem_of_nil in Hin|].
  simpl. destruct (String.eqb_spec (value m') (value m)) as [_|Hne]; [done|].
  apply elem_of_cons in Hin as [->|Hin]; [done|]. by apply IH.
Qed.

Lemma tesseract_ocr_wraps (L : libs) (Language : enum) s lang w st d :
  lang ∈ Language ->
  (run L (tesseract_ocr L Language s lang) w).1 = Raised (HTTPException st d) ->
  exists evs e,
    log (run L (tesseract_ocr L Language s lang) w).2 = log w ++ evs /\
    last_raised evs = Some e /\
    ((st = 400 /\ exists msg, d = wrapped L msg e) \/
     (st = 500 /\ d = wrapped L "Error during OCR" e)).
Proof.
  intros Hin. destruct (enum_call_member Language lang Hin) as [m Hm]. revert st d.
  destruct s as [file|b|b]; unfold tesseract_ocr, Tesseract.perform_ocr,
    Tesseract.perform_ocr_base46, Tesseract.perform_ocr_base64_json; cbn;
    rewrite ?Hm; cbn; explore.
  all: cbn [fst snd]; intros st d Hr; simplify_eq; try discriminate.
  all: eexists _, _.
  all: split; [log_done; reflexivity|].
  all: split; [reflexivity|].
  all: first [left; split; [done|]; by eexists | right; by split].
Qed.

Lemma deepseek_ocr_wraps (L : libs) s w st d :
  (run L (deepseek_ocr L s) w).1 = Raised (HTTPException st d) ->
  exists evs e,
    log (run L (deepseek_ocr L s) w).2 = log w ++ evs /\
    last_raised evs = Some e /\
    ((st = 400 /\ is_UnidentifiedImageError e = true /\ d = JString "Invalid image file") \/
     (st = 400 /\ is_UnidentifiedImageError e = false /\
      d = wrapped L "Could not process the uploaded file." e) \/
     (st = 500 /\ d = wrapped L "Error during OCR" e)).
Proof.
  revert st d.
  destruct s as [file|b|b] eqn:Es; unfold deepseek_ocr, DeepSeek.perform_ocr,
    DeepSeek.perform_ocr_base46, DeepSeek.perform_ocr_base64_json, DeepSeek.except_image.
  all: cbn; explore.
  all: cbn [fst snd]; intros st d Hr.
  all: try match goal with Hr : (run ?L' (DeepSeek.stage_and_infer _ ?x ?y) ?w').1 = _ |- _ =>
        destruct (stage_and_infer_wraps L' x y w' _ _ Hr) as (evs & e & Hlog & Hlast & -> & ->);
        clear Hr; exists ([fetch_event s; EvImageOpen x; EvImageVerify] ++ evs), e;
        split; [rewrite Hlog; log_done; by subst s|];
        split; [by apply last_raised_app|]; right; right; by split
      end.
  all: simplify_eq; try discriminate.
  all: eexists _, _; split; [log_done; reflexivity|]; split; [reflexivity|].
  all: first [left; by repeat split | right; left; by repeat split ].
Qed.

Lemma file_to_base64_detail (L : libs) (file : UploadFile) w st d :
  ((run L (Tesseract.file_to_base64 file) w).1 = Raised (HTTPException st d) ->
   st = 400 /\ d = JString "Could not process the uploaded file.") /\
  ((run L (DeepSeek.file_to_base64 file) w).1 = Raised (HTTPException st d) ->
   st = 400 /\ d = JString "Could not process the uploaded file.").
Proof.
  unfold Tesseract.file_to_base64, DeepSeek.file_to_base64. cbn.
  split; explore; cbn [fst snd]; intros Hr; simplify_eq; try discriminate; done.
Qed.

(** C5, as the code has it: a 400 or 500 raised by an OCR route of either
    service carries, next to its message, the text of the exception that
    was caught (the last one a library raised), in the field [error]; the
    exceptions are the 400 of the transformer service for an unidentified
    image, whose detail is the bare string "Invalid image file", and the 400
    of [/file-to-base64], whose detail is a fixed string as well. *)
Theorem failure_carries_error_text (L : libs) (Language : enum) (s : shape)
    (lang : member) (file : UploadFile) (w : world) :
  lang ∈ Language ->
  (forall st d,
     (run L (tesseract_ocr L Language s lang) w).1 = Raised (HTTPException st d) ->
     exists evs e,
       log (run L (tesseract_ocr L Language s lang) w).2 = log w ++ evs /\
       last_raised evs = Some e /\
       ((st = 400 /\ exists msg, d = wrapped L msg e) \/
        (st = 500 /\ d = wrapped L "Error during OCR" e))) /\
  (forall st d,
     (run L (deepseek_ocr L s) w).1 = Raised (HTTPException st d) ->
     exists evs e,
       log (run L (deepseek_ocr L s) w).2 = log w ++ evs /\
       last_raised evs = Some e /\
       ((st = 400 /\ is_UnidentifiedImageError e = true /\
         d = JString "Invalid image file") \/
        (st = 400 /\ is_UnidentifiedImageError e = false /\
         d = wrapped L "Could not process the uploaded file." e) \/
        (st = 500 /\ d = wrapped L "Error during OCR" e))) /\
  (forall st d,
     (run L (Tesseract.file_to_base64 file) w).1 = Raised (HTTPException st d) \/
     (run L (DeepSeek.file_to_base64 file) w).1 = Raised (HTTPException st d) ->
     st = 400 /\ d = JString "Could not process the uploaded file.").
Proof.
  intros Hin. split; [|split].
  - intros st d. by apply tesseract_ocr_wraps.
  - intros st d. apply deepseek_ocr_wraps.
  - intros st d [H|H]; by apply (file_to_base64_detail L file w st d).
Qed.

(** C5, as stated, fails: the 400 of [/file-to-base64] and the 400 of the
    transformer service for an unidentified image have no [error] field,
    though an exception with a text was caught. *)
Lemma failure_without_error_text :
  let r1 := run Fake.lib (Tesseract.file_to_base64 Fake.unreadable) Fake.boot in
  let r2 := run Fake.lib (DeepSeek.file_to_base64 Fake.unreadable) Fake.boot in
  let r3 := run Fake.lib (deepseek_ocr Fake.lib (Upload (Fake.upload [x00]%byte))) Fake.boot in
  last_raised (log r1.2) = Some (PyErr (OtherException "OSError") "connection lost") /\
  http_reply r1.1 =
    Some (JSONResponse 400
            (JDict [("detail", JString "Could not process the uploaded file.")])) /\
  http_reply r2.1 = http_reply r1.1 /\
  last_raised (log r3.2) =
    Some (PyErr UnidentifiedImageError "cannot identify image file") /\
  http_reply r3.1 =
    Some (JSONResponse 400 (JDict [("detail", JString "Invalid image file")])) /\
  field "error" (JString "Could not process the uploaded file.") = None /\
  field "error" (JString "Invalid image file") = None.
Proof. vm_compute. by repeat split. Qed.

(** ** Buffers that are not images *)

(** C4, as the code has it: a buffer on which [Image.open] raises
    (classical service), or on which [Image.open] or [verify] raises
    (transformer service), is answered 400 whatever the input shape, and no
    engine is called.  A buffer that passes these checks goes on, whether or
    not it can be decoded in full: to the recognition call on the classical
    service, to the staging of the temporary file on the transformer
    service; what the engine then raises is answered 500. *)
Theorem rejected_buffer_is_400 (L : libs) (Language : enum) (s : shape)
    (lang : member) (data : bytes) (w : world) :
  lang ∈ Language ->
  buffer s = Ok data ->
  (forall e, is_Exception e = true ->
     Image_open L data = Err e ->
     rejected_before_engine L (tesseract_ocr L Language s lang) w) /\
  (forall e, is_Exception e = true ->
     Image_open L data = Err e \/
     (exists im, Image_open L data = Ok im /\ Image_verify L im = Err e) ->
     rejected_before_engine L (deepseek_ocr L s) w) /\
  (forall im, Image_open L data = Ok im ->
     (exists evs,
        log (run L (tesseract_ocr L Language s lang) w).2 =
          log w ++ [fetch_event s; EvImageOpen data; EvImageToString (value lang)] ++ evs) /\
     (forall e, image_to_string L im (value lang) = Err e -> is_Exception e = true ->
        (run L (tesseract_ocr L Language s lang) w).1 =
          Raised (HTTPException 500 (wrapped L "Error during OCR" e)))) /\
  (forall im, Image_open L data = Ok im -> Image_verify L im = Ok tt ->
     (exists evs,
        log (run L (deepseek_ocr L s) w).2 =
          log w ++ [fetch_event s; EvImageOpen data; EvImageVerify;
                    EvNamedTemporaryFile (DeepSeek.suffix_of im)] ++ evs) /\
     (forall st d, (run L (deepseek_ocr L s) w).1 = Raised (HTTPException st d) ->
        st = 500)).
Proof.
  intros Hin Hbuf. destruct (enum_call_member Language lang Hin) as [m Hm].
  unfold rejected_before_engine. split_and!.
  - intros e He Hopen.
    destruct s as [file|b|b]; simpl in Hbuf; unfold tesseract_ocr, Tesseract.perform_ocr,
      Tesseract.perform_ocr_base46, Tesseract.perform_ocr_base64_json; cbn;
      rewrite ?Hm; cbn; unfold exec_op; cbn; rewrite Hbuf; cbn; unfold exec_op; cbn;
      rewrite Hopen; cbn; rewrite He; cbn.
    all: eexists _, _; split; [reflexivity|]; split; [reflexivity|].
    all: split; [rewrite <- !app_assoc; reflexivity|reflexivity].
  - intros e He Hrej.
    destruct s as [file|b|b]; simpl in Hbuf; unfold deepseek_ocr, DeepSeek.perform_ocr,
      DeepSeek.perform_ocr_base46, DeepSeek.perform_ocr_base64_json, DeepSeek.except_image;
      cbn; unfold exec_op; cbn; rewrite Hbuf; cbn; unfold exec_op; cbn.
    all: destruct Hrej as [Hopen|(im & Hopen & Hver)]; rewrite Hopen; cbn;
      [|unfold exec_op; cbn; rewrite Hver; cbn].
    all: destruct (is_UnidentifiedImageError e); cbn; rewrite ?He; cbn.
    all: eexists _, _; split; [reflexivity|]; split; [reflexivity|].
    all: split; [rewrite <- !app_assoc; reflexivity|reflexivity].
  - intros im Hopen.
    destruct s as [file|b|b]; simpl in Hbuf; unfold tesseract_ocr, Tesseract.perform_ocr,
      Tesseract.perform_ocr_base46, Tesseract.perform_ocr_base64_json; cbn;
      rewrite ?Hm; cbn; unfold exec_op; cbn; rewrite Hbuf; cbn; unfold exec_op; cbn;
      rewrite Hopen; cbn; unfold exec_op; cbn.
    all: destruct (image_to_string L im (value lang)) as [text|e'] eqn:Hocr; cbn.
    all: split; [|intros e [= <-] He; rewrite ?He; try done].
    all: try destruct (is_Exception e'); cbn; rewrite ?Hm; cbn.
    all: eexists; rewrite <- !app_assoc; reflexivity.
  - intros im Hopen Hver.
    rewrite (deepseek_checks_pass L s data im w Hbuf Hopen Hver). split.
    + match goal with |- context [run L (DeepSeek.stage_and_infer L ?d ?x) ?w'] =>
        destruct (stage_and_infer_log L d x w') as [evs Hevs] end.
      exists evs. rewrite Hevs. cbn. by rewrite <- !app_assoc.
    + intros st d Hr.
      by destruct (stage_and_infer_wraps L _ _ _ _ _ Hr) as (_ & _ & _ & _ & -> & _).
Qed.

(** C4, as stated, fails: a buffer with a good header and nothing after it
    cannot be decoded, passes [Image.open] (and [verify]), reaches the
    engine and is answered 500, on both services. *)
Lemma truncated_image_gets_500 :
  let s := Upload (Fake.upload Fake.magic) in
  let r1 := run Fake.lib (tesseract_ocr Fake.lib Fake.Language s (Member "English" "eng"))
              Fake.boot in
  let r2 := run Fake.lib (deepseek_ocr Fake.lib s) Fake.boot in
  buffer s = Ok Fake.magic /\
  decodable Fake.lib Fake.magic = false /\
  (status <$> http_reply r1.1) = Some 500 /\
  existsb is_engine_call (log r1.2) = true /\
  (status <$> http_reply r2.1) = Some 500 /\
  existsb is_engine_call (log r2.2) = true.
Proof. vm_compute. by repeat split. Qed.

(** ** The theorems at work on the stand-in libraries *)

Lemma file_to_base64_round_trip_witness :
  read (Fake.upload Fake.picture) = Ok Fake.picture /\
  exists s,
    (run Fake.lib (Tesseract.file_to_base64 (Fake.upload Fake.picture)) Fake.boot).1 =
      Returned (JSONResponse 200
                  (JDict [("filename", JString "scan.jpg");
                          ("base64_string", JString s)])) /\
    (run Fake.lib (DeepSeek.file_to_base64 (Fake.upload Fake.picture)) Fake.boot).1 =
      Returned (JSONResponse 200
                  (JDict [("filename", JString "scan.jpg");
                          ("base64_string", JString s)])) /\
    b64decode s = Ok Fake.picture.
Proof.
  split; [reflexivity|].
  apply (file_to_base64_round_trip Fake.lib (Fake.upload Fake.picture) Fake.picture Fake.boot).
  reflexivity.
Defined.


Lemma unsupported_language_is_422_witness :
  let request := {| Tesseract.base64_string := "!!"; Tesseract.language := "xx" |} in
("xx" ∉ value <$> Fake.Language) /\
  exists allowed,
    run Fake.lib (Tesseract.perform_ocr_base64_json Fake.lib Fake.Language request)
      Fake.boot =
      (Raised (HTTPException 422
                 (JDict [("invalid language entry", JString "xx");
                         ("allowed languages", JList (JString <$> allowed))])),
       Fake.boot) /\
    Sorted String.le allowed /\
    (forall c, c ∈ allowed <-> c ∈ value <$> Fake.Language).
Proof.
  assert (H : ("xx" ∉ value <$> Fake.Language)).
  { apply (bool_decide_unpack _). vm_compute. exact I. }
  split; [exact H|].
  destruct (unsupported_language_is_422 Fake.lib Fake.Language
              {| Tesseract.base64_string := "!!"; Tesseract.language := "xx" |}
              Fake.boot H) as (allowed & Hrun & _ & Hsorted & _ & Hall).
  exists allowed. auto.
Defined.

Lemma rejected_buffer_is_400_witness :
  let s := Upload (Fake.upload [x00]%byte) in
  let e := PyErr UnidentifiedImageError "cannot identify image file" in
  Member "English" "eng" ∈ Fake.Language /\
  buffer s = Ok [x00]%byte /\
  is_Exception e = true /\
  Image_open Fake.lib [x00]%byte = Err e /\
  rejected_before_engine Fake.lib
    (tesseract_ocr Fake.lib Fake.Language s (Member "English" "eng")) Fake.boot /\
  rejected_before_engine Fake.lib (deepseek_ocr Fake.lib s) Fake.boot.
Proof.
  assert (Hin : Member "English" "eng" ∈ Fake.Language) by (by left).
  do 4 (split; [first [exact Hin|reflexivity]|]).
  destruct (rejected_buffer_is_400 Fake.lib Fake.Language
              (Upload (Fake.upload [x00]%byte)) (Member "English" "eng") [x00]%byte
              Fake.boot Hin eq_refl) as (H1 & H2 & _).
  split.
  - apply (H1 (PyErr UnidentifiedImageError "cannot identify image file")); reflexivity.
  - apply (H2 (PyErr UnidentifiedImageError "cannot identify image file"));
      [reflexivity|left; reflexivity].
Defined.

Lemma failure_carries_error_text_witness :
  let s := Upload (Fake.upload Fake.magic) in
  Member "English" "eng" ∈ Fake.Language /\
  (run Fake.lib (deepseek_ocr Fake.lib s) Fake.boot).1 =
    Raised (HTTPException 500 (wrapped Fake.lib "Error during OCR" Fake.truncated)) /\
  exists evs e,
    log (run Fake.lib (deepseek_ocr Fake.lib s) Fake.boot).2 = log Fake.boot ++ evs /\
    last_raised evs = Some e /\
    wrapped Fake.lib "Error during OCR" Fake.truncated =
      wrapped Fake.lib "Error during OCR" e.
Proof.
  assert (Hin : Member "English" "eng" ∈ Fake.Language) by (by left).
  assert (Hrun : (run Fake.lib (deepseek_ocr Fake.lib (Upload (Fake.upload Fake.magic)))
                    Fake.boot).1 =
                 Raised (HTTPException 500
                           (wrapped Fake.lib "Error during OCR" Fake.truncated)))
    by (vm_compute; reflexivity).
  split; [exact Hin|]. split; [exact Hrun|].
  destruct (proj1 (proj2 (failure_carries_error_text Fake.lib Fake.Language
                            (Upload (Fake.upload Fake.magic)) (Member "English" "eng")
                            Fake.unreadable Fake.boot Hin)) _ _ Hrun)
    as (evs & e & Hlog & Hlast & [(H & _)|[(H & _)|(_ & Hd)]]); try discriminate H.
  exists evs, e. auto.
Defined.

Lemma extension_hint_witness :
  let s := Upload (Fake.upload Fake.picture) in
  let im := {| format := Some "JPEG"; fp := Fake.picture |} in
  buffer s = Ok Fake.picture /\
  Image_open Fake.lib Fake.picture = Ok im /\
  Image_verify Fake.lib im = Ok tt /\
  exists hint evs,
    log (run Fake.lib (deepseek_ocr Fake.lib s) Fake.boot).2 =
      log Fake.boot ++ [fetch_event s; EvImageOpen Fake.picture; EvImageVerify;
                        EvNamedTemporaryFile hint] ++ evs /\
    hint = ".jpeg".
Proof.
  repeat split; try reflexivity.
  destruct (extension_hint Fake.lib (Upload (Fake.upload Fake.picture)) Fake.picture
              {| format := Some "JPEG"; fp := Fake.picture |} Fake.boot
              eq_refl eq_refl eq_refl) as (hint & evs & Hlog & Hdot & _).
  exists hint, evs. split; [exact Hlog|]. by apply (Hdot "JPEG").
Defined.

Lemma default_language_is_Farsi_witness :
  let im := {| format := Some "JPEG"; fp := Fake.picture |} in
  Member "Farsi" "fas" ∈ Fake.Language /\
  NoDup (name <$> Fake.Language) /\
  NoDup (value <$> Fake.Language) /\
  read (Fake.upload Fake.picture) = Ok Fake.picture /\
  b64decode "/9j/AAECAw==" = Ok Fake.picture /\
  Image_open Fake.lib Fake.picture = Ok im /\
  image_to_string Fake.lib im "fas" = Ok "text in fas" /\
  (run Fake.lib
     (Tesseract.perform_ocr Fake.lib Fake.Language (Fake.upload Fake.picture) None)
     Fake.boot).1 =
    Returned (JSONResponse 200
                (JDict [("language", JString "Farsi");
                        ("extracted_text", JString "text in fas")])) /\
  (run Fake.lib
     (Tesseract.perform_ocr_base46 Fake.lib Fake.Language "/9j/AAECAw==" None)
     Fake.boot).1 =
    Returned (JSONResponse 200
                (JDict [("language", JString "Farsi");
                        ("extracted_text", JString "text in fas")])).
Proof.
  assert (Hin : Member "Farsi" "fas" ∈ Fake.Language) by (right; left).
  assert (Hn : NoDup (name <$> Fake.Language)).
  { apply (bool_decide_unpack _). vm_compute. exact I. }
  assert (Hv : NoDup (value <$> Fake.Language)).
  { apply (bool_decide_unpack _). vm_compute. exact I. }
  assert (Hdec : b64decode "/9j/AAECAw==" = Ok Fake.picture) by (vm_compute; reflexivity).
  do 7 (split; [first [assumption|reflexivity]|]).
  destruct (default_language_is_Farsi Fake.lib Fake.Language "fas"
              (Fake.upload Fake.picture) "/9j/AAECAw==" Fake.picture
              {| format := Some "JPEG"; fp := Fake.picture |} Fake.boot
              Hin Hn Hv eq_refl Hdec eq_refl) as (_ & _ & H).
  exact (H "text in fas" eq_refl).
Defined.

(** One request arrives at a fresh process and is served up to the point
    where its inference has started. *)
Ltac pool_effect :=
  eapply rtc_l;
  [ eapply (step_effect _ _ _ _ 0%nat); [reflexivity|vm_compute; reflexivity] | ];
  cbn [list_insert insert].



(** ** Runs of the engine and of the staged request, step by step *)

(** The next effect of a run is performed on a world given field by field,
    and the program that remains is brought back to its next effect. *)
Ltac wsimpl :=
  cbn [disk draws locked running log set_disk set_draws set_locked set_running emit
       note_raised err_of perform event_of raised fst snd outcome written
       image_file output_path bind try_except try_finally].

Ltac wnorm :=
  cbv [set_disk set_draws set_locked set_running emit disk draws locked running log].

Section InferRun.
Context (L : libs).

Lemma file_data_insert_fresh (d : gmap string node) dir entry pth :
  d !! dir = None -> (forall data, entry <> File data) ->
  file_data (<[dir := entry]> d) pth = file_data d pth.
Proof.
  intros Hd He. unfold file_data. destruct (decide (dir = pth)) as [->|Hne].
  - rewrite lookup_insert_eq, Hd. destruct entry; [by destruct (He data)|done].
  - by rewrite lookup_insert_ne.
Qed.

Lemma scratch_gone (d : gmap string node) k f entry :
  d !! k = None -> delete k (alter f k (<[k := entry]> d)) = d.
Proof.
  intros Hk. apply map_eq. intros i. destruct (decide (i = k)) as [->|Hne].
  - by rewrite lookup_delete_eq.
  - by rewrite lookup_delete_ne, lookup_alter_ne, lookup_insert_ne.
Qed.

Lemma staged_data (d : gmap string node) tmp data :
  alter (append_data data) tmp (<[tmp := File []]> d) = <[tmp := File data]> d.
Proof.
  apply map_eq. intros i. destruct (decide (i = tmp)) as [->|Hne].
  - by rewrite lookup_alter_eq, !lookup_insert_eq.
  - by rewrite lookup_alter_ne, !lookup_insert_ne.
Qed.

Lemma file_data_staged (d : gmap string node) tmp data :
  file_data (<[tmp := File data]> d) tmp = Some data.
Proof. unfold file_data. by rewrite lookup_insert_eq. Qed.

Lemma saved_text (files : gmap string string) dir (d : gmap string node) :
  read_text L (alter (save_into files) dir (<[dir := Dir ∅]> d)) dir "result.mmd" =
    read_saved L files dir.
Proof.
  unfold read_text, read_saved. rewrite lookup_alter_eq, lookup_insert_eq.
  cbn [fmap option_fmap option_map save_into]. by rewrite (right_id_L ∅ (∪)).
Qed.

(** What is not a [StopIteration] is set on the future as it is. *)
Lemma set_exception_other e : is_StopIteration e = false -> set_exception L e = Some e.
Proof. unfold set_exception. by intros ->. Qed.

Lemma read_saved_other files tmpdir e :
  read_saved L files tmpdir = Err e -> is_StopIteration e = false.
Proof.
  unfold read_saved, decode_text.
  destruct (files !! "result.mmd") as [content|]; [|by intros [= <-]].
  destruct (utf_8_valid content); [done|]. by intros [= <-].
Qed.

End InferRun.

Ltac settle := cbn [run]; cbv beta iota zeta.

Ltac step := wsimpl; settle; rewrite exec_op_unfold; wsimpl; settle.

Section EngineRun.
Context (L : libs).

(** A run of [DeepSeekOCR.infer], from each state and to each of its ends. *)
Lemma infer_run image_pth d n0 l r evs :
  run L (Engine.infer image_pth) (World d n0 l r evs) =
    match mkstemp_inner L TMP_MAX "" d n0 with
    | (None, n) =>
        (Raised (no_usable_name "directory"),
         World d n l r
           (evs ++ [EvCudaEmptyCache; EvTemporaryDirectory;
                    EvRaised (no_usable_name "directory")]))
    | (Some tmpdir, n) =>
        let m := model_infer L (infer_call image_pth tmpdir) (file_data d image_pth) in
        match outcome m with
        | Err e =>
            (Raised e,
             World d n l r
               (evs ++ [EvCudaEmptyCache; EvTemporaryDirectory;
                        EvModelInfer (infer_call image_pth tmpdir); EvRaised e;
                        EvTmpCleanup tmpdir]))
        | Ok _ =>
            match read_saved L (written m) tmpdir with
            | Ok text =>
                (Returned text,
                 World d n l r
                   (evs ++ [EvCudaEmptyCache; EvTemporaryDirectory;
                            EvModelInfer (infer_call image_pth tmpdir); EvCudaEmptyCache;
                            EvOpenRead tmpdir "result.mmd"; EvTmpCleanup tmpdir]))
            | Err e =>
                (Raised e,
                 World d n l r
                   (evs ++ [EvCudaEmptyCache; EvTemporaryDirectory;
                            EvModelInfer (infer_call image_pth tmpdir); EvCudaEmptyCache;
                            EvOpenRead tmpdir "result.mmd"; EvRaised e;
                            EvTmpCleanup tmpdir]))
            end
        end
    end.
Proof.
  unfold Engine.infer, with_TemporaryDirectory, call, do.
  step. step. unfold create. wsimpl.
  destruct (mkstemp_inner L TMP_MAX "" d n0) as [[tmpdir|] n] eqn:Hname; wsimpl.
  2: { cbn [run]. wnorm. by rewrite <- !app_assoc. }
  pose proof (mkstemp_inner_free L _ _ _ _ _ _ Hname) as Hfree.
  step. fold (infer_call image_pth tmpdir).
  rewrite (file_data_insert_fresh _ _ _ _ Hfree) by done. cbv zeta.
  destruct (model_infer L (infer_call image_pth tmpdir) (file_data d image_pth))
    as [files [[]|e]]; wsimpl.
  - step. step. rewrite saved_text.
    destruct (read_saved L files tmpdir) as [text|e]; wsimpl.
    + step. cbn [run]. wnorm. rewrite scratch_gone by done. by rewrite <- !app_assoc.
    + step. cbn [run]. wnorm. rewrite scratch_gone by done. by rewrite <- !app_assoc.
  - step. cbn [run]. wnorm. rewrite scratch_gone by done. by rewrite <- !app_assoc.
Qed.

(** [DeepSeekOCR.infer] gives back the world it was given, the numbers
    drawn and the log apart. *)
Lemma infer_run_world image_pth w :
  disk (run L (Engine.infer image_pth) w).2 = disk w /\
  locked (run L (Engine.infer image_pth) w).2 = locked w /\
  running (run L (Engine.infer image_pth) w).2 = running w /\
  (run L (Engine.infer image_pth) w).1 <> Blocked.
Proof.
  destruct w as [d n0 l r evs]. rewrite infer_run. cbn [disk locked running].
  destruct (mkstemp_inner L TMP_MAX "" d n0) as [[tmpdir|] n]; [|done]. cbv zeta.
  destruct (outcome _); [|done]. by destruct (read_saved _ _ _).
Qed.

(** A run of the staged part of a transformer handler: the temporary file,
    the lock, the worker thread, the engine, the future. *)
Lemma stage_and_infer_run data suffix d n0 l r evs :
  run L (DeepSeek.stage_and_infer L data suffix) (World d n0 l r evs) =
    match mkstemp_inner L TMP_MAX suffix d n0 with
    | (None, n) =>
        (Raised (no_usable_name "file"),
         World d n l r
           (evs ++ [EvNamedTemporaryFile suffix; EvRaised (no_usable_name "file")]))
    | (Some tmp, n1) =>
        let staged := evs ++ [EvNamedTemporaryFile suffix; EvTmpWrite tmp] in
        if l then (Blocked, World (<[tmp := File data]> d) n1 true r staged)
        else
          let started := staged ++ [EvLockAcquire; EvThreadEnter] in
          let ended := [EvLockRelease; EvTmpClose tmp] in
          match run L (Engine.infer tmp)
                  (World (<[tmp := File data]> d) n1 true (S r) started) with
          | (Returned text, w) =>
              (Returned (JSONResponse 200 (JDict [("extracted_text", JString text)])),
               World d (draws w) false r (log w ++ EvThreadExit :: ended))
          | (Raised e, w) =>
              match set_exception L e with
              | Some e' =>
                  (Raised (if is_Exception e' then ocr_error L e' else e'),
                   World d (draws w) false r
                     (log w ++ [EvThreadExit; EvSetException e; EvRaised e'] ++ ended))
              | None =>
                  (Blocked,
                   World (<[tmp := File data]> d) (draws w) true r
                     (log w ++ [EvThreadExit; EvSetException e]))
              end
          | (Blocked, w) => (Blocked, w)
          end
    end.
Proof.
  unfold DeepSeek.stage_and_infer, with_NamedTemporaryFile, async_with_lock, to_thread,
    suspended, call, do.
  step. unfold create. wsimpl.
  destruct (mkstemp_inner L TMP_MAX suffix d n0) as [[tmp|] n1] eqn:Htmp; wsimpl.
  2: { cbn [run]. wnorm. by rewrite <- !app_assoc. }
  pose proof (mkstemp_inner_free L _ _ _ _ _ _ Htmp) as Hfree.
  step. step. cbv zeta. destruct l.
  { cbn [run]. wnorm. rewrite staged_data. by rewrite <- !app_assoc. }
  step. wnorm. rewrite staged_data, <- !app_assoc. cbn [app].
  rewrite run_bind, run_try_finally, run_try_except, run_try_finally, run_bind,
    run_bind, run_attempt.
  pose proof (infer_run_world tmp
    (World (<[tmp:=File data]> d) n1 true (S r)
       (evs ++ [EvNamedTemporaryFile suffix; EvTmpWrite tmp; EvLockAcquire; EvThreadEnter])))
    as (Hd & Hl & Hr & Hnb).
  destruct (run L (Engine.infer tmp) _) as [[text|e|] [d' n' l' r' evs']];
    cbn [disk locked running fst snd draws log] in *; subst; [| |done].
  - step. step. step. wnorm.
    rewrite delete_insert_eq, delete_id by done. by rewrite <- !app_assoc.
  - step. step. destruct (set_exception L e) as [e'|]; wsimpl; settle.
    + step. destruct (is_Exception e'); settle; step; wnorm;
        rewrite delete_insert_eq, delete_id by done; by rewrite <- !app_assoc.
    + rewrite exec_op_unfold. wsimpl. wnorm. by rewrite <- !app_assoc.
Qed.

End EngineRun.

Section TransformerRun.
Context (L : libs).

(** The image checks of the three transformer handlers either pass or end
    the request. *)
Lemma deepseek_checks (s : shape) :
  (exists data im,
     buffer s = Ok data /\ Image_open L data = Ok im /\ Image_verify L im = Ok tt) \/
  checks_fail L s.
Proof.
  unfold checks_fail.
  destruct (buffer s) as [data|e]; [|by right].
  destruct (Image_open L data) as [im|e] eqn:Hopen; [|by right].
  destruct (Image_verify L im) as [[]|e] eqn:Hver; [|by right].
  left. by exists data, im.
Qed.

Lemma deepseek_checks_fail (s : shape) w :
  checks_fail L s ->
  exists e w',
    run L (deepseek_ocr L s) w = (Raised e, w') /\
    (is_Exception e = true -> exists d, e = HTTPException 400 d).
Proof.
  unfold checks_fail.
  destruct s as [file|b|b]; simpl buffer; unfold deepseek_ocr, DeepSeek.perform_ocr,
    DeepSeek.perform_ocr_base46, DeepSeek.perform_ocr_base64_json, DeepSeek.except_image;
    cbn; rewrite !exec_op_unfold; wsimpl.
  all: match goal with |- context [match ?r with Ok _ => _ | Err _ => _ end] =>
         destruct r as [data|e] end; cbn.
  all: try (rewrite !exec_op_unfold; wsimpl; destruct (Image_open L data) as [im|e]; cbn).
  all: try (rewrite !exec_op_unfold; wsimpl; destruct (Image_verify L im) as [[]|e]; cbn;
            [by intros []|]).
  all: intros _; destruct (is_UnidentifiedImageError e); cbn;
       [|destruct (is_Exception e) eqn:He; cbn]; eexists _, _; split; try reflexivity;
       eauto; congruence.
Qed.

Lemma deepseek_staged_run (s : shape) data im d n0 l r evs :
  buffer s = Ok data ->
  Image_open L data = Ok im ->
  Image_verify L im = Ok tt ->
  run L (deepseek_ocr L s) (World d n0 l r evs) =
    run L (DeepSeek.stage_and_infer L data (DeepSeek.suffix_of im))
      (World d n0 l r (evs ++ [fetch_event s; EvImageOpen data; EvImageVerify])).
Proof.
  intros Hbuf Hopen Hver.
  rewrite (deepseek_checks_pass L s data im _ Hbuf Hopen Hver).
  wnorm. by rewrite <- !app_assoc.
Qed.

(** Reading in text mode, on examples: line ends of every kind come back
    as line feeds; the codec takes well-formed sequences of one to four
    bytes and refuses a stray continuation byte, an overlong form, a
    surrogate, a code point above U+10FFFF and a sequence cut short. *)
Example text_mode_vectors :
  universal_newlines ("a" +:+ String "013" ("b" +:+ String "013" (String "010" "c"))) =
    "a" +:+ String "010" ("b" +:+ String "010" "c") /\
  universal_newlines (String "010" (String "013" "")) = String "010" (String "010" "") /\
  utf_8_valid "# text" = true /\
  utf_8_valid (String (ascii_of_nat 195) (String (ascii_of_nat 169) "")) = true /\
  utf_8_valid (String (ascii_of_nat 226) (String (ascii_of_nat 130)
                 (String (ascii_of_nat 172) ""))) = true /\
  utf_8_valid (String (ascii_of_nat 240) (String (ascii_of_nat 159)
                 (String (ascii_of_nat 152) (String (ascii_of_nat 128) "")))) = true /\
  utf_8_valid (String (ascii_of_nat 233) "") = false /\
  utf_8_valid (String (ascii_of_nat 128) "") = false /\
  utf_8_valid (String (ascii_of_nat 192) (String (ascii_of_nat 128) "")) = false /\
  utf_8_valid (String (ascii_of_nat 224) (String (ascii_of_nat 128)
                 (String (ascii_of_nat 128) ""))) = false /\
  utf_8_valid (String (ascii_of_nat 237) (String (ascii_of_nat 160)
                 (String (ascii_of_nat 128) ""))) = false /\
  utf_8_valid (String (ascii_of_nat 244) (String (ascii_of_nat 144)
                 (String (ascii_of_nat 128) (String (ascii_of_nat 128) "")))) = false /\
  utf_8_valid (String (ascii_of_nat 226) (String (ascii_of_nat 130) "")) = false.
Proof. vm_compute. by repeat split. Qed.

(** X9: when [DeepSeekOCR.infer] returns a text, a directory that was not
    there before has been created, the model has been called on the image
    with that directory for its output and has come back without an
    exception, the file [result.mmd] it saved there is well-formed utf-8,
    and the text is that file as read in text mode: decoded, with every
    carriage return, alone or before a line feed, turned into a line feed.
    The effects happened in the order given, with a purge before and after
    the model, and the temporary directory, the lock and the count of
    inferences are as they were. *)
Theorem infer_returns_the_saved_text (image_pth : string) (w : world) (text : string) :
  (run L (Engine.infer image_pth) w).1 = Returned text ->
  exists tmpdir n saved,
    mkstemp_inner L TMP_MAX "" (disk w) (draws w) = (Some tmpdir, n) /\
    disk w !! tmpdir = None /\
    let m := model_infer L (infer_call image_pth tmpdir) (file_data (disk w) image_pth) in
    outcome m = Ok tt /\
    written m !! "result.mmd" = Some saved /\
    utf_8_valid saved = true /\
    text = universal_newlines saved /\
    (run L (Engine.infer image_pth) w).2 =
      World (disk w) n (locked w) (running w)
        (log w ++ [EvCudaEmptyCache; EvTemporaryDirectory;
                   EvModelInfer (infer_call image_pth tmpdir); EvCudaEmptyCache;
                   EvOpenRead tmpdir "result.mmd"; EvTmpCleanup tmpdir]).
Proof.
  destruct w as [d n0 l r0 evs]. rewrite infer_run. cbn [disk draws locked running log].
  destruct (mkstemp_inner L TMP_MAX "" d n0) as [[tmpdir|] n] eqn:Hname; [|done].
  cbv zeta.
  destruct (model_infer L (infer_call image_pth tmpdir) (file_data d image_pth))
    as [files [[]|e]] eqn:Hm; cbn [outcome written]; [|done].
  unfold read_saved, decode_text.
  destruct (files !! "result.mmd") as [saved|] eqn:Hsaved; [|done].
  destruct (utf_8_valid saved) eqn:Hvalid; [|done].
  cbn [fst snd]. intros [= <-].
  exists tmpdir, n, saved. split; [done|]. split; [by eapply mkstemp_inner_free|].
  cbv zeta. rewrite Hm. by repeat split.
Qed.

(** X10: a request to the transformer service, in any of the three shapes,
    whose image passes the checks, with the lock free and the two temporary
    names found, and on whose staged file (the bytes as submitted, under a
    name with the extension hint) the model succeeds and saves a
    [result.mmd] that is well-formed utf-8, is answered 200 with that file
    as read in text mode: its text with every carriage return, alone or
    before a line feed, turned into a line feed.  The steps happen in this
    order, the lock is taken after the staging and released before the
    file is removed, and nothing is left behind. *)
Theorem staged_image_is_inferred (s : shape) (data : bytes) (im : image)
    (tmp tmpdir : string) (n1 n2 : nat) (files : gmap string string) (saved : string)
    (w : world) :
  locked w = false ->
  buffer s = Ok data ->
  Image_open L data = Ok im ->
  Image_verify L im = Ok tt ->
  mkstemp_inner L TMP_MAX (DeepSeek.suffix_of im) (disk w) (draws w) = (Some tmp, n1) ->
  mkstemp_inner L TMP_MAX "" (<[tmp := File data]> (disk w)) n1 = (Some tmpdir, n2) ->
  model_infer L (infer_call tmp tmpdir) (Some data) =
    {| written := files; outcome := Ok tt |} ->
  files !! "result.mmd" = Some saved ->
  utf_8_valid saved = true ->
  run L (deepseek_ocr L s) w =
    (Returned (JSONResponse 200
                 (JDict [("extracted_text", JString (universal_newlines saved))])),
     World (disk w) n2 false (running w)
       (log w ++ [fetch_event s; EvImageOpen data; EvImageVerify;
                  EvNamedTemporaryFile (DeepSeek.suffix_of im); EvTmpWrite tmp;
                  EvLockAcquire; EvThreadEnter; EvCudaEmptyCache; EvTemporaryDirectory;
                  EvModelInfer (infer_call tmp tmpdir); EvCudaEmptyCache;
                  EvOpenRead tmpdir "result.mmd"; EvTmpCleanup tmpdir;
                  EvThreadExit; EvLockRelease; EvTmpClose tmp])).
Proof.
  destruct w as [d n0 l r evs]. cbn [disk draws locked running log].
  intros -> Hbuf Hopen Hver Htmp Hdir Hm Hres Hvalid.
  rewrite (deepseek_staged_run s data im) by done.
  rewrite stage_and_infer_run, Htmp. cbv zeta.
  rewrite infer_run, Hdir. cbv zeta.
  rewrite file_data_staged, Hm. cbn [outcome written].
  unfold read_saved, decode_text. rewrite Hres, Hvalid.
  cbn [draws log]. by rewrite <- !app_assoc.
Qed.



(** X13: a request that finds the lock taken waits with its image
    already staged: the temporary file exists and holds the whole buffer,
    and neither a purge nor the model has been called. *)
Theorem waiting_request_has_staged_its_file (s : shape) (data : bytes) (im : image)
    (tmp : string) (n1 : nat) (w : world) :
  locked w = true ->
  buffer s = Ok data ->
  Image_open L data = Ok im ->
  Image_verify L im = Ok tt ->
  mkstemp_inner L TMP_MAX (DeepSeek.suffix_of im) (disk w) (draws w) = (Some tmp, n1) ->
  run L (deepseek_ocr L s) w =
    (Blocked,
     World (<[tmp := File data]> (disk w)) n1 true (running w)
       (log w ++ [fetch_event s; EvImageOpen data; EvImageVerify;
                  EvNamedTemporaryFile (DeepSeek.suffix_of im); EvTmpWrite tmp])).
Proof.
  destruct w as [d n0 l r evs]. cbn [disk draws locked running log].
  intros -> Hbuf Hopen Hver Htmp.
  rewrite (deepseek_staged_run s data im) by done.
  rewrite stage_and_infer_run, Htmp. cbv zeta. by rewrite <- !app_assoc.
Qed.


End TransformerRun.

(** ** The classical service, route by route *)

Section Classical.
Context (L : libs) (Language : enum).

(** X1: on the classical service, a request in any of the three shapes
    whose buffer [Image.open] accepts and on whose image the recognition
    returns is answered 200 with the name of the language and the text as
    recognised, empty or not; nothing else is called on the way. *)
Theorem recognised_text_is_returned (s : shape) (lang : member) (data : bytes)
    (im : image) (text : string) (w : world) :
  enum_call Language (value lang) = Some lang ->
  buffer s = Ok data ->
  Image_open L data = Ok im ->
  image_to_string L im (value lang) = Ok text ->
  run L (tesseract_ocr L Language s lang) w =
    (Returned (JSONResponse 200
                 (JDict [("language", JString (name lang));
                         ("extracted_text", JString text)])),
     emit (EvImageToString (value lang)) (emit (EvImageOpen data) (emit (fetch_event s) w))).
Proof.
  intros Hlang Hbuf Hopen Hocr.
  destruct s as [file|b|b]; simpl in Hbuf; unfold tesseract_ocr, Tesseract.perform_ocr,
    Tesseract.perform_ocr_base46, Tesseract.perform_ocr_base64_json; cbn;
    rewrite ?Hlang; cbn; rewrite !exec_op_unfold; wsimpl; rewrite Hbuf; cbn;
    rewrite !exec_op_unfold; wsimpl; rewrite Hopen; cbn;
    rewrite !exec_op_unfold; wsimpl; rewrite Hocr; cbn; rewrite ?Hlang; reflexivity.
Qed.

Lemma b64decode_errors b e :
  b64decode b = Err e ->
  (exists t, e = PyErr BinasciiError t \/ e = PyErr ValueError t).
Proof.
  unfold b64decode. destruct (is_ascii b); [|intros [= <-]; eauto].
  destruct (Base64.a2b_base64 b) as [[|n]|data]; intros [= <-]; eauto.
Qed.


(** X5: a base64 string that [base64.b64decode] refuses (a character
    outside ASCII, bad padding, one data character too many) is answered 400
    by the base64 routes of both services, with the text of the decoder's
    error in [error]; [Image.open] is not reached.  On the transformer
    service the message speaks of the uploaded file all the same. *)
Theorem undecodable_base64_is_400 (b : string) (lang : member) (e : exn) (w : world) :
  lang ∈ Language ->
  b64decode b = Err e ->
  let w' := emit (EvRaised e) (emit (EvB64decode b) w) in
  (exists t, e = PyErr BinasciiError t \/ e = PyErr ValueError t) /\
  run L (Tesseract.perform_ocr_base46 L Language b (Some lang)) w =
    (Raised (HTTPException 400 (wrapped L "Could not process the base64 string." e)), w') /\
  run L (Tesseract.perform_ocr_base64_json L Language
           {| Tesseract.base64_string := b; Tesseract.language := value lang |}) w =
    (Raised (HTTPException 400 (wrapped L "Could not process the base64 string." e)), w') /\
  run L (DeepSeek.perform_ocr_base46 L b) w =
    (Raised (HTTPException 400 (wrapped L "Could not process the uploaded file." e)), w') /\
  run L (DeepSeek.perform_ocr_base64_json L {| DeepSeek.base64_string := b |}) w =
    (Raised (HTTPException 400 (wrapped L "Could not process the uploaded file." e)), w').
Proof.
  intros Hin Hdec. destruct (enum_call_member Language lang Hin) as [m Hm].
  pose proof (b64decode_errors b e Hdec) as He. split; [done|].
  assert (Hexc : is_Exception e = true) by (by destruct He as [t [-> | ->]]).
  assert (Hun : is_UnidentifiedImageError e = false) by (by destruct He as [t [-> | ->]]).
  unfold Tesseract.perform_ocr_base46, Tesseract.perform_ocr_base64_json,
    DeepSeek.perform_ocr_base46, DeepSeek.perform_ocr_base64_json, DeepSeek.except_image.
  cbn. rewrite Hm. cbn. rewrite !exec_op_unfold. wsimpl. rewrite Hdec. cbn.
  rewrite Hexc, Hun. by cbn.
Qed.

(** X2: on the classical service, the JSON route and the form route give
    the same answer, and leave the same trace, for the same base64 string
    and the same language. *)
Theorem form_and_json_routes_agree (b : string) (lang : member) (w : world) :
  enum_call Language (value lang) = Some lang ->
  run L (Tesseract.perform_ocr_base64_json L Language
           {| Tesseract.base64_string := b; Tesseract.language := value lang |}) w =
  run L (Tesseract.perform_ocr_base46 L Language b (Some lang)) w.
Proof.
  intros Hlang.
  unfold Tesseract.perform_ocr_base46, Tesseract.perform_ocr_base64_json. cbn.
  rewrite Hlang. cbn.
  destruct (exec_op L (B64decode b) w) as [[[data|e] w1]|]; cbn; [| |done].
  - destruct (exec_op L (ImageOpen data) w1) as [[[im|e] w2]|]; cbn; [| |done].
    + destruct (exec_op L (ImageToString im (value lang)) w2) as [[[text|e] w3]|]; cbn;
        [done|by destruct (is_Exception e)|done].
    + by destruct (is_Exception e).
  - by destruct (is_Exception e).
Qed.

End Classical.

Section Listing.
Context (L : libs) (Language : enum).

Lemma enum_call_Some v m :
  enum_call Language v = Some m -> m ∈ Language /\ value m = v.
Proof.
  unfold enum_call. intros H. apply find_some in H as [Hin Heq].
  split; [by apply list_elem_of_In|]. by apply String.eqb_eq.
Qed.

Lemma enum_call_iter_from seen v m (E : enum) :
  List.find (fun m' => String.eqb (value m') v) E = Some m ->
  v ∉ seen -> m ∈ enum_iter_from seen E.
Proof.
  revert seen. induction E as [|m' E' IH]; intros seen; simpl; [done|].
  destruct (String.eqb_spec (value m') v) as [Heq|Hne].
  - intros [= <-] Hv. rewrite bool_decide_eq_false_2 by (by rewrite Heq). by left.
  - intros Hf Hv. case_bool_decide.
    + by apply IH.
    + right. apply IH; [done|]. rewrite not_elem_of_cons. by split.
Qed.

Lemma enum_iter_from_sublist seen (E : enum) : sublist (enum_iter_from seen E) E.
Proof.
  revert seen. induction E as [|m E' IH]; intros seen; simpl; [done|].
  case_bool_decide; [by apply sublist_cons|by apply sublist_skip].
Qed.

Lemma enum_iter_from_NoDup seen (E : enum) : NoDup (value <$> enum_iter_from seen E).
Proof.
  revert seen. induction E as [|m E' IH]; intros seen; simpl; [constructor|].
  case_bool_decide; [done|]. rewrite fmap_cons. apply NoDup_cons. split; [|done].
  rewrite (enum_iter_from_values E'). intros [_ Hm]. apply Hm. by left.
Qed.

(** X3: [/get_supported_languages] lists each code once, and the codes
    it lists are exactly those the JSON route does not answer 422 to; the
    language a 200 of that route names is the one listed with the code
    that was asked for. *)
Theorem listed_languages_are_the_accepted_ones (b code : string) (w : world) :
  let request := {| Tesseract.base64_string := b; Tesseract.language := code |} in
  let answer := (run L (Tesseract.perform_ocr_base64_json L Language request) w).1 in
  exists listing,
    run L (Tesseract.get_supported_languages Language) w =
      (Returned (JSONResponse 200 (JDict [("supported_languages", JDict listing)])), w) /\
    NoDup (listing.*2) /\
    (NoDup (name <$> Language) -> NoDup (listing.*1)) /\
    ((exists n, (n, JString code) ∈ listing) <->
     (forall d, answer <> Raised (HTTPException 422 d))) /\
    (forall resp, answer = Returned resp ->
       exists n text,
         (n, JString code) ∈ listing /\
         resp = JSONResponse 200
                  (JDict [("language", JString n); ("extracted_text", JString text)])).
Proof.
  intros request answer. exists (listing_of Language). split; [done|].
  assert (Hlisted : forall m, enum_call Language code = Some m ->
            (name m, JString code) ∈ listing_of Language).
  { intros m Hm. destruct (enum_call_Some _ _ Hm) as [_ <-].
    unfold listing_of. apply (list_elem_of_fmap_2 (fun lang => (name lang, JString (value lang)))).
    apply (enum_call_iter_from [] (value m)); [done|]. apply not_elem_of_nil. }
  split; [|split; [|split]].
  - unfold listing_of. rewrite <- list_fmap_compose.
    change (snd ∘ _) with (JString ∘ value). rewrite list_fmap_compose.
    apply NoDup_fmap_2; [by intros ?? [= ->]|]. apply enum_iter_from_NoDup.
  - intros Hnd. unfold listing_of. rewrite <- list_fmap_compose.
    change (fst ∘ _) with name.
    eapply sublist_NoDup; [exact Hnd|]. apply fmap_sublist, enum_iter_from_sublist.
  - subst answer request. unfold Tesseract.perform_ocr_base64_json. cbn.
    destruct (enum_call Language code) as [m|] eqn:Hm.
    + split; [|by eauto]. intros _ d.
      destruct (enum_call_Some _ _ Hm) as [Hin <-].
      pose proof (tesseract_ocr_wraps L Language (JsonBody b) m w 422 d Hin) as Hw.
      unfold tesseract_ocr, Tesseract.perform_ocr_base64_json in Hw. cbn in Hw.
      rewrite Hm in Hw. intros Hr. destruct (Hw Hr) as (? & ? & _ & _ & [[? _]|[? _]]); done.
    + split; [|intros H; by destruct (H _ eq_refl)].
      intros [n Hn]. exfalso. unfold listing_of in Hn.
      apply list_elem_of_fmap in Hn as (m & [= -> ->] & Hin).
      assert (Hv : value m ∈ value <$> Language).
      { apply (proj1 (enum_iter_from_values Language [] (value m))).
        by apply list_elem_of_fmap_2. }
      apply list_elem_of_fmap in Hv as (m' & Heq & Hin').
      destruct (enum_call_member Language m' Hin') as [m'' Hm''].
      rewrite <- Heq in Hm''. by rewrite Hm in Hm''.
  - subst answer request. unfold Tesseract.perform_ocr_base64_json. cbn.
    destruct (enum_call Language code) as [m|] eqn:Hm; [|done]. cbn.
    intros resp.
    destruct (exec_op L (B64decode b) w) as [[[data|e] w1]|]; cbn;
      [| destruct (is_Exception e); cbn; done | done].
    destruct (exec_op L (ImageOpen data) w1) as [[[im|e] w2]|]; cbn;
      [| destruct (is_Exception e); cbn; done | done].
    destruct (exec_op L (ImageToString im code) w2) as [[[text|e] w3]|]; cbn;
      [| destruct (is_Exception e); cbn; done | done].
    intros [= <-]. exists (name m), text. split; [by apply Hlisted|done].
Qed.

(** X4: every request to the classical service is answered: by a 200, or
    by an [HTTPException] with status 400, 422 or 500; no other [Exception]
    leaves a handler, and no handler waits. *)
Theorem classical_answers_are_200_400_422_500 (r : Tesseract.request) (w : world) :
  is_Some (enum_attr Language "Farsi") ->
  match (run L (Tesseract.app L Language r) w).1 with
  | Returned resp => status resp = 200
  | Raised e =>
      is_Exception e = true ->
      exists st d, e = HTTPException st d /\ (st = 400 \/ st = 422 \/ st = 500)
  | Blocked => False
  end.
Proof.
  intros [farsi Hfarsi].
  destruct r as [|file|file lang|s lang|[s code]|]; simpl Tesseract.app;
    unfold Tesseract.root, Tesseract.file_to_base64, Tesseract.perform_ocr,
      Tesseract.perform_ocr_base46, Tesseract.perform_ocr_base64_json,
      Tesseract.get_supported_languages, Tesseract.Form_language; cbn; try done.
  - explore; cbn; try done; try congruence; eauto 10.
  - destruct lang as [lang|]; rewrite ?Hfarsi; cbn; explore; cbn; try done; try congruence; eauto 10.
  - destruct lang as [lang|]; rewrite ?Hfarsi; cbn; explore; cbn; try done; try congruence; eauto 10.
  - destruct (enum_call Language code) as [m|] eqn:Hm; cbn; [|by eauto 10].
    explore; cbn; rewrite ?Hm; cbn; try done; try congruence; eauto 10.
Qed.

End Listing.

(** ** Base64 input and output *)

Section SameState.
Context (L : libs).

Lemma exec_op_same_state {X} (o : eff X) w1 w2 :
  same_state w1 w2 ->
  match exec_op L o w1, exec_op L o w2 with
  | Some (x1, w1'), Some (x2, w2') => x1 = x2 /\ same_state w1' w2'
  | None, None => True
  | _, _ => False
  end.
Proof.
  destruct w1 as [d1 n1 l1 r1 log1], w2 as [d2 n2 l2 r2 log2].
  intros (Hd & Hn & Hl & Hr). simpl in *. subst.
  rewrite !exec_op_unfold.
  destruct o; cbn [perform event_of raised emit disk draws locked running log].
  all: try (unfold create; cbn [disk draws emit];
            destruct (mkstemp_inner L TMP_MAX _ d2 n2) as [[name|] n]).
  all: try destruct l2.
  all: try exact I.
  all: split; [reflexivity|].
  all: repeat match goal with
         | |- context [note_raised ?e _] => destruct e; cbn [note_raised]
         end.
  all: done.
Qed.

Lemma run_same_state {A} (p : prog A) w1 w2 :
  same_state w1 w2 ->
  (run L p w1).1 = (run L p w2).1 /\ same_state (run L p w1).2 (run L p w2).2.
Proof.
  revert w1 w2. induction p as [a|e|X o k IH]; intros w1 w2 Hw; [done..|].
  cbn. pose proof (exec_op_same_state o w1 w2 Hw) as Hx.
  destruct (exec_op L o w1) as [[x1 w1']|], (exec_op L o w2) as [[x2 w2']|]; try done.
  destruct Hx as [-> Hw']. by apply IH.
Qed.

End SameState.

Section Noise.

Lemma a2b_loop_strip_noise s : forall st,
  Base64.a2b_loop (strip_noise s) st = Base64.a2b_loop s st.
Proof.
  induction s as [|c s IH]; intros st; [done|].
  cbn [strip_noise]. destruct (noise c) eqn:Hc.
  - unfold noise in Hc. apply andb_prop in Hc as [Hc Hnone]. apply andb_prop in Hc as [_ Hpad].
    apply negb_true_iff in Hpad. apply bool_decide_eq_true in Hnone.
    cbn [Base64.a2b_loop]. rewrite Hpad, Hnone. apply IH.
  - cbn [Base64.a2b_loop]. repeat case_match; by rewrite ?IH.
Qed.

Lemma is_ascii_strip_noise s : is_ascii (strip_noise s) = is_ascii s.
Proof.
  unfold is_ascii. induction s as [|c s IH]; [done|].
  cbn [strip_noise]. destruct (noise c) eqn:Hc; cbn [list_ascii_of_string forallb].
  - unfold noise in Hc. apply andb_prop in Hc as [Hc _]. apply andb_prop in Hc as [Hc _].
    by rewrite Hc, IH.
  - by rewrite IH.
Qed.

Lemma b64decode_strip_noise s : b64decode (strip_noise s) = b64decode s.
Proof.
  unfold b64decode, Base64.a2b_base64. by rewrite is_ascii_strip_noise, a2b_loop_strip_noise.
Qed.

End Noise.

Section SameBuffer.
Context (L : libs).

Lemma same_state_note_raised e e' w w' :
  same_state w w' -> same_state (note_raised e w) (note_raised e' w').
Proof. by destruct e, e'. Qed.

(** The three routes of the transformer service differ in how they fetch
    the buffer only. *)
Lemma deepseek_same_buffer (s1 s2 : shape) w1 w2 :
  buffer s1 = buffer s2 ->
  same_state w1 w2 ->
  (run L (deepseek_ocr L s1) w1).1 = (run L (deepseek_ocr L s2) w2).1 /\
  same_state (run L (deepseek_ocr L s1) w1).2 (run L (deepseek_ocr L s2) w2).2.
Proof.
  intros Hbuf Hw.
  destruct s1 as [f1|b1|b1], s2 as [f2|b2|b2]; simpl in Hbuf;
    unfold deepseek_ocr, DeepSeek.perform_ocr, DeepSeek.perform_ocr_base46,
      DeepSeek.perform_ocr_base64_json, DeepSeek.base64_string;
    cbn [bind try_except call]; rewrite !run_Vis, !exec_op_unfold; wsimpl; rewrite Hbuf;
    apply run_same_state; by apply same_state_note_raised.
Qed.

(** The base64 routes of the classical service likewise. *)
Lemma tesseract_same_buffer (Language : enum) (b1 b2 : string) lang w1 w2 :
  b64decode b1 = b64decode b2 ->
  (run L (Tesseract.perform_ocr_base46 L Language b1 lang) w1).1 =
  (run L (Tesseract.perform_ocr_base46 L Language b2 lang) w2).1.
Proof.
  intros Hbuf. unfold Tesseract.perform_ocr_base46.
  rewrite !run_bind. destruct (run L (Tesseract.Form_language Language lang) w1) as [x w1'] eqn:H1.
  assert (H2 : run L (Tesseract.Form_language Language lang) w2 = (x, w2)).
  { unfold Tesseract.Form_language in *. repeat case_match; simplify_eq/=; done. }
  rewrite H2. destruct x as [l|e|]; [|done..].
  cbn [bind try_except call]. rewrite !run_Vis, !exec_op_unfold. wsimpl. rewrite Hbuf.
  apply stateless_run.
  destruct (b64decode b2) as [data|e]; cbn.
  - split; [done|]. intros [im|e]; cbn.
    + split; [done|]. intros [text|e]; cbn; [done|]. by destruct (is_Exception e).
    + by destruct (is_Exception e).
  - by destruct (is_Exception e).
Qed.

End SameBuffer.

Section Canonical.
Import Base64 Base64Facts.

Lemma noise_b2a i : 0 <= i < 64 -> noise (b2a i) = false.
Proof.
  intros Hi. unfold noise. rewrite (a2b_b2a i Hi).
  rewrite bool_decide_eq_false_2 by done. by rewrite andb_false_r.
Qed.

Lemma strip_noise_b2a_base64 data : strip_noise (b2a_base64 data) = b2a_base64 data.
Proof.
  induction data as [|x|x y|x y z data IH] using list_ind3; [done|..].
  all: pose proof (byte_val_range x) as Hx.
  all: try pose proof (byte_val_range y) as Hy.
  all: try pose proof (byte_val_range z) as Hz.
  all: cbn [b2a_base64 strip_noise].
  all: rewrite ?noise_b2a
         by eauto using s1_range, s2_range, s3_range, s4_range, pad2_range, pad3_range.
  all: by rewrite ?IH.
Qed.

Lemma length_b2a_base64 data :
  String.length (b2a_base64 data) = (4 * ((length data + 2) / 3))%nat.
Proof.
  induction data as [|x|x y|x y z data IH] using list_ind3; [done..|].
  cbn [b2a_base64 String.length length]. rewrite IH.
  replace (S (S (S (length data))) + 2)%nat with (1 * 3 + (length data + 2))%nat by lia.
  rewrite Nat.div_add_l by done. lia.
Qed.

End Canonical.

Section CanonicalAnswer.
Context (L : libs).

(** X7: the [base64_string] that [/file-to-base64] answers for a file of
    [n] bytes has [4 * ceil(n / 3)] characters, all ASCII, none of which the
    decoder would skip. *)
Theorem base64_answer_is_canonical (file : UploadFile) (data : bytes) (w : world) :
  read file = Ok data ->
  exists b,
    (run L (Tesseract.file_to_base64 file) w).1 =
      Returned (JSONResponse 200
                  (JDict [("filename", opt_str (filename file));
                          ("base64_string", JString b)])) /\
    (run L (DeepSeek.file_to_base64 file) w).1 =
      Returned (JSONResponse 200
                  (JDict [("filename", opt_str (filename file));
                          ("base64_string", JString b)])) /\
    String.length b = (4 * ((length data + 2) / 3))%nat /\
    is_ascii b = true /\
    strip_noise b = b.
Proof.
  intros Hread. exists (b64encode data). split; [|split].
  { unfold Tesseract.file_to_base64. cbn. rewrite exec_op_unfold. wsimpl. by rewrite Hread. }
  { unfold DeepSeek.file_to_base64. cbn. rewrite exec_op_unfold. wsimpl. by rewrite Hread. }
  unfold b64encode. split; [apply length_b2a_base64|].
  split; [apply Base64Facts.b2a_base64_ascii|apply strip_noise_b2a_base64].
Qed.

End CanonicalAnswer.


Section Routes.
Context (L : libs) (Language : enum).

Lemma tesseract_json_same_buffer (b1 b2 code : string) w1 w2 :
  b64decode b1 = b64decode b2 ->
  (run L (Tesseract.perform_ocr_base64_json L Language
            {| Tesseract.base64_string := b1; Tesseract.language := code |}) w1).1 =
  (run L (Tesseract.perform_ocr_base64_json L Language
            {| Tesseract.base64_string := b2; Tesseract.language := code |}) w2).1.
Proof.
  intros Hbuf. unfold Tesseract.perform_ocr_base64_json.
  cbn [Tesseract.base64_string Tesseract.language].
  destruct (enum_call Language code) as [m|]; [|done].
  cbn [bind try_except call]. rewrite !run_Vis, !exec_op_unfold. wsimpl. rewrite Hbuf.
  apply stateless_run.
  destruct (b64decode b2) as [data|e]; cbn.
  - split; [done|]. intros [im|e]; cbn.
    + split; [done|]. intros [text|e]; cbn; [done|]. by destruct (is_Exception e).
    + by destruct (is_Exception e).
  - by destruct (is_Exception e).
Qed.

(** X6: the base64 routes decode leniently: ASCII characters outside the
    alphabet (line breaks, blanks, and also the [-] and [_] of the URL-safe
    alphabet) are skipped, so a string with such characters is answered like
    the string without them. *)
Theorem base64_noise_is_skipped (b code : string) (lang : option member) (w : world) :
  b64decode (strip_noise b) = b64decode b /\
  (run L (Tesseract.perform_ocr_base46 L Language (strip_noise b) lang) w).1 =
    (run L (Tesseract.perform_ocr_base46 L Language b lang) w).1 /\
  (run L (Tesseract.perform_ocr_base64_json L Language
            {| Tesseract.base64_string := strip_noise b; Tesseract.language := code |}) w).1 =
    (run L (Tesseract.perform_ocr_base64_json L Language
              {| Tesseract.base64_string := b; Tesseract.language := code |}) w).1 /\
  (run L (DeepSeek.perform_ocr_base46 L (strip_noise b)) w).1 =
    (run L (DeepSeek.perform_ocr_base46 L b) w).1 /\
  (run L (DeepSeek.perform_ocr_base64_json L
            {| DeepSeek.base64_string := strip_noise b |}) w).1 =
    (run L (DeepSeek.perform_ocr_base64_json L {| DeepSeek.base64_string := b |}) w).1.
Proof.
  pose proof (b64decode_strip_noise b) as Hb. split; [done|].
  split; [by apply tesseract_same_buffer|].
  split; [by apply tesseract_json_same_buffer|].
  split.
  - by apply (deepseek_same_buffer L (FormField (strip_noise b)) (FormField b)).
  - by apply (deepseek_same_buffer L (JsonBody (strip_noise b)) (JsonBody b)).
Qed.

(** X8: the [base64_string] that [/file-to-base64] answers for a file,
    sent to the base64 routes of the transformer service, gets the answer
    [/ocr] gives for the file itself; on the classical service likewise
    when [Image.open] accepts the bytes, and with the same status
    otherwise. *)
Theorem base64_of_a_file_is_read_like_the_file (file : UploadFile) (data : bytes)
    (lang : option member) (w : world) :
  read file = Ok data ->
  exists b,
    (run L (Tesseract.file_to_base64 file) w).1 =
      Returned (JSONResponse 200
                  (JDict [("filename", opt_str (filename file));
                          ("base64_string", JString b)])) /\
    (run L (DeepSeek.file_to_base64 file) w).1 =
      Returned (JSONResponse 200
                  (JDict [("filename", opt_str (filename file));
                          ("base64_string", JString b)])) /\
    (run L (DeepSeek.perform_ocr_base46 L b) w).1 = (run L (DeepSeek.perform_ocr L file) w).1 /\
    (run L (DeepSeek.perform_ocr_base64_json L {| DeepSeek.base64_string := b |}) w).1 =
      (run L (DeepSeek.perform_ocr L file) w).1 /\
    (forall im, Image_open L data = Ok im ->
       (run L (Tesseract.perform_ocr_base46 L Language b lang) w).1 =
         (run L (Tesseract.perform_ocr L Language file lang) w).1) /\
    (status <$> http_reply (run L (Tesseract.perform_ocr_base46 L Language b lang) w).1) =
      (status <$> http_reply (run L (Tesseract.perform_ocr L Language file lang) w).1).
Proof.
  intros Hread. exists (b64encode data).
  pose proof (Base64Facts.b64decode_b64encode data) as Hdec.
  split; [|split].
  { unfold Tesseract.file_to_base64. cbn. rewrite exec_op_unfold. wsimpl. by rewrite Hread. }
  { unfold DeepSeek.file_to_base64. cbn. rewrite exec_op_unfold. wsimpl. by rewrite Hread. }
  split; [|split].
  { apply (deepseek_same_buffer L (FormField (b64encode data)) (Upload file));
      [simpl; congruence|done]. }
  { apply (deepseek_same_buffer L (JsonBody (b64encode data)) (Upload file));
      [simpl; congruence|done]. }
  unfold Tesseract.perform_ocr_base46, Tesseract.perform_ocr, Tesseract.Form_language.
  destruct lang as [lang|]; [|destruct (enum_attr Language "Farsi") as [lang|]; [|by split]].
  all: cbn; rewrite !exec_op_unfold; wsimpl; rewrite Hread, Hdec; cbn.
  all: rewrite !exec_op_unfold; wsimpl.
  all: destruct (Image_open L data) as [im|e]; cbn.
  all: try (rewrite !exec_op_unfold; wsimpl;
            destruct (image_to_string L im (value lang)) as [text|e]; cbn;
            [by split|destruct (is_Exception e); by split]).
  all: destruct (is_Exception e); cbn; by split.
Qed.

End Routes.

(** ** The engine under the lock *)

Section EngineProtocol.
Context (L : libs).

Lemma engine_op {X} (o : eff X) {A} (k : X -> prog A) ph ph' final :
  in_phase o ph = true ->
  next_phase o ph = Some ph' ->
  (forall x, obeys engine_protocol (k x) ph' final) ->
  obeys engine_protocol (Vis o k) ph final.
Proof.
  intros Hin Hnext Hk. simpl. unfold engine_protocol, lock_protocol.
  by rewrite Hin, Hnext.
Qed.

Lemma engine_call {X} (o : eff (result X)) ph :
  in_phase o ph = true -> next_phase o ph = Some ph ->
  obeys engine_protocol (call o) ph ph.
Proof. intros Hin Hnext. eapply engine_op; [done..|]. by intros []. Qed.

Lemma engine_do {X} (o : eff X) ph :
  in_phase o ph = true -> next_phase o ph = Some ph ->
  obeys engine_protocol (do o) ph ph.
Proof. intros Hin Hnext. by eapply engine_op. Qed.

Ltac engine_step :=
  first
    [ progress (simpl obeys; intros); done
    | apply engine_call; done
    | apply engine_do; done
    | apply obeys_bind; [|intros ?]
    | apply obeys_try_except; [|intros ? ? ?; repeat case_match; simplify_eq] ].

Lemma engine_infer image_pth :
  obeys engine_protocol (Engine.infer image_pth) Inferring Inferring.
Proof.
  unfold Engine.infer, with_TemporaryDirectory.
  apply obeys_bind; [by apply engine_do|]. intros _.
  apply obeys_bind; [by apply engine_call|]. intros tmpdir.
  apply obeys_try_finally with Inferring; [|by apply engine_do].
  repeat engine_step.
Qed.

Lemma engine_stage_and_infer image_data suffix :
  obeys engine_protocol (DeepSeek.stage_and_infer L image_data suffix) Idle Idle.
Proof.
  unfold DeepSeek.stage_and_infer, with_NamedTemporaryFile, async_with_lock.
  apply obeys_bind; [|by intros ?].
  apply obeys_bind; [by apply engine_call|]. intros tmp.
  apply obeys_try_finally with Idle; [|by apply engine_do].
  apply obeys_bind; [by apply engine_call|]. intros _.
  apply obeys_try_except.
  - eapply engine_op; [done..|]. intros _.
    apply obeys_try_finally with Holding; [|eapply engine_op; [done..|]; by intros []].
    apply obeys_bind; [|by intros ?].
    apply obeys_to_thread with Inferring; [done..|by eexists|apply engine_infer].
  - intros e q Hq. by case_match; simplify_eq.
Qed.

Lemma engine_DeepSeek_app r : obeys engine_protocol (DeepSeek.app L r) Idle Idle.
Proof.
  destruct r as [|file|file|s|[s]]; simpl DeepSeek.app;
    unfold DeepSeek.root, DeepSeek.file_to_base64, DeepSeek.perform_ocr,
      DeepSeek.perform_ocr_base46, DeepSeek.perform_ocr_base64_json, DeepSeek.except_image.
  - done.
  - repeat engine_step.
  - apply obeys_bind; [repeat engine_step|]. intros ?. apply engine_stage_and_infer.
  - apply obeys_bind; [repeat engine_step|]. intros ?. apply engine_stage_and_infer.
  - apply obeys_bind; [repeat engine_step|]. intros ?. apply engine_stage_and_infer.
Qed.

Lemma engine_inv_step s s' :
  engine_inv s -> pool_step L (deepseek_requests L) s s' -> engine_inv s'.
Proof.
  intros (phs & Hall & Hh & Hr) Hstep. unfold engine_inv in *.
  destruct Hstep as [w ts p [r ->]|w ts i X o k x w' Hi Hx]; simpl in *.
  - exists (phs ++ [Idle]). split; [|split].
    + apply Forall2_app; [done|]. constructor; [|done]. apply engine_DeepSeek_app.
    + rewrite sum_list_with_app. simpl. unfold lock_count in *. lia.
    + rewrite sum_list_with_app. simpl. lia.
  - destruct (Forall2_lookup_l _ _ _ _ _ Hall Hi) as (ph & Hph & Hf).
    simpl in Hf. unfold engine_protocol, lock_protocol in Hf.
    destruct (in_phase o ph); [|done].
    destruct (next_phase o ph) as [ph'|] eqn:E; [|done]. simpl in Hf.
    pose proof (sum_list_with_lookup_le holding _ _ _ Hph) as Hle1.
    pose proof (sum_list_with_lookup_le inferring _ _ _ Hph) as Hle2.
    destruct (exec_op_phase L o w x w' ph ph' Hx E) as [H1 H2];
      [by rewrite <- Hh|by rewrite <- Hr|].
    exists (<[i := ph']> phs). split; [|split].
    + by apply Forall2_insert.
    + pose proof (sum_list_with_insert holding _ _ _ ph' Hph). lia.
    + pose proof (sum_list_with_insert inferring _ _ _ ph' Hph). lia.
Qed.

Lemma engine_inv_reachable w0 s :
  locked w0 = false -> running w0 = 0%nat ->
  rtc (pool_step L (deepseek_requests L)) (w0, []) s -> engine_inv s.
Proof.
  intros Hl Hr Hs.
  assert (H0 : engine_inv (w0, [])).
  { exists []. unfold lock_count. simpl. by rewrite Hl, Hr. }
  revert H0. induction Hs as [|s1 s2 s3 Hstep _ IH]; [done|].
  intros H1. apply IH. by eapply engine_inv_step.
Qed.

(** At most one phase of a list counts for [f] when the sum is at most 1. *)
Lemma sum_list_with_unique {A} (f : A -> nat) l i j x y :
  (sum_list_with f l <= 1)%nat ->
  l !! i = Some x -> l !! j = Some y -> (0 < f x)%nat -> (0 < f y)%nat -> i = j.
Proof.
  revert i j. induction l as [|z l IH]; intros [|i] [|j] Hs Hi Hj Hx Hy;
    simplify_eq/=; try done.
  - pose proof (sum_list_with_lookup_le f _ _ _ Hj). lia.
  - pose proof (sum_list_with_lookup_le f _ _ _ Hi). lia.
  - f_equal. apply IH; [lia|done..].
Qed.

End EngineProtocol.

Section AwaitProtocol.
Context (L : libs).

Lemma await_to_thread {A} (f : prog A) :
  obeys await_protocol f None None -> obeys await_protocol (to_thread f) None None.
Proof.
  intros Hf. unfold to_thread. cbn [bind do]. cbn [obeys await_protocol]. intros _.
  apply obeys_attempt_bind with None; [done|]. intros r.
  cbn [bind do]. cbn [obeys await_protocol]. intros _.
  destruct r as [x|e]; [done|].
  cbn [bind do]. cbn [obeys await_protocol]. intros [e'|]; [done|].
  unfold suspended. cbn [obeys await_protocol]. by intros [].
Qed.

Lemma await_infer image_pth : obeys await_protocol (Engine.infer image_pth) None None.
Proof.
  unfold Engine.infer, with_TemporaryDirectory.
  apply obeys_bind; [by apply obeys_do|]. intros _.
  apply obeys_bind; [by apply obeys_call|]. intros tmpdir.
  apply obeys_try_finally with None; [|by apply obeys_do].
  repeat obeys_step.
Qed.

Lemma await_stage_and_infer image_data suffix :
  obeys await_protocol (DeepSeek.stage_and_infer L image_data suffix) None None.
Proof.
  unfold DeepSeek.stage_and_infer, with_NamedTemporaryFile, async_with_lock.
  apply obeys_bind; [|by intros ?].
  apply obeys_bind; [by apply obeys_call|]. intros tmp.
  apply obeys_try_finally with None; [|by apply obeys_do].
  apply obeys_bind; [by apply obeys_call|]. intros _.
  apply obeys_try_except.
  - apply obeys_bind; [by apply obeys_do|]. intros _.
    apply obeys_try_finally with None; [|by apply obeys_call].
    apply obeys_bind; [|by intros ?].
    apply await_to_thread, await_infer.
  - intros e q Hq. by case_match; simplify_eq.
Qed.

Lemma await_DeepSeek_app r : obeys await_protocol (DeepSeek.app L r) None None.
Proof.
  destruct r as [|file|file|s|[s]]; simpl DeepSeek.app;
    unfold DeepSeek.root, DeepSeek.file_to_base64, DeepSeek.perform_ocr,
      DeepSeek.perform_ocr_base46, DeepSeek.perform_ocr_base64_json, DeepSeek.except_image.
  - done.
  - repeat obeys_step.
  - apply obeys_bind; [repeat obeys_step|]. intros ?. apply await_stage_and_infer.
  - apply obeys_bind; [repeat obeys_step|]. intros ?. apply await_stage_and_infer.
  - apply obeys_bind; [repeat obeys_step|]. intros ?. apply await_stage_and_infer.
Qed.

(** What a handler holds as refused after a step was refused in that step,
    or before. *)
Lemma exec_op_await {X} (o : eff X) w x w' st next e :
  exec_op L o w = Some (x, w') ->
  await_protocol X o st = Some next ->
  (forall e', st = Some e' -> set_exception L e' = None) ->
  next x = Some e -> set_exception L e = None.
Proof.
  intros Hx Hp Hst He.
  destruct o; cbn [await_protocol] in Hp; try (injection Hp as <-; by apply Hst).
  - injection Hp as <-. rewrite exec_op_unfold in Hx. cbn [perform] in Hx.
    injection Hx as <- _. destruct (set_exception L e0) eqn:E0; by simplify_eq.
  - discriminate Hx.
Qed.

Lemma await_inv_step s s' :
  await_inv L s -> pool_step L (deepseek_requests L) s s' -> await_inv L s'.
Proof.
  intros (sts & Hall & Hst) Hstep. unfold await_inv in *.
  destruct Hstep as [w ts p [r ->]|w ts i X o k x w' Hi Hx]; simpl in *.
  - exists (sts ++ [None]). split.
    + apply Forall2_app; [done|]. constructor; [|done]. apply await_DeepSeek_app.
    + intros j e [Hj|[_ Hj]]%lookup_app_Some; [by eapply Hst|].
      by apply list_lookup_singleton_Some in Hj as [_ ?].
  - destruct (Forall2_lookup_l _ _ _ _ _ Hall Hi) as (st & Hsti & Hob).
    simpl in Hob. destruct (await_protocol X o st) as [next|] eqn:E; [|done].
    exists (<[i := next x]> sts). split; [by apply Forall2_insert|].
    intros j e Hj. apply list_lookup_insert_Some in Hj as [(-> & He & _)|[_ Hj]].
    + eapply (exec_op_await o); [done..| |by symmetry].
      intros e' ->. by eapply Hst.
    + by eapply Hst.
Qed.

Lemma await_inv_reachable w0 s :
  rtc (pool_step L (deepseek_requests L)) (w0, []) s -> await_inv L s.
Proof.
  intros Hs.
  assert (H0 : await_inv L (w0, [])) by (exists []; by split).
  revert H0. induction Hs as [|s1 s2 s3 Hstep _ IH]; [done|].
  intros H1. apply IH. by eapply await_inv_step.
Qed.

(** A handler is suspended only after the future refused a [StopIteration]. *)
Lemma suspended_refused s i p :
  await_inv L s -> s.2 !! i = Some p -> next_event p = Some EvSuspended ->
  Future_StopIteration L = None.
Proof.
  intros (sts & Hall & Hst) Hi Hp.
  destruct (Forall2_lookup_l _ _ _ _ _ Hall Hi) as (st & Hsti & Hob).
  destruct p as [a|e|X o k]; try discriminate Hp.
  destruct o; try discriminate Hp. simpl in Hob.
  destruct st as [e|]; [|done].
  pose proof (Hst _ _ Hsti) as Hnone. unfold set_exception in Hnone.
  by destruct (is_StopIteration e).
Qed.

End AwaitProtocol.

Section PoolProgress.
Context (L : libs).

Lemma sum_list_with_pos {A} (f : A -> nat) l :
  (0 < sum_list_with f l)%nat -> exists j x, l !! j = Some x /\ (0 < f x)%nat.
Proof.
  induction l as [|z l IH]; simpl; [lia|]. intros Hs.
  destruct (decide (0 < f z)%nat) as [Hz|Hz].
  - by exists 0%nat, z.
  - destruct IH as (j & x & Hj & Hx); [lia|]. by exists (S j), x.
Qed.

Lemma acquire_is_idle {X} (o : eff X) ph ph' :
  event_of o = EvLockAcquire -> next_phase o ph = Some ph' -> ph = Idle.
Proof. destruct o; try discriminate; by destruct ph. Qed.


(** X15: in any state the handlers of the transformer service can reach,
    a handler about to perform an effect of [DeepSeekOCR.infer] (a purge,
    the model call, the handling of the output directory) is the one that
    holds the lock, its inference is the one in progress, and no other
    handler is at such a step. *)
Theorem engine_runs_under_the_lock (w0 : world) (s : pool)
    (i : nat) {X} (o : eff X) (k : X -> prog response) :
  locked w0 = false ->
  running w0 = 0%nat ->
  rtc (pool_step L (deepseek_requests L)) (w0, []) s ->
  s.2 !! i = Some (Vis o k) ->
  engine_effect o = true ->
  locked s.1 = true /\ running s.1 = 1%nat /\
  (forall j Y (o' : eff Y) k',
     s.2 !! j = Some (Vis o' k') -> engine_effect o' = true -> j = i).
Proof.
  intros Hl Hr Hs Hi Ho.
  destruct (engine_inv_reachable L w0 s Hl Hr Hs) as (phs & Hall & Hh & Hrun).
  pose proof (inferring_le_holding phs) as Hle.
  assert (Hinf : forall j Y (o' : eff Y) k',
    s.2 !! j = Some (Vis o' k') -> engine_effect o' = true ->
    phs !! j = Some Inferring).
  { intros j Y o' k' Hj Ho'.
    destruct (Forall2_lookup_l _ _ _ _ _ Hall Hj) as (ph & Hph & Hobeys).
    simpl in Hobeys. unfold engine_protocol in Hobeys.
    destruct (in_phase o' ph) eqn:Hin; [|done].
    destruct ph; simpl in Hin; rewrite ?Ho' in Hin; try discriminate. done. }
  pose proof (Hinf i X o k Hi Ho) as Hphi.
  pose proof (sum_list_with_lookup_le inferring _ _ _ Hphi) as Hone. simpl in Hone.
  unfold lock_count in Hh.
  assert (Hlocked : locked s.1 = true) by (destruct (locked s.1); [done|lia]).
  rewrite Hlocked in Hh.
  split; [done|]. split; [lia|].
  intros j Y o' k' Hj Ho'.
  apply (sum_list_with_unique inferring phs j i Inferring Inferring);
    [lia|by eapply Hinf|done|simpl; lia..].
Qed.

End PoolProgress.


(** ** Further theorems at work on the stand-in libraries *)

(** Steps of a pool, one effect of one handler at a time. *)
Ltac pool_run i :=
  eapply rtc_l;
  [ eapply (step_effect _ _ _ _ i); [reflexivity|vm_compute; reflexivity] | ];
  cbn [list_insert insert].

Ltac pool_arrive r :=
  eapply rtc_l; [ apply step_arrive; by exists r | ]; cbn [app].

Lemma engine_runs_under_the_lock_witness :
  exists s,
    rtc (pool_step Fake.lib (deepseek_requests Fake.lib)) (Fake.boot, []) s /\
    length s.2 = 2%nat /\
    locked s.1 = true /\ running s.1 = 1%nat.
Proof.
  assert (Hs : { s | rtc (pool_step Fake.lib (deepseek_requests Fake.lib)) (Fake.boot, []) s
                     /\ length s.2 = 2%nat
                     /\ exists k, s.2 !! 0%nat = Some (Vis (ModelInfer (infer_call "/tmp/tmp0.jpeg" "/tmp/tmp2")) k) }).
  { eexists. split.
    - pool_arrive (DeepSeek.POST_ocr (Fake.upload Fake.picture)).
      pool_arrive (DeepSeek.POST_ocr (Fake.upload Fake.picture)).
      do 4 pool_run 0%nat.
      do 5 pool_run 1%nat.
      do 5 pool_run 0%nat.
      apply rtc_refl.
    - split; [reflexivity|]. eexists. reflexivity. }
  destruct Hs as (s & Hrtc & Hlen & k & Hk).
  exists s. split; [exact Hrtc|]. split; [exact Hlen|].
  destruct (engine_runs_under_the_lock Fake.lib Fake.boot s 0 _ k eq_refl eq_refl Hrtc Hk eq_refl)
    as (H1 & H2 & _).
  by split.
Defined.

Lemma recognised_text_is_returned_witness :
  let s := Upload (Fake.upload Fake.picture) in
  let lang := Member "Farsi" "fas" in
  enum_call Fake.Language "fas" = Some lang /\
  buffer s = Ok Fake.picture /\
  Image_open Fake.lib Fake.picture = Ok FakeRun.jpeg /\
  image_to_string Fake.lib FakeRun.jpeg "fas" = Ok "text in fas" /\
  (run Fake.lib (tesseract_ocr Fake.lib Fake.Language s lang) Fake.boot).1 =
    Returned (JSONResponse 200
                (JDict [("language", JString "Farsi");
                        ("extracted_text", JString "text in fas")])).
Proof.
  do 4 (split; [reflexivity|]).
  by rewrite (recognised_text_is_returned Fake.lib Fake.Language
                (Upload (Fake.upload Fake.picture)) (Member "Farsi" "fas")
                Fake.picture FakeRun.jpeg "text in fas" Fake.boot
                eq_refl eq_refl eq_refl eq_refl).
Defined.

Lemma staged_image_is_inferred_witness :
  let L := FakeText.lib FakeText.two_lines in
  let s := Upload (Fake.upload Fake.picture) in
  let files : gmap string string := {["result.mmd" := FakeText.two_lines]} in
  locked Fake.boot = false /\
  buffer s = Ok Fake.picture /\
  Image_open L Fake.picture = Ok FakeRun.jpeg /\
  Image_verify L FakeRun.jpeg = Ok tt /\
  mkstemp_inner L TMP_MAX ".jpeg" (disk Fake.boot) (draws Fake.boot) =
    (Some "/tmp/tmp0.jpeg", 1%nat) /\
  mkstemp_inner L TMP_MAX "" (<["/tmp/tmp0.jpeg" := File Fake.picture]> (disk Fake.boot))
    1%nat = (Some "/tmp/tmp1", 2%nat) /\
  model_infer L (infer_call "/tmp/tmp0.jpeg" "/tmp/tmp1") (Some Fake.picture) =
    {| written := files; outcome := Ok tt |} /\
  files !! "result.mmd" = Some FakeText.two_lines /\
  utf_8_valid FakeText.two_lines = true /\
  (run L (deepseek_ocr L s) Fake.boot).1 =
    Returned (JSONResponse 200
                (JDict [("extracted_text",
                         JString ("one" +:+ String "010" ("two" +:+ String "010" "")))])).
Proof.
  cbv zeta.
  do 4 (split; [reflexivity|]).
  split; [vm_compute; reflexivity|]. split; [vm_compute; reflexivity|].
  split; [reflexivity|]. split; [reflexivity|]. split; [reflexivity|].
  rewrite (staged_image_is_inferred (FakeText.lib FakeText.two_lines)
             (Upload (Fake.upload Fake.picture))
             Fake.picture FakeRun.jpeg "/tmp/tmp0.jpeg" "/tmp/tmp1" 1 2
             {["result.mmd" := FakeText.two_lines]} FakeText.two_lines Fake.boot);
    try reflexivity.
  all: vm_compute; reflexivity.
Defined.


Lemma undecodable_base64_is_400_witness :
  let e := PyErr BinasciiError
             "Invalid base64-encoded string: number of data characters (1) cannot be 1 more than a multiple of 4" in
  Member "English" "eng" ∈ Fake.Language /\
  b64decode "A" = Err e /\
  (run Fake.lib (Tesseract.perform_ocr_base46 Fake.lib Fake.Language "A"
                   (Some (Member "English" "eng"))) Fake.boot).1 =
    Raised (HTTPException 400 (wrapped Fake.lib "Could not process the base64 string." e)) /\
  (run Fake.lib (DeepSeek.perform_ocr_base46 Fake.lib "A") Fake.boot).1 =
    Raised (HTTPException 400 (wrapped Fake.lib "Could not process the uploaded file." e)).
Proof.
  assert (Hin : Member "English" "eng" ∈ Fake.Language) by (by left).
  assert (Hdec : b64decode "A" = Err (PyErr BinasciiError
    "Invalid base64-encoded string: number of data characters (1) cannot be 1 more than a multiple of 4"))
    by (vm_compute; reflexivity).
  split; [exact Hin|]. split; [exact Hdec|].
  destruct (undecodable_base64_is_400 Fake.lib Fake.Language "A" _ _ Fake.boot Hin Hdec)
    as (_ & H1 & _ & H2 & _).
  by rewrite H1, H2.
Defined.

Lemma base64_of_a_file_is_read_like_the_file_witness :
  read (Fake.upload Fake.picture) = Ok Fake.picture /\
  exists b,
    (run Fake.lib (DeepSeek.file_to_base64 (Fake.upload Fake.picture)) Fake.boot).1 =
      Returned (JSONResponse 200
                  (JDict [("filename", JString "scan.jpg"); ("base64_string", JString b)])) /\
    (run Fake.lib (DeepSeek.perform_ocr_base46 Fake.lib b) Fake.boot).1 =
      (run Fake.lib (DeepSeek.perform_ocr Fake.lib (Fake.upload Fake.picture)) Fake.boot).1.
Proof.
  split; [reflexivity|].
  destruct (base64_of_a_file_is_read_like_the_file Fake.lib Fake.Language
              (Fake.upload Fake.picture) Fake.picture None Fake.boot eq_refl)
    as (b & _ & H1 & H2 & _).
  exists b. exact (conj H1 H2).
Defined.

Lemma form_and_json_routes_agree_witness :
  let lang := Member "English" "eng" in
  enum_call Fake.Language "eng" = Some lang /\
  run Fake.lib (Tesseract.perform_ocr_base64_json Fake.lib Fake.Language
                  {| Tesseract.base64_string := "/9j/AAECAw==";
                     Tesseract.language := "eng" |}) Fake.boot =
  run Fake.lib (Tesseract.perform_ocr_base46 Fake.lib Fake.Language "/9j/AAECAw=="
                  (Some lang)) Fake.boot.
Proof.
  split; [reflexivity|].
  apply (form_and_json_routes_agree Fake.lib Fake.Language "/9j/AAECAw=="
           (Member "English" "eng") Fake.boot eq_refl).
Defined.


Lemma classical_answers_are_200_400_422_500_witness :
  is_Some (enum_attr Fake.Language "Farsi") /\
  match (run Fake.lib (Tesseract.app Fake.lib Fake.Language
                         (Tesseract.POST_ocr (Fake.upload [x00]%byte) None)) Fake.boot).1 with
  | Returned resp => status resp = 200
  | Raised e =>
      is_Exception e = true ->
      exists st d, e = HTTPException st d /\ (st = 400 \/ st = 422 \/ st = 500)
  | Blocked => False
  end.
Proof.
  assert (H : is_Some (enum_attr Fake.Language "Farsi")) by (by eexists).
  split; [exact H|].
  apply (classical_answers_are_200_400_422_500 Fake.lib Fake.Language
           (Tesseract.POST_ocr (Fake.upload [x00]%byte) None) Fake.boot H).
Defined.

Lemma waiting_request_has_staged_its_file_witness :
  let s := Upload (Fake.upload Fake.picture) in
  locked FakeRun.busy = true /\
  buffer s = Ok Fake.picture /\
  Image_open Fake.lib Fake.picture = Ok FakeRun.jpeg /\
  Image_verify Fake.lib FakeRun.jpeg = Ok tt /\
  mkstemp_inner Fake.lib TMP_MAX ".jpeg" (disk FakeRun.busy) (draws FakeRun.busy) =
    (Some "/tmp/tmp0.jpeg", 1%nat) /\
  (run Fake.lib (deepseek_ocr Fake.lib s) FakeRun.busy).1 = Blocked /\
  disk (run Fake.lib (deepseek_ocr Fake.lib s) FakeRun.busy).2 !! "/tmp/tmp0.jpeg" =
    Some (File Fake.picture).
Proof.
  assert (H1 : mkstemp_inner Fake.lib TMP_MAX ".jpeg" (disk FakeRun.busy) (draws FakeRun.busy) =
                 (Some "/tmp/tmp0.jpeg", 1%nat)) by (vm_compute; reflexivity).
  do 4 (split; [reflexivity|]). split; [exact H1|].
  rewrite (waiting_request_has_staged_its_file Fake.lib (Upload (Fake.upload Fake.picture))
             Fake.picture FakeRun.jpeg "/tmp/tmp0.jpeg" 1 FakeRun.busy
             eq_refl eq_refl eq_refl eq_refl H1).
  split; [reflexivity|]. cbn [snd disk]. apply lookup_insert_eq.
Defined.


Lemma base64_answer_is_canonical_witness :
  read (Fake.upload Fake.picture) = Ok Fake.picture /\
  exists b,
    (run Fake.lib (DeepSeek.file_to_base64 (Fake.upload Fake.picture)) Fake.boot).1 =
      Returned (JSONResponse 200
                  (JDict [("filename", JString "scan.jpg"); ("base64_string", JString b)])) /\
    String.length b = 12%nat.
Proof.
  split; [reflexivity|].
  destruct (base64_answer_is_canonical Fake.lib (Fake.upload Fake.picture) Fake.picture
              Fake.boot eq_refl) as (b & _ & H1 & H2 & _).
  by exists b.
Defined.

Lemma base64_noise_is_skipped_witness :
  strip_noise FakeRun.wrapped_picture = "/9j/AAECAw==" /\
  noise "-" = true /\ noise "_" = true /\
  b64decode FakeRun.wrapped_picture = Ok Fake.picture /\
  (run Fake.lib (DeepSeek.perform_ocr_base46 Fake.lib FakeRun.wrapped_picture) Fake.boot).1 =
    (run Fake.lib (DeepSeek.perform_ocr_base46 Fake.lib "/9j/AAECAw==") Fake.boot).1.
Proof.
  do 3 (split; [reflexivity|]).
  destruct (base64_noise_is_skipped Fake.lib Fake.Language FakeRun.wrapped_picture "eng" None
              Fake.boot) as (H1 & _ & _ & H2 & _).
  split; [by rewrite <- H1|exact H2].
Defined.


Lemma infer_returns_the_saved_text_witness :
  let L := FakeText.lib FakeText.two_lines in
  let text := "one" +:+ String "010" ("two" +:+ String "010" "") in
  (run L (Engine.infer "/tmp/scan.jpeg") FakeDisk.scanned).1 = Returned text /\
  exists saved,
    saved = FakeText.two_lines /\
    utf_8_valid saved = true /\
    text = universal_newlines saved /\
    disk (run L (Engine.infer "/tmp/scan.jpeg") FakeDisk.scanned).2 = disk FakeDisk.scanned.
Proof.
  assert (Hr : (run (FakeText.lib FakeText.two_lines) (Engine.infer "/tmp/scan.jpeg")
                  FakeDisk.scanned).1 =
               Returned ("one" +:+ String "010" ("two" +:+ String "010" "")))
    by (vm_compute; reflexivity).
  cbv zeta. split; [exact Hr|].
  destruct (infer_returns_the_saved_text (FakeText.lib FakeText.two_lines) _ _ _ Hr)
    as (tmpdir & n & saved & _ & _ & _ & Hsaved & Hvalid & Htext & Hw).
  exists saved. split.
  - cbn in Hsaved. rewrite lookup_singleton_eq in Hsaved. by injection Hsaved as <-.
  - split; [exact Hvalid|]. split; [exact Htext|]. by rewrite Hw.
Defined.

Lemma listed_languages_are_the_accepted_ones_witness :
  exists listing,
    run Fake.lib (Tesseract.get_supported_languages Fake.Language) Fake.boot =
      (Returned (JSONResponse 200 (JDict [("supported_languages", JDict listing)])), Fake.boot) /\
    (exists n, (n, JString "eng") ∈ listing) /\
    ~ (exists n, (n, JString "xx") ∈ listing).
Proof.
  destruct (listed_languages_are_the_accepted_ones Fake.lib Fake.Language "/9j/AAECAw==" "eng"
              Fake.boot) as (listing & Hrun & _ & _ & Heng & _).
  destruct (listed_languages_are_the_accepted_ones Fake.lib Fake.Language "/9j/AAECAw==" "xx"
              Fake.boot) as (listing' & Hrun' & _ & _ & Hxx & _).
  assert (Heq : listing' = listing) by congruence. subst listing'.
  exists listing. split; [exact Hrun|]. split.
  - apply (proj2 Heng). intros d Hd. vm_compute in Hd. discriminate Hd.
  - intros Hin. eapply (proj1 Hxx Hin). vm_compute. reflexivity.
Defined.
